(** * ARM64 stage-1 page-table walkers: a shallow embedding

    Two GDB scripts of the repository walk the ARM64 translation tables:

    - [scripts/03_walk_pagetable.py], class [WalkPageTable]: the manual
      single-address walk ([walk_va], [walk_auto]);
    - [scripts/gdb_pagetable_walk.py], class [Arm64PageTableWalk]: the
      recursive dump of a table hierarchy ([arm64_walk_pagetable]), with an
      optional target address.

    Python integers are unbounded and their [&], [|], [<<], [>>] act on the
    infinite two's-complement representation, which is what [Z.land],
    [Z.lor], [Z.shiftl] and [Z.shiftr] do; so integers are [Z] and no
    wrap-around has to be written out.  What a script does is a list of
    events in program order: a line printed (one constructor per [print]
    statement or block of consecutive ones, carrying the values the format
    strings show), a register read, a memory read. *)

From Stdlib Require Import ZArith List Bool Lia String.
Import ListNotations.
Local Open Scope string_scope.
Local Open Scope list_scope.
Local Open Scope Z_scope.

(** ** Python integers *)

(** Python truthiness of an integer: [if x:] / [if not x:]. *)
Definition truthy (x : Z) : bool := negb (x =? 0).

(** ** The debugger: registers and physical memory

    Both scripts reach the target through GDB.  A register file gives, for a
    register name, the integer [gdb.parse_and_eval] yields, or [None] when
    it raises; a physical memory gives, for an address, the 64-bit value
    [inferior.read_memory] reads there, or [None] when it raises
    [gdb.MemoryError].  The inspected target is never written, so both are
    plain functions.  The QEMU monitor, which [03_walk_pagetable.py] uses
    in place of [read_memory], is described with that script. *)

Definition regfile := string -> option Z.
Definition physmem := Z -> option Z.

(** ** [scripts/03_walk_pagetable.py]: class [WalkPageTable] *)

Module WalkPageTable.

(** What [do_walk] prints, one constructor per [print] statement or per
    block of consecutive ones, with the values interpolated. *)
Inductive line : Type :=
| Usage                                             (* lines 55-56 *)
| WalkingPC (pc : Z)                                (* line 206 *)
| Banner (va : Z)                                   (* lines 62-66 *)
| UsingTTBR1 (ttbr : Z)                             (* line 72 *)
| UsingTTBR0 (ttbr : Z)                             (* line 75 *)
| PageTableBase (table_pa : Z)                      (* line 78 *)
| IndexExtraction (va l0 l1 l2 l3 offset : Z)       (* lines 87-92 *)
| Step (n : Z) (name : string)                      (* lines 107-108 *)
| TablePA (current_table : Z)                       (* line 109 *)
| EntryPA (current_table idx entry_pa : Z)          (* line 110 *)
| ReadError (entry_pa : Z)                          (* line 114 *)
| RawEntry (entry : Z)                              (* line 117 *)
| ValidBit (valid : Z)                              (* line 122 *)
| Fault                                             (* line 124 *)
| Mapped                                            (* line 126 *)
| PageMapping (is_table page_pa offset final_pa : Z) (* lines 132-135 *)
| BlockMapping (block_size : string)
               (block_pa_base final_pa : Z)         (* lines 144-147 *)
| TableNext (next_table : Z)                        (* lines 153-154 *)
| Permissions (ap : Z) (ap_str : string) (xn pxn af sh : Z)
              (sh_str : string) (attr : Z)          (* lines 188-194 *)
| Result (va l0 l1 l2 l3 offset final_pa : Z)       (* lines 159-169 *)
| Verification (final_pa : Z)                       (* line 172 *)
| Footer.                                           (* line 175 *)

(** What the script does with the target, and what GDB puts on the
    console on its own.  [monitor xp/1gx] is run with [to_string=True]:
    its reply is captured and nothing is shown.  [monitor xp/1xw] is run
    without: the reply of the monitor goes to the console, [shown] is its
    text, [None] when [gdb.execute] raised before anything was shown. *)
Inductive event : Type :=
| ParseAndEval (name : string)   (* gdb.parse_and_eval("$name") *)
| MonitorXpGiant (pa : Z)        (* gdb.execute("monitor xp/1gx 0x..") *)
| MonitorXpWord (pa : Z) (shown : option string)
                                 (* gdb.execute("monitor xp/1xw 0x..") *)
| Print (l : line).

(** How a call ends: it returns, or an exception leaves it. *)
Inductive outcome : Type := Returned | Raised.

(** How a call of [read_phys_u64] ends, lines 22-39.  The reply of the
    monitor is searched for a hexadecimal number: the integer is
    returned, or [None] when no word of the reply parses.  An exception
    leaves the method in two places that no [try] covers: [gdb.execute]
    at line 24, and [int(p, 16)] at line 34 for a word that starts with
    [0x] and is no number. *)
Inductive reply : Type :=
| Parsed (value : Z)
| Unparsed
| Failed.

(** The QEMU monitor behind [gdb.execute], for the stopped target: what
    [read_phys_u64] makes of [xp/1gx] at an address, and the text
    [xp/1xw] shows for an address, [None] when [gdb.execute] raises. *)
Record monitor : Type := {
  giant : Z -> reply;
  word : Z -> option string
}.

Section Target.
Variable regs : regfile.
Variable xp : monitor.

(** [read_phys_u64]: the monitor command is issued, then the method
    returns or raises. *)
Definition read_phys_u64 (pa : Z) : list event * reply :=
  ([MonitorXpGiant pa], giant xp pa).

(** [read_reg]: the value forced unsigned, [None] on any exception. *)
Definition read_reg (name : string) : list event * option Z :=
  ([ParseAndEval name],
   match regs name with
   | Some val => Some (Z.land val 0xFFFFFFFFFFFFFFFF)
   | None => None
   end).

Definition decode_ap (ap : Z) : string :=
  if ap =? 0 then "RW_EL1 only"
  else if ap =? 1 then "RW_ALL"
  else if ap =? 2 then "RO_EL1 only"
  else if ap =? 3 then "RO_ALL"
  else "??".

Definition print_permissions (entry : Z) : list event :=
  let ap := Z.land (Z.shiftr entry 6) 3 in
  let xn := Z.land (Z.shiftr entry 54) 1 in
  let pxn := Z.land (Z.shiftr entry 53) 1 in
  let af := Z.land (Z.shiftr entry 10) 1 in
  let sh := Z.land (Z.shiftr entry 8) 3 in
  let attr := Z.land (Z.shiftr entry 2) 7 in
  let sh_str :=
    if sh =? 0 then "Non-shareable"
    else if sh =? 1 then "Reserved"
    else if sh =? 2 then "Outer"
    else if sh =? 3 then "Inner"
    else "?" in
  [Print (Permissions ap (decode_ap ap) xn pxn af sh sh_str attr)].

(** *** Step 0 and step 1 of [do_walk]: root choice, index extraction *)

Definition is_kernel (va : Z) : Z := Z.land (Z.shiftr va 55) 1.
Definition table_pa (ttbr : Z) : Z := Z.land ttbr 0x0000FFFFFFFFF000.

Definition l0_idx (va : Z) : Z := Z.land (Z.shiftr va 39) 0x1FF.
Definition l1_idx (va : Z) : Z := Z.land (Z.shiftr va 30) 0x1FF.
Definition l2_idx (va : Z) : Z := Z.land (Z.shiftr va 21) 0x1FF.
Definition l3_idx (va : Z) : Z := Z.land (Z.shiftr va 12) 0x1FF.
Definition offset (va : Z) : Z := Z.land va 0xFFF.

(** One row of the [levels] list: name, index, shift, block mask. *)
Definition level_row : Type := string * Z * Z * option Z.

Definition levels (va : Z) : list level_row :=
  [ ("L0 (PGD)", l0_idx va, 39, None);
    ("L1 (PUD)", l1_idx va, 30, Some 0x0000FFFFC0000000);
    ("L2 (PMD)", l2_idx va, 21, Some 0x0000FFFFFFE00000);
    ("L3 (PTE)", l3_idx va, 12, Some 0x0000FFFFFFFFF000) ].

(** *** The body of the [for] loop

    How one iteration ends, with the locals that matter afterwards. *)
Inductive step : Type :=
| StepReturnUnreadable (entry_pa : Z)     (* return, line 115 *)
| StepReturnFault (entry : Z)             (* return, line 125 *)
| StepBreak (entry final_pa : Z)          (* break, lines 137 and 149 *)
| StepNext (entry next_table : Z)         (* falls through, line 155 *)
| StepRaise                               (* entry & None: TypeError *)
| StepMonitorError (entry_pa : Z).        (* read_phys_u64 raised, line 112 *)

Definition block_size (shift : Z) : string :=
  if shift =? 30 then "1GB" else if shift =? 21 then "2MB" else "?".

Definition walk_level (va level : Z) (row : level_row)
           (current_table : Z) : list event * step :=
  let '(name, idx, shift, block_mask) := row in
  let entry_pa := current_table + idx * 8 in
  let head :=
    [Print (Step (level + 2) name);
     Print (TablePA current_table);
     Print (EntryPA current_table idx entry_pa)] in
  let '(rd, r) := read_phys_u64 entry_pa in
  match r with
  | Failed => (head ++ rd, StepMonitorError entry_pa)
  | Unparsed =>
      (head ++ rd ++ [Print (ReadError entry_pa)],
       StepReturnUnreadable entry_pa)
  | Parsed entry =>
      let valid := Z.land entry 1 in
      let is_table := Z.land (Z.shiftr entry 1) 1 in
      let seen := head ++ rd ++
                  [Print (RawEntry entry); Print (ValidBit valid)] in
      if negb (truthy valid) then
        (seen ++ [Print Fault], StepReturnFault entry)
      else if level =? 3 then
        let page_pa := Z.land entry 0x0000FFFFFFFFF000 in
        let final_pa := Z.lor page_pa (offset va) in
        (seen ++ [Print Mapped;
                  Print (PageMapping is_table page_pa (offset va) final_pa)]
              ++ print_permissions entry,
         StepBreak entry final_pa)
      else if negb (truthy is_table) && (0 <? level) then
        match block_mask with
        | None => (seen ++ [Print Mapped], StepRaise)
        | Some block_mask =>
            let block_va_mask := Z.shiftl 1 shift - 1 in
            let block_pa_base := Z.land entry block_mask in
            let final_pa := Z.lor block_pa_base (Z.land va block_va_mask) in
            (seen ++ [Print Mapped;
                      Print (BlockMapping (block_size shift)
                                          block_pa_base final_pa)]
                  ++ print_permissions entry,
             StepBreak entry final_pa)
        end
      else
        let next_table := Z.land entry 0x0000FFFFFFFFF000 in
        (seen ++ [Print Mapped; Print (TableNext next_table)],
         StepNext entry next_table)
  end.

(** *** The [for] loop over [enumerate(levels)]

    How the loop is left, with the level and the entry it stopped at. *)
Inductive loop_exit : Type :=
| ExitUnreadable (level entry_pa : Z)     (* returned: read failed *)
| ExitFault (level entry : Z)             (* returned: valid bit clear *)
| ExitBreak (level entry final_pa : Z)    (* break: page or block *)
| ExitExhausted                           (* no row left, final_pa None *)
| ExitRaise
| ExitMonitorError (level entry_pa : Z).  (* raised: read_phys_u64 *)

Fixpoint walk_levels (va level : Z) (rows : list level_row)
         (current_table : Z) : list event * loop_exit :=
  match rows with
  | [] => ([], ExitExhausted)
  | row :: rows' =>
      let '(tr, s) := walk_level va level row current_table in
      match s with
      | StepReturnUnreadable entry_pa => (tr, ExitUnreadable level entry_pa)
      | StepReturnFault entry => (tr, ExitFault level entry)
      | StepBreak entry final_pa => (tr, ExitBreak level entry final_pa)
      | StepRaise => (tr, ExitRaise)
      | StepMonitorError entry_pa => (tr, ExitMonitorError level entry_pa)
      | StepNext _ next_table =>
          let '(tr', e) := walk_levels va (level + 1) rows' next_table in
          (tr ++ tr', e)
      end
  end.

(** *** [do_walk] *)

(** Lines 68-75: the register is read, then printed with [:016x],
    which raises on [None]. *)
Definition choose_ttbr (va : Z) : list event * option Z :=
  if truthy (is_kernel va) then
    let '(rd, r) := read_reg "TTBR1_EL1" in
    match r with
    | Some ttbr => (rd ++ [Print (UsingTTBR1 ttbr)], Some ttbr)
    | None => (rd, None)
    end
  else
    let '(rd, r) := read_reg "TTBR0_EL1" in
    match r with
    | Some ttbr => (rd ++ [Print (UsingTTBR0 ttbr)], Some ttbr)
    | None => (rd, None)
    end.

(** Lines 157-175: the result block, the verification read, whose reply
    the monitor shows on the console, and the footer.  When the
    verification read raises, the footer is not reached. *)
Definition report (va : Z) (final_pa : option Z) : list event * outcome :=
  match final_pa with
  | Some final_pa =>
      let result :=
        [Print (Result va (l0_idx va) (l1_idx va) (l2_idx va) (l3_idx va)
                       (offset va) final_pa);
         Print (Verification final_pa)] in
      match word xp final_pa with
      | Some text =>
          (result ++ [MonitorXpWord final_pa (Some text); Print Footer],
           Returned)
      | None => (result ++ [MonitorXpWord final_pa None], Raised)
      end
  | None => ([Print Footer], Returned)
  end.

Definition do_walk (va : Z) : list event * outcome :=
  let '(sel, r) := choose_ttbr va in
  match r with
  | None => (Print (Banner va) :: sel, Raised)
  | Some ttbr =>
      let pre :=
        Print (Banner va) :: sel ++
        [Print (PageTableBase (table_pa ttbr));
         Print (IndexExtraction va (l0_idx va) (l1_idx va) (l2_idx va)
                                (l3_idx va) (offset va))] in
      let '(tr, e) := walk_levels va 0 (levels va) (table_pa ttbr) in
      match e with
      | ExitUnreadable _ _ | ExitFault _ _ => (pre ++ tr, Returned)
      | ExitRaise | ExitMonitorError _ _ => (pre ++ tr, Raised)
      | ExitBreak _ _ final_pa =>
          let '(rep, o) := report va (Some final_pa) in
          (pre ++ tr ++ rep, o)
      | ExitExhausted =>
          let '(rep, o) := report va None in
          (pre ++ tr ++ rep, o)
      end
  end.

(** [WalkPageTable.invoke], the command [walk_va]: the command line is
    no argument, an address, or a word [int] rejects. *)
Inductive argument : Type :=
| NoArgument
| Address (va : Z)
| NotAnInteger.

Definition invoke (arg : argument) : list event * outcome :=
  match arg with
  | NoArgument => ([Print Usage], Returned)
  | Address va => do_walk (Z.land va 0xFFFFFFFFFFFFFFFF)
  | NotAnInteger => ([], Raised)
  end.

(** [WalkAuto.invoke], the command [walk_auto]: the walk for the current
    program counter. *)
Definition walk_auto : list event * outcome :=
  match regs "pc" with
  | Some pc =>
      let pc := Z.land pc 0xFFFFFFFFFFFFFFFF in
      let '(tr, o) := do_walk pc in
      (ParseAndEval "pc" :: Print (WalkingPC pc) :: tr, o)
  | None => ([ParseAndEval "pc"], Raised)
  end.

End Target.

End WalkPageTable.

(** ** [scripts/gdb_pagetable_walk.py]: class [Arm64PageTableWalk] *)

Module Arm64PageTableWalk.

(** The string [decode_pte] returns, by its shape: the four [return]
    statements, with the interpolated values. *)
Inductive decoded : Type :=
| UNREADABLE                                        (* line 79 *)
| INVALID                                           (* line 83 *)
| TABLE (next_addr : Z)                             (* line 101 *)
| LEAF (kind : string) (next_addr : Z)
       (block_size ap_str xn_str sh_str af_str : string). (* lines 105-107 *)

(** What is printed.  The lines of [walk_table] start with the indent
    ["  " * level]: their first argument. *)
Inductive line : Type :=
| TableHeader (level : nat) (name : string) (table_addr : Z) (* 118-120 *)
| EntryLine (level : nat) (i va : Z) (d : decoded)           (* 147 *)
| RawLine (level : nat) (entry : Z)                          (* 148 *)
| Truncated (level : nat) (entries_shown : Z)                (* 159 *)
| InvalidAddress                                             (* 171 *)
| Banner                                                     (* 174-176 *)
| SystemRegisters                                            (* 184 *)
| ShowTTBR0 (ttbr0 : Z)                                      (* 186 *)
| ShowTTBR1 (ttbr1 : Z)                                      (* 188 *)
| ShowTCR (tcr t0sz t1sz : Z) (granule : string)
          (user_bits kernel_bits : Z)                        (* 190-199 *)
| ShowSCTLR (sctlr : Z) (mmu_on : Z)                         (* 202-203 *)
| Blank                                                      (* 205 *)
| Walking (target_va : Z)                                    (* 208-209 *)
| CannotReadTTBR1                                            (* 213 *)
| CannotReadTTBR0                                            (* 220 *)
| UsingTTBR1 (base : Z)                                      (* 216 *)
| UsingTTBR0 (base : Z)                                      (* 223 *)
| DumpTTBR0                                                  (* 229 *)
| DumpTTBR1                                                  (* 234 *)
| Footer.                                                    (* 237 *)

Inductive event : Type :=
| ParseAndEval (name : string)        (* gdb.parse_and_eval("$name") *)
| ReadMemory (addr size : Z)          (* inferior.read_memory(addr, size) *)
| Print (l : line).

(** The command line after [gdb.string_to_argv] and [int(args[0], 0)]:
    no argument, an address, or a word that is no integer. *)
Inductive argument : Type :=
| NoArgument
| Address (target_va : Z)
| NotAnInteger.

(** [range(512)] *)
Definition range512 : list Z := List.map Z.of_nat (seq 0 512).

Definition level_names : list string :=
  ["PGD (L0)"; "PUD (L1)"; "PMD (L2)"; "PTE (L3)"].
Definition bits_per_level : list Z := [39; 30; 21; 12].

Definition decode_pte (entry : option Z) (level : nat) : decoded :=
  match entry with
  | None => UNREADABLE
  | Some entry =>
      let valid := Z.land entry 1 in
      if negb (truthy valid) then INVALID
      else
        let is_table := Z.land (Z.shiftr entry 1) 1 in
        let addr_mask := 0x0000FFFFFFFFF000 in
        let next_addr := Z.land entry addr_mask in
        let ap := Z.land (Z.shiftr entry 6) 0x3 in
        let xn := Z.land (Z.shiftr entry 54) 1 in
        let af := Z.land (Z.shiftr entry 10) 1 in
        let sh := Z.land (Z.shiftr entry 8) 0x3 in
        let ap_str :=
          if ap =? 0 then "RW_EL1" else if ap =? 1 then "RW_ALL"
          else if ap =? 2 then "RO_EL1" else if ap =? 3 then "RO_ALL"
          else "??" in
        let sh_str :=
          if sh =? 0 then "Non-share" else if sh =? 1 then "Reserved"
          else if sh =? 2 then "Outer-share"
          else if sh =? 3 then "Inner-share" else "??" in
        if (level <? 3)%nat && truthy is_table then TABLE next_addr
        else
          let block_size :=
            match level with
            | 0%nat => "512GB" | 1%nat => "1GB" | 2%nat => "2MB"
            | 3%nat => "4KB" | _ => "??"
            end in
          let xn_str := if truthy xn then "NoExec" else "Exec" in
          LEAF (if (level <? 3)%nat then "BLOCK" else "PAGE") next_addr
               block_size ap_str xn_str sh_str
               (if truthy af then "Accessed" else "NotAccessed")
  end.

Section Target.
Variable regs : regfile.
Variable mem : physmem.

(** [read_u64] over [read_memory]: eight bytes are requested at [addr];
    [mem addr] is their little-endian value, [None] on
    [gdb.MemoryError]. *)
Definition read_u64 (addr : Z) : list event * option Z :=
  ([ReadMemory addr 8], mem addr).

(** [read_sysreg]: the raw integer, [None] on any exception. *)
Definition read_sysreg (name : string) : list event * option Z :=
  ([ParseAndEval name], regs name).

(** Output so far, followed by what the rest of the computation prints
    when it completes. *)
Definition followed_by (tr : list event) (k : option (list event))
  : option (list event) :=
  match k with
  | Some tr' => Some (tr ++ tr')
  | None => None
  end.

(** *** The [for i in range(512)] loop of [walk_table]

    [recurse] stands for the call [self.walk_table(next_addr, va, level
    + 1, target_va, max_entries)]; the loop carries [entries_shown]. *)
Section Loop.
Variable recurse : Z -> Z -> option (list event).
Variables (table_addr va_start : Z) (level : nat).
Variables (target_va : option Z) (max_entries : Z).

Definition shift : Z := nth level bits_per_level 0.

(** Lines 142-145: with a target, an index other than the target's
    is passed over. *)
Definition not_on_target_path (i : Z) : bool :=
  match target_va with
  | Some target_va =>
      let idx_for_target := Z.land (Z.shiftr target_va shift) 0x1FF in
      negb (i =? idx_for_target)
  | None => false
  end.

Definition target_is_none : bool :=
  match target_va with None => true | Some _ => false end.

(** How one iteration ends: the loop goes on to the next index
    with the count of entries shown, or is left by [break]. *)
Inductive step : Type :=
| StepContinue (entries_shown : Z)
| StepBreak.

(** The body, lines 124-160.  [None]: the recursive call did not
    return within its bound. *)
Definition visit (i entries_shown : Z) : option (list event * step) :=
  let entry_addr := table_addr + i * 8 in
  let '(rd, r) := read_u64 entry_addr in
  match r with
  | None => Some (rd, StepContinue entries_shown)
  | Some entry =>
      if negb (truthy (Z.land entry 1)) then
        Some (rd, StepContinue entries_shown)
      else
        let va := Z.lor va_start (Z.shiftl i shift) in
        let va :=
          if truthy (Z.land va (Z.shiftl 1 47))
          then Z.lor va 0xFFFF000000000000 else va in
        let decoded := decode_pte (Some entry) level in
        if not_on_target_path i then
          Some (rd, StepContinue entries_shown)
        else
          let shown :=
            [Print (EntryLine level i va decoded);
             Print (RawLine level entry)] in
          let entries_shown := entries_shown + 1 in
          let is_table := Z.land (Z.shiftr entry 1) 1 in
          let below :=
            if (level <? 3)%nat && truthy is_table then
              let next_addr := Z.land entry 0x0000FFFFFFFFF000 in
              recurse next_addr (Z.lor va_start (Z.shiftl i shift))
            else Some [] in
          match below with
          | None => None
          | Some below =>
              if (max_entries <=? entries_shown) && target_is_none
              then
                Some (rd ++ shown ++ below ++
                      [Print (Truncated level entries_shown)],
                      StepBreak)
              else
                Some (rd ++ shown ++ below,
                      StepContinue entries_shown)
          end
  end.

Fixpoint walk_entries (indices : list Z) (entries_shown : Z)
  : option (list event) :=
  match indices with
  | [] => Some []
  | i :: rest =>
      match visit i entries_shown with
      | None => None
      | Some (tr, StepBreak) => Some tr
      | Some (tr, StepContinue entries_shown) =>
          followed_by tr (walk_entries rest entries_shown)
      end
  end.

End Loop.

(** *** [walk_table]

    The method calls itself; [fuel] bounds the depth of the calls, and
    [None] means the bound was reached before the call returned. *)
Fixpoint walk_table (fuel : nat) (table_addr va_start : Z) (level : nat)
         (target_va : option Z) (max_entries : Z)
  : option (list event) :=
  match fuel with
  | O => None
  | S fuel' =>
      if (3 <? level)%nat then Some []
      else
        followed_by
          [Print (TableHeader level (nth level level_names "") table_addr)]
          (walk_entries
             (fun next_addr va =>
                walk_table fuel' next_addr va (S level)
                           target_va max_entries)
             table_addr va_start level target_va max_entries
             range512 0)
  end.

(** *** [invoke] *)

Definition base (ttbr : Z) : Z := Z.land ttbr 0x0000FFFFFFFFFFFF.

(** Lines 174-205: the banner and the register dump. *)
Definition show_registers (ttbr0 ttbr1 tcr sctlr : option Z)
  : list event :=
  [Print SystemRegisters]
  ++ match ttbr0 with Some v => [Print (ShowTTBR0 v)] | None => [] end
  ++ match ttbr1 with Some v => [Print (ShowTTBR1 v)] | None => [] end
  ++ match tcr with
     | Some tcr =>
         let t0sz := Z.land tcr 0x3F in
         let t1sz := Z.land (Z.shiftr tcr 16) 0x3F in
         let tg0 := Z.land (Z.shiftr tcr 14) 0x3 in
         let granule :=
           if tg0 =? 0 then "4KB" else if tg0 =? 1 then "64KB"
           else if tg0 =? 2 then "16KB" else "??" in
         [Print (ShowTCR tcr t0sz t1sz granule (64 - t0sz) (64 - t1sz))]
     | None => []
     end
  ++ match sctlr with
     | Some sctlr => [Print (ShowSCTLR sctlr (Z.land sctlr 1))]
     | None => []
     end
  ++ [Print Blank].

(** Line 237, after the walk has returned. *)
Definition followed_by_footer (k : option (list event))
  : option (list event) :=
  match k with
  | Some tr => Some (tr ++ [Print Footer])
  | None => None
  end.

Definition invoke (fuel : nat) (arg : argument)
  : option (list event) :=
  match arg with
  | NotAnInteger => Some [Print InvalidAddress]
  | _ =>
      let '(e0, ttbr0) := read_sysreg "TTBR0_EL1" in
      let '(e1, ttbr1) := read_sysreg "TTBR1_EL1" in
      let '(e2, tcr) := read_sysreg "TCR_EL1" in
      let '(e3, sctlr) := read_sysreg "SCTLR_EL1" in
      let pre := Print Banner :: e0 ++ e1 ++ e2 ++ e3
                 ++ show_registers ttbr0 ttbr1 tcr sctlr in
      match arg with
      | Address target_va =>
          let pre := pre ++ [Print (Walking target_va)] in
          if 0xFFFF000000000000 <=? target_va then
            match ttbr1 with
            | None => Some (pre ++ [Print CannotReadTTBR1])
            | Some ttbr1 =>
                followed_by (pre ++ [Print (UsingTTBR1 (base ttbr1))])
                  (followed_by_footer
                     (walk_table fuel (base ttbr1) 0xFFFF000000000000
                                 0 (Some target_va) 512))
            end
          else
            match ttbr0 with
            | None => Some (pre ++ [Print CannotReadTTBR0])
            | Some ttbr0 =>
                followed_by (pre ++ [Print (UsingTTBR0 (base ttbr0))])
                  (followed_by_footer
                     (walk_table fuel (base ttbr0) 0
                                 0 (Some target_va) 512))
            end
      | _ =>
          let dump0 :=
            match ttbr0 with
            | Some ttbr0 =>
                followed_by [Print DumpTTBR0]
                  (walk_table fuel (base ttbr0) 0 0 None 10)
            | None => Some []
            end in
          let dump1 :=
            match ttbr1 with
            | Some ttbr1 =>
                followed_by [Print DumpTTBR1]
                  (walk_table fuel (base ttbr1) 0xFFFF000000000000
                              0 None 10)
            | None => Some []
            end in
          match dump0 with
          | None => None
          | Some d0 =>
              followed_by (pre ++ d0) (followed_by_footer dump1)
          end
      end
  end.

End Target.

End Arm64PageTableWalk.

(** ** Reading the output of [do_walk] *)

Module WalkPageTableTraces.
Import WalkPageTable.

(** The block geometry as the architecture has it: a level-1 block is
    1 GiB, a level-2 block 2 MiB; the output address of a block is bits
    [47:levelShift] of its descriptor. *)
Definition levelShift (level : Z) : Z := if level =? 1 then 30 else 21.
Definition levelMask (level : Z) : Z :=
  Z.shiftl (Z.ones (48 - levelShift level)) (levelShift level).

(** Events that report a translated physical address. *)
Definition reports_final_pa (ev : event) : bool :=
  match ev with
  | Print (PageMapping _ _ _ _) | Print (BlockMapping _ _ _)
  | Print (Result _ _ _ _ _ _ _) | Print (Verification _)
  | MonitorXpWord _ _ => true
  | _ => false
  end.

Definition is_read (ev : event) : bool :=
  match ev with MonitorXpGiant _ => true | _ => false end.

Definition is_verification_read (ev : event) : bool :=
  match ev with MonitorXpWord _ _ => true | _ => false end.

(** What an iteration prints up to the valid bit of a fetched entry. *)
Definition fetched (level : Z) (name : string) (idx current_table : Z)
           (entry : Z) : list event :=
  [Print (Step (level + 2) name);
   Print (TablePA current_table);
   Print (EntryPA current_table idx (current_table + idx * 8));
   MonitorXpGiant (current_table + idx * 8);
   Print (RawEntry entry);
   Print (ValidBit (Z.land entry 1))].

(** The six ways an iteration of the loop can go, each with what it
    prints. *)
Section Iteration.
Variable xp : monitor.
Variables (va level : Z) (name : string) (idx shift : Z).
Variable current_table : Z.

Inductive iteration (block_mask : option Z)
  : list event * step -> Prop :=
| it_unreadable :
    giant xp (current_table + idx * 8) = Unparsed ->
    iteration block_mask
      ([Print (Step (level + 2) name);
        Print (TablePA current_table);
        Print (EntryPA current_table idx (current_table + idx * 8));
        MonitorXpGiant (current_table + idx * 8);
        Print (ReadError (current_table + idx * 8))],
       StepReturnUnreadable (current_table + idx * 8))
| it_invalid entry :
    giant xp (current_table + idx * 8) = Parsed entry ->
    Z.land entry 1 = 0 ->
    iteration block_mask (fetched level name idx current_table entry
               ++ [Print Fault], StepReturnFault entry)
| it_page entry :
    giant xp (current_table + idx * 8) = Parsed entry ->
    Z.land entry 1 = 1 -> level = 3 ->
    iteration block_mask
      (fetched level name idx current_table entry ++
       [Print Mapped;
        Print (PageMapping (Z.land (Z.shiftr entry 1) 1)
                 (Z.land entry 0x0000FFFFFFFFF000) (offset va)
                 (Z.lor (Z.land entry 0x0000FFFFFFFFF000) (offset va)))]
       ++ print_permissions entry,
       StepBreak entry
                 (Z.lor (Z.land entry 0x0000FFFFFFFFF000) (offset va)))
| it_block entry :
    giant xp (current_table + idx * 8) = Parsed entry ->
    Z.land entry 1 = 1 -> Z.land (Z.shiftr entry 1) 1 = 0 ->
    level <> 3 -> 0 < level ->
    iteration block_mask
      (match block_mask with
       | Some mask =>
           (fetched level name idx current_table entry ++
            [Print Mapped;
             Print (BlockMapping (block_size shift) (Z.land entry mask)
                      (Z.lor (Z.land entry mask)
                             (Z.land va (Z.shiftl 1 shift - 1))))]
            ++ print_permissions entry,
            StepBreak entry (Z.lor (Z.land entry mask)
                                   (Z.land va (Z.shiftl 1 shift - 1))))
       | None =>
           (fetched level name idx current_table entry ++ [Print Mapped],
            StepRaise)
       end)
| it_table entry :
    giant xp (current_table + idx * 8) = Parsed entry ->
    Z.land entry 1 = 1 -> level <> 3 ->
    Z.land (Z.shiftr entry 1) 1 = 1 \/ level <= 0 ->
    iteration block_mask
      (fetched level name idx current_table entry ++
       [Print Mapped; Print (TableNext (Z.land entry 0x0000FFFFFFFFF000))],
       StepNext entry (Z.land entry 0x0000FFFFFFFFF000))
| it_failed :
    giant xp (current_table + idx * 8) = Failed ->
    iteration block_mask
      ([Print (Step (level + 2) name);
        Print (TablePA current_table);
        Print (EntryPA current_table idx (current_table + idx * 8));
        MonitorXpGiant (current_table + idx * 8)],
       StepMonitorError (current_table + idx * 8)).

End Iteration.

(** Events of iterations that went on to the next level: no address is
    reported, no fault, and every entry shown has its valid bit set. *)
Definition descending (ev : event) : bool :=
  match ev with
  | Print (RawEntry entry) => Z.land entry 1 =? 1
  | Print Fault | Print (ReadError _) => false
  | _ => negb (reports_final_pa ev)
  end.

Definition exit_of (level : Z) (s : step) : option loop_exit :=
  match s with
  | StepReturnUnreadable entry_pa => Some (ExitUnreadable level entry_pa)
  | StepReturnFault entry => Some (ExitFault level entry)
  | StepBreak entry final_pa => Some (ExitBreak level entry final_pa)
  | StepRaise => Some ExitRaise
  | StepMonitorError entry_pa => Some (ExitMonitorError level entry_pa)
  | StepNext _ _ => None
  end.

(** What [do_walk] prints before its loop, lines 62-92. *)
Definition prelude (va : Z) (sel : list event) (ttbr : Z) : list event :=
  Print (Banner va) :: sel ++
  [Print (PageTableBase (table_pa ttbr));
   Print (IndexExtraction va (l0_idx va) (l1_idx va) (l2_idx va)
                          (l3_idx va) (offset va))].

(** What [read_phys_u64] makes of an address whose reply shows the value
    a memory read gives there, and of an address that cannot be read. *)
Definition reply_of (r : option Z) : reply :=
  match r with
  | Some value => Parsed value
  | None => Unparsed
  end.

(** The exit of the loop of [do_walk], when the root register could be
    read. *)
Definition loop_exit_of (regs : regfile) (xp : monitor) (va : Z)
  : option loop_exit :=
  match snd (choose_ttbr regs va) with
  | Some ttbr => Some (snd (walk_levels xp va 0 (levels va) (table_pa ttbr)))
  | None => None
  end.

(** A monitor command of the walk raises: the read of an entry in the
    loop, or the verification read after it. *)
Definition monitor_fails (regs : regfile) (xp : monitor) (va : Z) : bool :=
  match loop_exit_of regs xp va with
  | Some (ExitMonitorError _ _) => true
  | Some (ExitBreak _ _ final_pa) =>
      match word xp final_pa with
      | Some _ => false
      | None => true
      end
  | _ => false
  end.

End WalkPageTableTraces.

(** ** Reading the output of [walk_table] *)

Module Arm64PageTableWalkTraces.
Import Arm64PageTableWalk.

(** The lines printed, without the reads. *)
Fixpoint printed (tr : list event) : list line :=
  match tr with
  | [] => []
  | Print l :: tr => l :: printed tr
  | _ :: tr => printed tr
  end.

Definition is_read (ev : event) : bool :=
  match ev with ReadMemory _ _ => true | _ => false end.

(** The number of memory reads a trace holds. *)
Definition reads (tr : list event) : Z :=
  Z.of_nat (List.length (filter is_read tr)).

(** The level a line of [walk_table] is indented to. *)
Definition level_of (ev : event) : option nat :=
  match ev with
  | Print (TableHeader level _ _) | Print (EntryLine level _ _ _)
  | Print (RawLine level _) | Print (Truncated level _) => Some level
  | _ => None
  end.

(** Every line of the trace belongs to a table of level [lo] to 3. *)
Definition within (lo : nat) (ev : event) : bool :=
  match ev with
  | ReadMemory _ _ => true
  | _ => match level_of ev with
         | Some level => (lo <=? level)%nat && (level <=? 3)%nat
         | None => false
         end
  end.




(** A line that flags an entry as unreadable or invalid. *)
Definition flags_failure (ev : event) : bool :=
  match ev with
  | Print (EntryLine _ _ _ UNREADABLE) | Print (EntryLine _ _ _ INVALID) =>
      true
  | _ => false
  end.

(** The index of the target at a level, lines 143. *)
Definition idx_for_target (target_va : Z) (level : nat) : Z :=
  Z.land (Z.shiftr target_va (shift level)) 0x1FF.


(** The entry at [addr] can be read and has its valid bit set. *)
Definition present (mem : physmem) (addr : Z) : bool :=
  match mem addr with
  | Some entry => truthy (Z.land entry 1)
  | None => false
  end.



(** What the walk can tell of a memory cell: its value when it is
    present, nothing otherwise. *)
Definition visible (mem : physmem) (addr : Z) : option Z :=
  match mem addr with
  | Some entry => if truthy (Z.land entry 1) then Some entry else None
  | None => None
  end.

(** A bound on the reads of a walk that may go [depth] tables deep:
    512 entries, each with at most one table below. *)
Fixpoint reads_bound (depth : nat) : Z :=
  match depth with
  | O => 0
  | S depth => 512 * (1 + reads_bound depth)
  end.

(** What [invoke] prints and reads before it walks, lines 174-205. *)
Definition register_dump (regs : regfile) : list event :=
  Print Banner
  :: [ParseAndEval "TTBR0_EL1"; ParseAndEval "TTBR1_EL1";
      ParseAndEval "TCR_EL1"; ParseAndEval "SCTLR_EL1"]
  ++ show_registers (regs "TTBR0_EL1") (regs "TTBR1_EL1")
                    (regs "TCR_EL1") (regs "SCTLR_EL1").

(** The pieces of one iteration of the loop of [walk_table]. *)
Section Iteration.
Variable mem : physmem.
Variable recurse : Z -> Z -> option (list event).
Variables (table_addr va_start : Z) (level : nat).
Variables (target_va : option Z) (max_entries : Z).

(** Lines 134-137: the address shown, sign-extended from bit 47. *)
Definition entry_va (i : Z) : Z :=
  let va := Z.lor va_start (Z.shiftl i (shift level)) in
  if truthy (Z.land va (Z.shiftl 1 47))
  then Z.lor va 0xFFFF000000000000 else va.

(** Lines 147-148. *)
Definition shown (i entry : Z) : list event :=
  [Print (EntryLine level i (entry_va i) (decode_pte (Some entry) level));
   Print (RawLine level entry)].

(** Lines 152-156: the table below, when the entry is followed. *)
Definition below (i entry : Z) : option (list event) :=
  if (level <? 3)%nat && truthy (Z.land (Z.shiftr entry 1) 1) then
    recurse (Z.land entry 0x0000FFFFFFFFF000)
            (Z.lor va_start (Z.shiftl i (shift level)))
  else Some [].

(** The ways an iteration can go. *)
Inductive iteration (i entries_shown : Z)
  : option (list event * step) -> Prop :=
| it_unreadable :
    mem (table_addr + i * 8) = None ->
    iteration i entries_shown
      (Some ([ReadMemory (table_addr + i * 8) 8],
             StepContinue entries_shown))
| it_invalid entry :
    mem (table_addr + i * 8) = Some entry ->
    Z.land entry 1 = 0 ->
    iteration i entries_shown
      (Some ([ReadMemory (table_addr + i * 8) 8],
             StepContinue entries_shown))
| it_off_path entry :
    mem (table_addr + i * 8) = Some entry ->
    Z.land entry 1 = 1 ->
    not_on_target_path level target_va i = true ->
    iteration i entries_shown
      (Some ([ReadMemory (table_addr + i * 8) 8],
             StepContinue entries_shown))
| it_out_of_fuel entry :
    mem (table_addr + i * 8) = Some entry ->
    Z.land entry 1 = 1 ->
    not_on_target_path level target_va i = false ->
    below i entry = None ->
    iteration i entries_shown None
| it_truncated entry sub :
    mem (table_addr + i * 8) = Some entry ->
    Z.land entry 1 = 1 ->
    not_on_target_path level target_va i = false ->
    below i entry = Some sub ->
    max_entries <= entries_shown + 1 -> target_va = None ->
    iteration i entries_shown
      (Some (ReadMemory (table_addr + i * 8) 8 :: shown i entry ++ sub ++
             [Print (Truncated level (entries_shown + 1))],
             StepBreak))
| it_shown entry sub :
    mem (table_addr + i * 8) = Some entry ->
    Z.land entry 1 = 1 ->
    not_on_target_path level target_va i = false ->
    below i entry = Some sub ->
    entries_shown + 1 < max_entries \/ target_va <> None ->
    iteration i entries_shown
      (Some (ReadMemory (table_addr + i * 8) 8 :: shown i entry ++ sub,
             StepContinue (entries_shown + 1))).

End Iteration.

End Arm64PageTableWalkTraces.

(** ** Concrete targets *)

Module Examples.

(** Registers: [TTBR0_EL1] holds [ttbr0], [TTBR1_EL1] holds [ttbr1]; no
    other register can be read. *)
Definition two_roots (ttbr0 ttbr1 : Z) : regfile :=
  fun name =>
    if String.eqb name "TTBR0_EL1" then Some ttbr0
    else if String.eqb name "TTBR1_EL1" then Some ttbr1
    else None.

(** A level-0 table at 0x1000 whose entry 0 names the table at 0x2000,
    whose entry 4 is [raw]; no other address can be read. *)
Definition one_path (raw : Z) : physmem :=
  fun addr =>
    if addr =? 0x1000 then Some 0x2003
    else if addr =? 0x2020 then Some raw
    else None.

(** The same two entries, every other entry reading as zero. *)
Definition one_path_zeroes (raw : Z) : physmem :=
  fun addr =>
    if addr =? 0x1000 then Some 0x2003
    else if addr =? 0x2020 then Some raw
    else Some 0.

(** A table at 0x1000 whose entry 0 is [raw], all others zero. *)
Definition one_entry (raw : Z) : physmem :=
  fun addr => if addr =? 0x1000 then Some raw else Some 0.

(** A table at 0x1000 whose entry 0 cannot be read, whose entry 1 is
    [raw], all others zero. *)
Definition hole_then (raw : Z) : physmem :=
  fun addr =>
    if addr =? 0x1000 then None
    else if addr =? 0x1008 then Some raw
    else Some 0.

(** The same table with a zero in place of the hole. *)
Definition zero_then (raw : Z) : physmem :=
  fun addr => if addr =? 0x1008 then Some raw else Some 0.

Definition zeroes : physmem := fun _ => Some 0.
Definition unreadable : physmem := fun _ => None.

(** Every entry of every table is a valid table descriptor naming the
    table at address 0: each table is its own child. *)
Definition self_referential : physmem := fun _ => Some 3.

End Examples.

(** ** More concrete targets *)

Module MoreExamples.

(** Four tables at 0x1000, 0x2000, 0x3000 and 0x4000, each reached through
    entry 0 of the one before; entry 0 of the last is [raw].  No other
    address can be read. *)
Definition four_levels (raw : Z) : physmem :=
  fun addr =>
    if addr =? 0x1000 then Some 0x2003
    else if addr =? 0x2000 then Some 0x3003
    else if addr =? 0x3000 then Some 0x4003
    else if addr =? 0x4000 then Some raw
    else None.

(** The same tables, every other entry reading as zero. *)
Definition four_levels_zeroes (raw : Z) : physmem :=
  fun addr =>
    if addr =? 0x1000 then Some 0x2003
    else if addr =? 0x2000 then Some 0x3003
    else if addr =? 0x3000 then Some 0x4003
    else if addr =? 0x4000 then Some raw
    else Some 0.

(** No register can be read. *)
Definition no_register : regfile := fun _ => None.

(** The monitor of a target with the physical memory [mem]: [xp/1gx]
    parses to what the memory holds, or to nothing where it cannot be
    read; [xp/1xw] shows the same line for every address. *)
Definition monitor_of (mem : physmem) : WalkPageTable.monitor :=
  {| WalkPageTable.giant := fun pa => WalkPageTableTraces.reply_of (mem pa);
     WalkPageTable.word := fun _ => Some "0000000000000000: 0x00000000" |}.

(** The same monitor, except that [xp/1gx] fails at the address [pa]. *)
Definition failing_at (pa : Z) (mem : physmem) : WalkPageTable.monitor :=
  {| WalkPageTable.giant :=
       fun a => if a =? pa then WalkPageTable.Failed
                else WalkPageTableTraces.reply_of (mem a);
     WalkPageTable.word := fun _ => Some "0000000000000000: 0x00000000" |}.

(** The same monitor, except that [xp/1xw] fails everywhere. *)
Definition failing_word (mem : physmem) : WalkPageTable.monitor :=
  {| WalkPageTable.giant := fun pa => WalkPageTableTraces.reply_of (mem pa);
     WalkPageTable.word := fun _ => None |}.

(** The same monitor, except that [xp/1xw] fails everywhere but at
    [pa]. *)
Definition word_only_at (pa : Z) (mem : physmem) : WalkPageTable.monitor :=
  {| WalkPageTable.giant := fun a => WalkPageTableTraces.reply_of (mem a);
     WalkPageTable.word := fun a =>
       if a =? pa then Some "0000000000000000: 0x00000000" else None |}.

End MoreExamples.

(** ** Reading the output of [walk_table] further *)

Module Arm64PageTableWalkOutput.
Import Arm64PageTableWalk.

Definition is_header (ev : event) : bool :=
  match ev with Print (TableHeader _ _ _) => true | _ => false end.

(** The number of tables a trace walks: one header each. *)
Definition tables (tr : list event) : nat :=
  List.length (filter is_header tr).

(** The indices of the entries shown for the tables of level [level], in
    the order of the output. *)
Fixpoint indices_at (level : nat) (tr : list event) : list Z :=
  match tr with
  | [] => []
  | Print (EntryLine l i _ _) :: tr =>
      if (l =? level)%nat then i :: indices_at level tr
      else indices_at level tr
  | _ :: tr => indices_at level tr
  end.

(** The tables walked, in the order of the output: the level and the
    address of each header. *)
Fixpoint headers (tr : list event) : list (nat * Z) :=
  match tr with
  | [] => []
  | Print (TableHeader l _ a) :: tr => (l, a) :: headers tr
  | _ :: tr => headers tr
  end.

(** The tables announced, in the order of the output: for each entry
    line labelled as a table, the level below the line's and the address
    on the label. *)
Fixpoint table_lines (tr : list event) : list (nat * Z) :=
  match tr with
  | [] => []
  | Print (EntryLine l _ _ (TABLE a)) :: tr => (S l, a) :: table_lines tr
  | _ :: tr => table_lines tr
  end.

Definition is_parse (ev : event) : bool :=
  match ev with ParseAndEval _ => true | _ => false end.

(** The number of register evaluations a trace holds. *)
Definition parses (tr : list event) : nat :=
  List.length (filter is_parse tr).

Definition is_footer (ev : event) : bool :=
  match ev with Print Footer => true | _ => false end.

End Arm64PageTableWalkOutput.

(** ** The two walkers side by side *)

Module WalkersOutput.

(** The raw entries shown by [walk_table], in the order of the output. *)
Fixpoint raw_lines (ls : list Arm64PageTableWalk.line) : list Z :=
  match ls with
  | [] => []
  | Arm64PageTableWalk.RawLine _ entry :: ls => entry :: raw_lines ls
  | _ :: ls => raw_lines ls
  end.

(** The raw entries shown by [do_walk] whose valid bit is set, in the
    order of the output. *)
Fixpoint valid_entries (tr : list WalkPageTable.event) : list Z :=
  match tr with
  | [] => []
  | WalkPageTable.Print (WalkPageTable.RawEntry entry) :: tr =>
      if truthy (Z.land entry 1) then entry :: valid_entries tr
      else valid_entries tr
  | _ :: tr => valid_entries tr
  end.

End WalkersOutput.

(** * Theorems *)

(** ** Bit-level facts about masks and fields *)

Section Bits.

Lemma testbit_ones (k n : Z) :
  0 <= k -> Z.testbit (Z.ones k) n = (0 <=? n) && (n <? k).
Proof.
  intros Hk.
  destruct (Z.leb_spec 0 n) as [Hn|Hn]; cbn [andb].
  - destruct (Z.ltb_spec n k) as [Hlt|Hge].
    + apply Z.ones_spec_low; lia.
    + apply Z.ones_spec_high; lia.
  - apply Z.testbit_neg_r; lia.
Qed.

(** A field of [w] bits at bit offset [s]: [(x >> s) & (2^w - 1)]. *)
Lemma testbit_field (x s w n : Z) :
  0 <= s -> 0 <= w -> 0 <= n ->
  Z.testbit (Z.land (Z.shiftr x s) (Z.ones w)) n =
  Z.testbit x (n + s) && (n <? w).
Proof.
  intros Hs Hw Hn.
  rewrite Z.land_spec, Z.shiftr_spec, testbit_ones by lia.
  destruct (Z.leb_spec 0 n); [reflexivity | lia].
Qed.

(** A mask that keeps bits [lo .. hi-1]: [Z.ones (hi - lo) << lo]. *)
Lemma testbit_mask (x lo hi n : Z) :
  0 <= lo <= hi ->
  Z.testbit (Z.land x (Z.shiftl (Z.ones (hi - lo)) lo)) n =
  Z.testbit x n && ((lo <=? n) && (n <? hi)).
Proof.
  intros Hb.
  destruct (Z.ltb_spec n 0) as [Hneg|Hn].
  - rewrite !Z.testbit_neg_r by lia. reflexivity.
  - rewrite Z.land_spec, Z.shiftl_spec, testbit_ones by lia.
    f_equal.
    destruct (Z.leb_spec 0 (n - lo)), (Z.leb_spec lo n),
      (Z.ltb_spec (n - lo) (hi - lo)), (Z.ltb_spec n hi);
      try lia; reflexivity.
Qed.

Lemma land_1_cases (x : Z) : Z.land x 1 = 0 \/ Z.land x 1 = 1.
Proof.
  change (Z.land x 1) with (Z.land x (Z.ones 1)).
  rewrite Z.land_ones, Z.pow_1_r by lia.
  pose proof (Z.mod_pos_bound x 2); lia.
Qed.

End Bits.

(** ** [do_walk] *)

Module WalkPageTableFacts.
Import WalkPageTable WalkPageTableTraces.

Lemma truthy_land_1 (x : Z) : truthy (Z.land x 1) = (Z.land x 1 =? 1).
Proof.
  unfold truthy. destruct (land_1_cases x) as [H|H]; rewrite H; reflexivity.
Qed.

(** *** One iteration *)

Section Iteration.
Variable xp : monitor.
Variables (va level : Z) (name : string) (idx shift : Z).
Variable current_table : Z.


Lemma walk_level_unreadable (block_mask : option Z) :
  giant xp (current_table + idx * 8) = Unparsed ->
  walk_level xp va level (name, idx, shift, block_mask) current_table =
  ([Print (Step (level + 2) name);
    Print (TablePA current_table);
    Print (EntryPA current_table idx (current_table + idx * 8));
    MonitorXpGiant (current_table + idx * 8);
    Print (ReadError (current_table + idx * 8))],
   StepReturnUnreadable (current_table + idx * 8)).
Proof.
  intros H. unfold walk_level, read_phys_u64. rewrite H. reflexivity.
Qed.

Lemma walk_level_failed (block_mask : option Z) :
  giant xp (current_table + idx * 8) = Failed ->
  walk_level xp va level (name, idx, shift, block_mask) current_table =
  ([Print (Step (level + 2) name);
    Print (TablePA current_table);
    Print (EntryPA current_table idx (current_table + idx * 8));
    MonitorXpGiant (current_table + idx * 8)],
   StepMonitorError (current_table + idx * 8)).
Proof.
  intros H. unfold walk_level, read_phys_u64. rewrite H. reflexivity.
Qed.

Lemma walk_level_invalid (block_mask : option Z) (entry : Z) :
  giant xp (current_table + idx * 8) = Parsed entry ->
  Z.land entry 1 = 0 ->
  walk_level xp va level (name, idx, shift, block_mask) current_table =
  (fetched level name idx current_table entry ++ [Print Fault],
   StepReturnFault entry).
Proof.
  intros H Hv. unfold walk_level, read_phys_u64, fetched.
  rewrite H, Hv. reflexivity.
Qed.

Lemma walk_level_page (block_mask : option Z) (entry : Z) :
  giant xp (current_table + idx * 8) = Parsed entry ->
  Z.land entry 1 = 1 ->
  level = 3 ->
  walk_level xp va level (name, idx, shift, block_mask) current_table =
  (fetched level name idx current_table entry ++
   [Print Mapped;
    Print (PageMapping (Z.land (Z.shiftr entry 1) 1)
                       (Z.land entry 0x0000FFFFFFFFF000) (offset va)
                       (Z.lor (Z.land entry 0x0000FFFFFFFFF000)
                              (offset va)))]
   ++ print_permissions entry,
   StepBreak entry (Z.lor (Z.land entry 0x0000FFFFFFFFF000) (offset va))).
Proof.
  intros H Hv ->. unfold walk_level, read_phys_u64, fetched.
  rewrite H, Hv. reflexivity.
Qed.

Lemma walk_level_block (block_mask : option Z) (entry mask : Z) :
  giant xp (current_table + idx * 8) = Parsed entry ->
  Z.land entry 1 = 1 ->
  Z.land (Z.shiftr entry 1) 1 = 0 ->
  level <> 3 -> 0 < level ->
  block_mask = Some mask ->
  walk_level xp va level (name, idx, shift, block_mask) current_table =
  (fetched level name idx current_table entry ++
   [Print Mapped;
    Print (BlockMapping (block_size shift) (Z.land entry mask)
             (Z.lor (Z.land entry mask)
                    (Z.land va (Z.shiftl 1 shift - 1))))]
   ++ print_permissions entry,
   StepBreak entry (Z.lor (Z.land entry mask)
                          (Z.land va (Z.shiftl 1 shift - 1)))).
Proof.
  intros H Hv Ht H3 H0 Hm.
  unfold walk_level, read_phys_u64, fetched.
  rewrite H, Hv, Ht, Hm.
  apply Z.eqb_neq in H3. apply Z.ltb_lt in H0. rewrite H3, H0.
  reflexivity.
Qed.

(** A valid entry that is not a block at a level above 0 is followed:
    at level 0 whatever its bit 1. *)
Lemma walk_level_table (block_mask : option Z) (entry : Z) :
  giant xp (current_table + idx * 8) = Parsed entry ->
  Z.land entry 1 = 1 ->
  level <> 3 ->
  Z.land (Z.shiftr entry 1) 1 = 1 \/ level <= 0 ->
  walk_level xp va level (name, idx, shift, block_mask) current_table =
  (fetched level name idx current_table entry ++
   [Print Mapped; Print (TableNext (Z.land entry 0x0000FFFFFFFFF000))],
   StepNext entry (Z.land entry 0x0000FFFFFFFFF000)).
Proof.
  intros H Hv H3 Ht.
  unfold walk_level, read_phys_u64, fetched.
  rewrite H, Hv. apply Z.eqb_neq in H3. rewrite H3.
  replace (negb (truthy (Z.land (Z.shiftr entry 1) 1)) && (0 <? level))
    with false; [reflexivity|].
  destruct Ht as [Ht|Ht].
  - rewrite Ht. reflexivity.
  - apply Z.ltb_ge in Ht. rewrite Ht. now rewrite andb_false_r.
Qed.

Lemma walk_level_iteration (block_mask : option Z) :
  iteration xp va level name idx shift current_table block_mask
    (walk_level xp va level (name, idx, shift, block_mask)
                current_table).
Proof.
  destruct (giant xp (current_table + idx * 8)) as [entry| |] eqn:H.
  2:{ rewrite walk_level_unreadable by assumption.
      now apply it_unreadable. }
  2:{ rewrite walk_level_failed by assumption.
      now apply it_failed. }
  destruct (land_1_cases entry) as [Hv|Hv].
  { rewrite (walk_level_invalid _ entry) by assumption.
    now apply it_invalid. }
  destruct (Z.eq_dec level 3) as [H3|H3].
  { rewrite (walk_level_page _ entry) by assumption.
    now apply it_page. }
  destruct (land_1_cases (Z.shiftr entry 1)) as [Ht|Ht].
  - destruct (Z.lt_ge_cases 0 level) as [H0|H0].
    + pose proof (it_block xp va level name idx shift current_table
                           block_mask entry H Hv Ht H3 H0) as Hit.
      destruct block_mask as [mask|].
      * rewrite (walk_level_block _ entry mask); auto.
      * unfold walk_level, read_phys_u64.
        rewrite H, Hv, Ht.
        apply Z.eqb_neq in H3. apply Z.ltb_lt in H0. rewrite H3, H0.
        unfold fetched in Hit. rewrite Hv in Hit. exact Hit.
    + rewrite (walk_level_table _ entry) by auto. apply it_table; auto.
  - rewrite (walk_level_table _ entry) by auto. apply it_table; auto.
Qed.

End Iteration.

(** *** The loop *)

Lemma descending_table_segment level name idx tbl entry :
  Z.land entry 1 = 1 ->
  forallb descending
    (fetched level name idx tbl entry ++
     [Print Mapped; Print (TableNext (Z.land entry 0x0000FFFFFFFFF000))])
  = true.
Proof. intros Hv. cbn. rewrite Hv. reflexivity. Qed.

Section Loop.
Variable xp : monitor.
Variable va : Z.

(** The loop stops in the iteration of some row [k]; the iterations
    before it all followed a table. *)
Lemma walk_levels_stops rows : forall level current_table tr ex,
  walk_levels xp va level rows current_table = (tr, ex) ->
  (ex = ExitExhausted /\ forallb descending tr = true) \/
  exists k name idx shift block_mask tbl pre seg s,
    nth_error rows k = Some (name, idx, shift, block_mask) /\
    walk_level xp va (level + Z.of_nat k)
               (name, idx, shift, block_mask) tbl = (seg, s) /\
    exit_of (level + Z.of_nat k) s = Some ex /\
    tr = pre ++ seg /\
    forallb descending pre = true.
Proof.
  induction rows as [|row rows IH]; intros level tbl tr ex H.
  - injection H as <- <-. left. split; reflexivity.
  - cbn [walk_levels] in H.
    destruct row as [[[name idx] shift] bm].
    destruct (walk_level xp va level (name, idx, shift, bm) tbl)
      as [seg s] eqn:E.
    assert (Hstop : forall ex0, exit_of level s = Some ex0 ->
               (seg, ex0) = (tr, ex) ->
               exists k name' idx' shift' block_mask tbl pre seg s,
                 nth_error ((name, idx, shift, bm) :: rows) k
                   = Some (name', idx', shift', block_mask) /\
                 walk_level xp va (level + Z.of_nat k)
                   (name', idx', shift', block_mask) tbl = (seg, s) /\
                 exit_of (level + Z.of_nat k) s = Some ex /\
                 tr = pre ++ seg /\
                 forallb descending pre = true).
    { intros ex0 Hex Heq. injection Heq as <- <-.
      exists 0%nat, name, idx, shift, bm, tbl, [], seg, s.
      cbn [nth_error Z.of_nat app forallb]. rewrite Z.add_0_r.
      repeat split; assumption. }
    destruct s as [entry_pa|entry|entry final_pa|entry next| |entry_pa];
      try (right; eapply Hstop; [reflexivity|exact H]).
    destruct (walk_levels xp va (level + 1) rows next)
      as [tr' ex'] eqn:E'.
    injection H as <- <-.
    pose proof (walk_level_iteration xp va level name idx shift tbl bm)
      as Hit.
    rewrite E in Hit.
    assert (Hseg : forallb descending seg = true).
    { inversion Hit; subst.
      - destruct bm; discriminate.
      - apply descending_table_segment; assumption. }
    destruct (IH _ _ _ _ E') as [[-> Hq]|
      (k & name' & idx' & shift' & bm' & tbl' & pre & seg' & s' &
       Hnth & Hw & Hex & -> & Hpre)].
    + left. split; [reflexivity|].
      rewrite forallb_app, Hseg, Hq. reflexivity.
    + right.
      exists (S k), name', idx', shift', bm', tbl', (seg ++ pre), seg', s'.
      replace (level + Z.of_nat (S k)) with (level + 1 + Z.of_nat k)
        by lia.
      cbn [nth_error]. repeat split; try assumption.
      * now rewrite app_assoc.
      * rewrite forallb_app, Hseg, Hpre. reflexivity.
Qed.

(** Each iteration reads one entry: a walk reads at most one entry per
    row. *)
Lemma walk_levels_reads rows : forall level current_table,
  (List.length (filter is_read
                  (fst (walk_levels xp va level rows current_table)))
   <= List.length rows)%nat.
Proof.
  induction rows as [|row rows IH]; intros level tbl.
  - cbn. lia.
  - cbn [walk_levels].
    destruct row as [[[name idx] shift] bm].
    assert (Hone : (List.length (filter is_read
                      (fst (walk_level xp va level
                              (name, idx, shift, bm) tbl))) <= 1)%nat).
    { destruct (walk_level_iteration xp va level name idx shift tbl bm);
        try (cbn; lia).
      destruct bm; cbn; lia. }
    destruct (walk_level xp va level (name, idx, shift, bm) tbl)
      as [seg s] eqn:E.
    cbn [fst] in Hone.
    destruct s; cbn [fst List.length]; try lia.
    specialize (IH (level + 1) next_table).
    destruct (walk_levels xp va (level + 1) rows next_table)
      as [tr' ex'].
    cbn [fst] in *. rewrite filter_app, length_app. lia.
Qed.

End Loop.

(** *** Root choice and masks *)

Lemma land_shiftr_1 (x n : Z) :
  0 <= n -> Z.land (Z.shiftr x n) 1 = Z.b2z (Z.testbit x n).
Proof.
  intros Hn.
  change (Z.land (Z.shiftr x n) 1) with (Z.land (Z.shiftr x n) (Z.ones 1)).
  rewrite Z.land_ones, Z.pow_1_r, Z.shiftr_div_pow2 by lia.
  symmetry. apply Z.testbit_spec'. assumption.
Qed.

Lemma is_kernel_bit55 (va : Z) : truthy (is_kernel va) = Z.testbit va 55.
Proof.
  unfold is_kernel. rewrite land_shiftr_1 by lia.
  destruct (Z.testbit va 55); reflexivity.
Qed.

Lemma table_pa_bits (ttbr n : Z) :
  Z.testbit (table_pa ttbr) n =
  Z.testbit ttbr n && ((12 <=? n) && (n <? 48)).
Proof.
  unfold table_pa.
  change 0x0000FFFFFFFFF000 with (Z.shiftl (Z.ones (48 - 12)) 12).
  apply testbit_mask. lia.
Qed.

(** [read_reg] forces the register unsigned first; the mask makes that
    invisible. *)
Lemma table_pa_unsigned_bits (ttbr n : Z) :
  Z.testbit (table_pa (Z.land ttbr 0xFFFFFFFFFFFFFFFF)) n =
  Z.testbit ttbr n && ((12 <=? n) && (n <? 48)).
Proof.
  rewrite table_pa_bits.
  change 0xFFFFFFFFFFFFFFFF with (Z.ones 64).
  rewrite Z.land_spec, testbit_ones by lia.
  destruct (Z.testbit ttbr n), (Z.leb_spec 12 n), (Z.ltb_spec n 48),
    (Z.leb_spec 0 n), (Z.ltb_spec n 64); try reflexivity; lia.
Qed.

Lemma levelMask_1 : levelMask 1 = 0x0000FFFFC0000000.
Proof. reflexivity. Qed.

Lemma levelMask_2 : levelMask 2 = 0x0000FFFFFFE00000.
Proof. reflexivity. Qed.

(** The bits of a block translation: below the block shift those of the
    virtual address, from the shift up to bit 47 those of the
    descriptor, nothing above. *)
Lemma block_address_bits (entry va sh n : Z) :
  0 <= sh <= 48 -> 0 <= n ->
  Z.testbit (Z.lor (Z.land entry (Z.shiftl (Z.ones (48 - sh)) sh))
                   (Z.land va (Z.shiftl 1 sh - 1))) n
  = if n <? sh then Z.testbit va n else Z.testbit entry n && (n <? 48).
Proof.
  intros Hsh Hn.
  change (Z.shiftl 1 sh - 1) with (Z.ones sh).
  rewrite Z.lor_spec, testbit_mask, Z.land_spec, testbit_ones by lia.
  destruct (Z.ltb_spec n sh), (Z.leb_spec sh n), (Z.leb_spec 0 n),
    (Z.ltb_spec n 48); try lia; cbn [andb orb];
    rewrite ?andb_true_r, ?andb_false_r, ?orb_false_r; reflexivity.
Qed.

Section Root.
Variable regs : regfile.

Lemma choose_ttbr_kernel (va : Z) :
  Z.testbit va 55 = true ->
  choose_ttbr regs va =
  match regs "TTBR1_EL1" with
  | Some val =>
      ([ParseAndEval "TTBR1_EL1";
        Print (UsingTTBR1 (Z.land val 0xFFFFFFFFFFFFFFFF))],
       Some (Z.land val 0xFFFFFFFFFFFFFFFF))
  | None => ([ParseAndEval "TTBR1_EL1"], None)
  end.
Proof.
  intros H. unfold choose_ttbr, read_reg.
  rewrite is_kernel_bit55, H.
  destruct (regs "TTBR1_EL1"); reflexivity.
Qed.

Lemma choose_ttbr_user (va : Z) :
  Z.testbit va 55 = false ->
  choose_ttbr regs va =
  match regs "TTBR0_EL1" with
  | Some val =>
      ([ParseAndEval "TTBR0_EL1";
        Print (UsingTTBR0 (Z.land val 0xFFFFFFFFFFFFFFFF))],
       Some (Z.land val 0xFFFFFFFFFFFFFFFF))
  | None => ([ParseAndEval "TTBR0_EL1"], None)
  end.
Proof.
  intros H. unfold choose_ttbr, read_reg.
  rewrite is_kernel_bit55, H.
  destruct (regs "TTBR0_EL1"); reflexivity.
Qed.

End Root.

(** *** Single iterations, read backwards *)

Lemma walk_level_break_inv xp va level name idx shift bm tbl seg e fpa :
  walk_level xp va level (name, idx, shift, bm) tbl = (seg, StepBreak e fpa) ->
  giant xp (tbl + idx * 8) = Parsed e /\ Z.land e 1 = 1 /\
  ((level = 3 /\ fpa = Z.lor (Z.land e 0x0000FFFFFFFFF000) (offset va)) \/
   (level <> 3 /\ 0 < level /\ Z.land (Z.shiftr e 1) 1 = 0 /\
    exists m, bm = Some m /\
      fpa = Z.lor (Z.land e m) (Z.land va (Z.shiftl 1 shift - 1)) /\
      seg = fetched level name idx tbl e ++
            [Print Mapped;
             Print (BlockMapping (block_size shift) (Z.land e m) fpa)]
            ++ print_permissions e)).
Proof.
  intros H.
  pose proof (walk_level_iteration xp va level name idx shift tbl bm) as Hit.
  rewrite H in Hit. inversion Hit; subst.
  - split; [assumption|]. split; [assumption|]. left. split; reflexivity.
  - destruct bm as [m|]; [|discriminate].
    match goal with
    | Heq : (_, StepBreak _ _) = (_, StepBreak _ _) |- _ =>
        injection Heq as <- <- <-
    end.
    split; [assumption|]. split; [assumption|]. right.
    repeat split; try assumption.
    exists m. repeat split.
Qed.

Lemma walk_level_shows_invalid xp va level name idx shift bm tbl seg s e :
  walk_level xp va level (name, idx, shift, bm) tbl = (seg, s) ->
  In (Print (RawEntry e)) seg -> Z.land e 1 = 0 ->
  giant xp (tbl + idx * 8) = Parsed e /\
  s = StepReturnFault e /\
  seg = fetched level name idx tbl e ++ [Print Fault].
Proof.
  intros H Hin Hv.
  pose proof (walk_level_iteration xp va level name idx shift tbl bm) as Hit.
  rewrite H in Hit.
  assert (Hraw : forall entry tail,
            In (Print (RawEntry e))
               (fetched level name idx tbl entry ++ tail) ->
            (forall x, In x tail -> x <> Print (RawEntry e)) ->
            entry = e).
  { intros entry tail Hi Ht. apply in_app_or in Hi.
    destruct Hi as [Hi|Hi].
    - cbn in Hi.
      repeat (destruct Hi as [Hi|Hi]; [try discriminate|]);
        try contradiction.
      now injection Hi.
    - exfalso. exact (Ht _ Hi eq_refl). }
  assert (Hno : forall tail : list event,
            forallb (fun x => match x with
                              | Print (RawEntry _) => false
                              | _ => true
                              end) tail = true ->
            forall x, In x tail -> x <> Print (RawEntry e)).
  { intros tail Hall x Hx ->.
    rewrite forallb_forall in Hall. specialize (Hall _ Hx). discriminate. }
  inversion Hit; subst.
  - cbn in Hin.
    repeat (destruct Hin as [Hin|Hin]; [discriminate|]). contradiction.
  - assert (entry = e) by (eapply Hraw; [exact Hin|apply Hno; reflexivity]).
    subst entry. repeat split; assumption.
  - assert (entry = e) by (eapply Hraw; [exact Hin|apply Hno; reflexivity]).
    subst entry. lia.
  - destruct bm as [m|];
      match goal with
      | Heq : (_, _) = (_, _) |- _ => injection Heq as <- <-
      end;
      assert (entry = e)
        by (eapply Hraw; [exact Hin|apply Hno; reflexivity]);
      subst entry; lia.
  - assert (entry = e) by (eapply Hraw; [exact Hin|apply Hno; reflexivity]).
    subst entry. lia.
  - cbn in Hin.
    repeat (destruct Hin as [Hin|Hin]; [discriminate|]). contradiction.
Qed.

(** *** The whole walk *)

Section Walk.
Variable regs : regfile.
Variable xp : monitor.
Variable va : Z.

(** The result block: the verification read is the last thing done when
    it raises, and is followed by the footer when it does not. *)
Lemma report_found final_pa :
  report xp va (Some final_pa) =
  ([Print (Result va (l0_idx va) (l1_idx va) (l2_idx va) (l3_idx va)
                  (offset va) final_pa);
    Print (Verification final_pa);
    MonitorXpWord final_pa (word xp final_pa)]
   ++ match word xp final_pa with
      | Some _ => [Print Footer]
      | None => []
      end,
   match word xp final_pa with
   | Some _ => Returned
   | None => Raised
   end).
Proof. unfold report. destruct (word xp final_pa); reflexivity. Qed.

Lemma do_walk_readable sel ttbr :
  choose_ttbr regs va = (sel, Some ttbr) ->
  do_walk regs xp va =
  match walk_levels xp va 0 (levels va) (table_pa ttbr) with
  | (tr, ExitBreak _ _ final_pa) =>
      (prelude va sel ttbr ++ tr ++ fst (report xp va (Some final_pa)),
       snd (report xp va (Some final_pa)))
  | (tr, ExitExhausted) =>
      (prelude va sel ttbr ++ tr ++ [Print Footer], Returned)
  | (tr, ExitRaise) | (tr, ExitMonitorError _ _) =>
      (prelude va sel ttbr ++ tr, Raised)
  | (tr, _) => (prelude va sel ttbr ++ tr, Returned)
  end.
Proof.
  intros H. unfold do_walk. rewrite H.
  destruct (walk_levels xp va 0 (levels va) (table_pa ttbr))
    as [tr [l pa|l e|l e final_pa| | |l pa]];
    try reflexivity.
  destruct (report xp va (Some final_pa)); reflexivity.
Qed.

Lemma choose_ttbr_descending sel r :
  choose_ttbr regs va = (sel, r) -> forallb descending sel = true.
Proof.
  unfold choose_ttbr, read_reg.
  destruct (truthy (is_kernel va));
    [destruct (regs "TTBR1_EL1")|destruct (regs "TTBR0_EL1")];
    intros H; injection H as <- <-; reflexivity.
Qed.

Lemma prelude_descending sel ttbr :
  choose_ttbr regs va = (sel, Some ttbr) ->
  forallb descending (prelude va sel ttbr) = true.
Proof.
  intros H. unfold prelude. cbn [forallb descending reports_final_pa negb].
  rewrite forallb_app, (choose_ttbr_descending _ _ H). reflexivity.
Qed.

(** A break at level 1 or 2 is a block: the address is the descriptor
    under the level's mask, completed by the low bits of [va]. *)
Lemma walk_block_address current_table tr level entry final_pa :
  walk_levels xp va 0 (levels va) current_table
    = (tr, ExitBreak level entry final_pa) ->
  level = 1 \/ level = 2 ->
  Z.land entry 1 = 1 /\ Z.land (Z.shiftr entry 1) 1 = 0 /\
  final_pa = Z.lor (Z.land entry (levelMask level))
                   (Z.land va (Z.shiftl 1 (levelShift level) - 1)) /\
  exists pre name idx tbl,
    tr = pre ++ fetched level name idx tbl entry ++
         [Print Mapped;
          Print (BlockMapping (block_size (levelShift level))
                              (Z.land entry (levelMask level)) final_pa)]
         ++ print_permissions entry.
Proof.
  intros H Hl.
  destruct (walk_levels_stops _ _ _ _ _ _ _ H) as [[Hex _]|
    (k & name & idx & shift & bm & tbl & pre & seg & s &
     Hnth & Hw & Hex & -> & Hpre)]; [discriminate|].
  destruct s; try discriminate. injection Hex as <- <- <-.
  apply walk_level_break_inv in Hw.
  destruct Hw as (_ & Hv & [[H3 _]|(_ & _ & Ht & m & Hm & Hf & Hseg)]);
    [lia|].
  assert (Hk : k = 1%nat \/ k = 2%nat) by lia.
  destruct Hk as [-> | ->]; cbn in Hnth; injection Hnth as ? ? ? ?;
    subst; injection Hm as ?; subst;
    (split; [exact Hv|]); (split; [exact Ht|]);
    (split; [reflexivity|]); eexists pre, _, _, tbl; reflexivity.
Qed.

(** An entry shown with its valid bit clear is the end of the walk. *)
Lemma walk_invalid_stops current_table tr ex e :
  walk_levels xp va 0 (levels va) current_table = (tr, ex) ->
  In (Print (RawEntry e)) tr -> Z.land e 1 = 0 ->
  exists (k : nat) name idx shift bm tbl pre,
    nth_error (levels va) k = Some (name, idx, shift, bm) /\
    giant xp (tbl + idx * 8) = Parsed e /\
    ex = ExitFault (Z.of_nat k) e /\
    tr = pre ++ fetched (Z.of_nat k) name idx tbl e ++ [Print Fault] /\
    forallb descending pre = true.
Proof.
  intros H Hin Hv.
  assert (Hnot : forall l : list event,
            forallb descending l = true -> ~ In (Print (RawEntry e)) l).
  { intros l Hall Hi. rewrite forallb_forall in Hall.
    specialize (Hall _ Hi). cbn in Hall. rewrite Hv in Hall.
    discriminate. }
  destruct (walk_levels_stops _ _ _ _ _ _ _ H) as [[_ Hall]|
    (k & name & idx & shift & bm & tbl & pre & seg & s &
     Hnth & Hw & Hex & -> & Hpre)].
  { exfalso. exact (Hnot _ Hall Hin). }
  apply in_app_or in Hin. destruct Hin as [Hin|Hin].
  { exfalso. exact (Hnot _ Hpre Hin). }
  destruct (walk_level_shows_invalid _ _ _ _ _ _ _ _ _ _ _ Hw Hin Hv)
    as (Hxp & -> & ->).
  cbn in Hex. injection Hex as <-.
  exists k, name, idx, shift, bm, tbl, pre.
  rewrite Z.add_0_l. repeat split; assumption.
Qed.

(** At level 0 a valid entry is followed whatever its bit 1: the
    iterations from level 1 on run on the table it names. *)
Lemma walk_levels_follow level row rows current_table seg entry next :
  walk_level xp va level row current_table = (seg, StepNext entry next) ->
  walk_levels xp va level (row :: rows) current_table =
  (let '(tr, ex) := walk_levels xp va (level + 1) rows next in
   (seg ++ tr, ex)).
Proof. intros H. cbn [walk_levels]. rewrite H. reflexivity. Qed.

Lemma walk_level0_follows current_table entry :
  giant xp (current_table + l0_idx va * 8) = Parsed entry ->
  Z.land entry 1 = 1 ->
  walk_levels xp va 0 (levels va) current_table =
  (let '(tr, ex) := walk_levels xp va 1 (tl (levels va))
                                (Z.land entry 0x0000FFFFFFFFF000) in
   ((fetched 0 "L0 (PGD)" (l0_idx va) current_table entry ++
     [Print Mapped; Print (TableNext (Z.land entry 0x0000FFFFFFFFF000))])
    ++ tr, ex)).
Proof.
  intros H Hv.
  apply (walk_levels_follow 0 ("L0 (PGD)", l0_idx va, 39, None)
           (tl (levels va)) current_table _ entry).
  apply walk_level_table; auto; lia.
Qed.

(** The first thing an iteration does is to read the entry of its index
    in the current table. *)
Lemma walk_levels_first_read level name idx shift bm rows current_table :
  exists rest,
    fst (walk_levels xp va level ((name, idx, shift, bm) :: rows)
                     current_table)
    = [Print (Step (level + 2) name);
       Print (TablePA current_table);
       Print (EntryPA current_table idx (current_table + idx * 8));
       MonitorXpGiant (current_table + idx * 8)] ++ rest.
Proof.
  cbn [walk_levels].
  destruct (walk_level_iteration xp va level name idx shift current_table bm)
    as [Hm|entry Hm Hv|entry Hm Hv H3|entry Hm Hv Ht H3 H0
        |entry Hm Hv H3 Ht|Hm].
  - eexists. reflexivity.
  - eexists. reflexivity.
  - eexists. reflexivity.
  - destruct bm; eexists; reflexivity.
  - destruct (walk_levels xp va (level + 1) rows
                          (Z.land entry 0x0000FFFFFFFFF000)) as [tr ex].
    eexists. reflexivity.
  - exists []. reflexivity.
Qed.

Lemma choose_ttbr_no_read sel r :
  choose_ttbr regs va = (sel, r) -> filter is_read sel = [].
Proof.
  unfold choose_ttbr, read_reg.
  destruct (truthy (is_kernel va));
    [destruct (regs "TTBR1_EL1")|destruct (regs "TTBR0_EL1")];
    intros H; injection H as <- <-; reflexivity.
Qed.

(** The first entry [do_walk] reads is entry [l0_idx va] of the table at
    [table_pa ttbr], which it has printed as the page table base. *)
Lemma do_walk_first_read sel ttbr :
  choose_ttbr regs va = (sel, Some ttbr) ->
  (exists rest,
     filter is_read (fst (do_walk regs xp va))
     = MonitorXpGiant (table_pa ttbr + l0_idx va * 8) :: rest) /\
  In (Print (PageTableBase (table_pa ttbr))) (fst (do_walk regs xp va)).
Proof.
  intros Hc.
  assert (Hpre : exists tail,
            fst (do_walk regs xp va)
            = prelude va sel ttbr ++
              fst (walk_levels xp va 0 (levels va) (table_pa ttbr)) ++ tail).
  { rewrite (do_walk_readable _ _ Hc).
    destruct (walk_levels xp va 0 (levels va) (table_pa ttbr)) as [tr []];
      cbn [fst]; eexists; try reflexivity;
      rewrite app_nil_r; reflexivity. }
  destruct Hpre as [tail Hpre]. rewrite Hpre.
  destruct (walk_levels_first_read 0 "L0 (PGD)" (l0_idx va) 39 None
              (tl (levels va)) (table_pa ttbr)) as [rest Hrest].
  change (("L0 (PGD)", l0_idx va, 39, None) :: tl (levels va))
    with (levels va) in Hrest.
  rewrite Hrest. split.
  - unfold prelude. cbn [filter is_read app].
    rewrite !filter_app, (choose_ttbr_no_read _ _ Hc).
    cbn [filter is_read app]. eexists. reflexivity.
  - unfold prelude. right. apply in_or_app. left.
    apply in_or_app. right. left. reflexivity.
Qed.

Lemma do_walk_reads :
  (List.length (filter is_read (fst (do_walk regs xp va))) <= 4)%nat.
Proof.
  unfold do_walk.
  destruct (choose_ttbr regs va) as [sel r] eqn:Hc.
  assert (Hsel : filter is_read sel = []).
  { revert Hc. unfold choose_ttbr, read_reg.
    destruct (truthy (is_kernel va));
      [destruct (regs "TTBR1_EL1")|destruct (regs "TTBR0_EL1")];
      intros Hc; injection Hc as <- <-; reflexivity. }
  destruct r as [ttbr|].
  2:{ simpl. rewrite Hsel. simpl. lia. }
  pose proof (walk_levels_reads xp va (levels va) 0 (table_pa ttbr))
    as Hr.
  destruct (walk_levels xp va 0 (levels va) (table_pa ttbr))
    as [tr ex].
  cbn [fst List.length levels] in Hr.
  unfold report.
  destruct ex; try destruct (word xp final_pa); simpl;
    rewrite ?filter_app, ?length_app, Hsel; simpl; lia.
Qed.

(** An entry shown by [do_walk] with its valid bit clear: the loop was
    left by [return] in that iteration, the fault line is the last thing
    printed, and nothing before it reports an address. *)
Lemma do_walk_invalid tr out e :
  do_walk regs xp va = (tr, out) ->
  In (Print (RawEntry e)) tr -> Z.land e 1 = 0 ->
  out = Returned /\
  exists (k : nat) name idx shift bm tbl pre,
    nth_error (levels va) k = Some (name, idx, shift, bm) /\
    giant xp (tbl + idx * 8) = Parsed e /\
    loop_exit_of regs xp va = Some (ExitFault (Z.of_nat k) e) /\
    tr = pre ++ fetched (Z.of_nat k) name idx tbl e ++ [Print Fault] /\
    forallb descending pre = true.
Proof.
  intros Hd Hin Hv.
  assert (Hnot : forall l : list event,
            forallb descending l = true -> ~ In (Print (RawEntry e)) l).
  { intros l Hall Hi. rewrite forallb_forall in Hall.
    specialize (Hall _ Hi). cbn in Hall. rewrite Hv in Hall.
    discriminate. }
  destruct (choose_ttbr regs va) as [sel [ttbr|]] eqn:Hc.
  2:{ exfalso. unfold do_walk in Hd. rewrite Hc in Hd.
      injection Hd as <- <-.
      apply (Hnot (Print (Banner va) :: sel)); [|exact Hin].
      cbn [forallb descending reports_final_pa negb andb].
      exact (choose_ttbr_descending _ _ Hc). }
  pose proof (prelude_descending _ _ Hc) as Hpre.
  rewrite (do_walk_readable _ _ Hc) in Hd.
  destruct (walk_levels xp va 0 (levels va) (table_pa ttbr))
    as [trl ex] eqn:Hw.
  assert (Hex : loop_exit_of regs xp va = Some ex).
  { unfold loop_exit_of. rewrite Hc. cbn [snd]. rewrite Hw. reflexivity. }
  assert (Hsplit : exists tail,
            tr = prelude va sel ttbr ++ trl ++ tail /\
            ~ In (Print (RawEntry e)) tail).
  { destruct ex as [l p|l e0|l e0 f| | |l p];
      apply (f_equal fst) in Hd; cbn [fst] in Hd; subst tr.
    - exists []. rewrite app_nil_r. split; [reflexivity|intros []].
    - exists []. rewrite app_nil_r. split; [reflexivity|intros []].
    - exists (fst (report xp va (Some f))). split; [reflexivity|].
      unfold report. destruct (word xp f); cbn [fst app In];
        intros H; repeat (destruct H as [H|H]; [discriminate|]);
        contradiction.
    - exists [Print Footer]. split; [reflexivity|].
      cbn [In]. intros [H|[]]; discriminate.
    - exists []. rewrite app_nil_r. split; [reflexivity|intros []].
    - exists []. rewrite app_nil_r. split; [reflexivity|intros []]. }
  destruct Hsplit as (tail & Htr & Htail).
  assert (Hinl : In (Print (RawEntry e)) trl).
  { rewrite Htr in Hin. apply in_app_or in Hin.
    destruct Hin as [Hin|Hin]; [exfalso; exact (Hnot _ Hpre Hin)|].
    apply in_app_or in Hin.
    destruct Hin as [Hin|Hin]; [exact Hin|contradiction]. }
  destruct (walk_invalid_stops _ _ _ _ Hw Hinl Hv)
    as (k & name & idx & shift & bm & tbl & pre & Hnth & Hx & Eex & Etrl
        & Hp).
  subst ex. cbv iota in Hd.
  pose proof (f_equal fst Hd) as Hd1. pose proof (f_equal snd Hd) as Hd2.
  cbn [fst snd] in Hd1, Hd2.
  split; [symmetry; exact Hd2|].
  exists k, name, idx, shift, bm, tbl, (prelude va sel ttbr ++ pre).
  split; [exact Hnth|]. split; [exact Hx|]. split; [exact Hex|].
  split.
  - rewrite <- Hd1, Etrl. apply app_assoc.
  - rewrite forallb_app, Hpre, Hp. reflexivity.
Qed.

End Walk.

(** C2: the decomposition of lines 81-85.  Each index is a number of
    9 bits, below 512, made of the bits of the address from bit 39, 30,
    21 and 12 on; the offset is a number of 12 bits, below 4096, made of
    bits 0 to 11.  Together they rebuild the low 48 bits of the address:
    [(idx0<<39) | (idx1<<30) | (idx2<<21) | (idx3<<12) | offset] is
    [va & 0xFFFFFFFFFFFF], the fields do not overlap, so the sum of the
    shifted fields is the same number, and two addresses with the same
    five fields have the same low 48 bits.  The decomposition is made of
    total functions, so there is no failing case; all of it holds for
    every integer, in particular for every 64-bit address. *)
Theorem decompose_reconstructs_low48 (va : Z) :
  (0 <= l0_idx va < 512 /\ 0 <= l1_idx va < 512 /\
   0 <= l2_idx va < 512 /\ 0 <= l3_idx va < 512 /\
   0 <= offset va < 4096) /\
  (forall n, 0 <= n ->
     Z.testbit (l0_idx va) n = Z.testbit va (n + 39) && (n <? 9) /\
     Z.testbit (l1_idx va) n = Z.testbit va (n + 30) && (n <? 9) /\
     Z.testbit (l2_idx va) n = Z.testbit va (n + 21) && (n <? 9) /\
     Z.testbit (l3_idx va) n = Z.testbit va (n + 12) && (n <? 9) /\
     Z.testbit (offset va) n = Z.testbit va n && (n <? 12)) /\
  Z.lor (Z.lor (Z.lor (Z.lor (Z.shiftl (l0_idx va) 39)
                             (Z.shiftl (l1_idx va) 30))
                      (Z.shiftl (l2_idx va) 21))
               (Z.shiftl (l3_idx va) 12))
        (offset va)
  = Z.land va 0xFFFFFFFFFFFF /\
  l0_idx va * 2 ^ 39 + l1_idx va * 2 ^ 30 + l2_idx va * 2 ^ 21
  + l3_idx va * 2 ^ 12 + offset va
  = va mod 2 ^ 48 /\
  (forall va',
     l0_idx va' = l0_idx va -> l1_idx va' = l1_idx va ->
     l2_idx va' = l2_idx va -> l3_idx va' = l3_idx va ->
     offset va' = offset va ->
     Z.land va' 0xFFFFFFFFFFFF = Z.land va 0xFFFFFFFFFFFF).
Proof.
  assert (Hor : forall v,
            Z.lor (Z.lor (Z.lor (Z.lor (Z.shiftl (l0_idx v) 39)
                                       (Z.shiftl (l1_idx v) 30))
                                (Z.shiftl (l2_idx v) 21))
                         (Z.shiftl (l3_idx v) 12))
                  (offset v)
            = Z.land v 0xFFFFFFFFFFFF).
  { intros v. unfold l0_idx, l1_idx, l2_idx, l3_idx, offset.
    change 0x1FF with (Z.ones 9).
    change 0xFFF with (Z.ones 12).
    change 0xFFFFFFFFFFFF with (Z.ones 48).
    apply Z.bits_inj'; intros n Hn.
    rewrite !Z.lor_spec, !Z.land_spec, !testbit_ones by lia.
    rewrite !Z.shiftl_spec by lia.
    destruct (Z.ltb_spec n 12); [|destruct (Z.ltb_spec n 21);
      [|destruct (Z.ltb_spec n 30); [|destruct (Z.ltb_spec n 39);
      [|destruct (Z.ltb_spec n 48)]]]];
    repeat match goal with
    | |- context [Z.testbit _ (n - ?k)] =>
        first [ rewrite (Z.testbit_neg_r _ (n - k)) by lia
              | rewrite (testbit_field v k 9 (n - k)) by lia;
                replace (n - k + k) with n by lia ]
    end;
    repeat match goal with
    | |- context [?a <? ?b] => destruct (Z.ltb_spec a b); try lia
    | |- context [?a <=? ?b] => destruct (Z.leb_spec a b); try lia
    end;
    cbn [andb orb]; rewrite ?andb_true_r, ?andb_false_r, ?orb_false_r;
    reflexivity. }
  assert (Hdiv : l0_idx va = (va / 2 ^ 39) mod 2 ^ 9 /\
                 l1_idx va = (va / 2 ^ 30) mod 2 ^ 9 /\
                 l2_idx va = (va / 2 ^ 21) mod 2 ^ 9 /\
                 l3_idx va = (va / 2 ^ 12) mod 2 ^ 9 /\
                 offset va = va mod 2 ^ 12).
  { unfold l0_idx, l1_idx, l2_idx, l3_idx, offset.
    change 0x1FF with (Z.ones 9). change 0xFFF with (Z.ones 12).
    rewrite !Z.land_ones, !Z.shiftr_div_pow2 by lia.
    repeat split; reflexivity. }
  destruct Hdiv as (H0 & H1 & H2 & H3 & Ho).
  split; [|split; [|split; [exact (Hor va)|split]]].
  - rewrite H0, H1, H2, H3, Ho.
    change (2 ^ 9) with 512. change (2 ^ 12) with 4096.
    repeat split; try (apply Z.mod_pos_bound; lia).
  - intros n Hn.
    unfold l0_idx, l1_idx, l2_idx, l3_idx, offset.
    change 0x1FF with (Z.ones 9). change 0xFFF with (Z.ones 12).
    rewrite !testbit_field by lia.
    rewrite Z.land_spec, testbit_ones by lia.
    destruct (Z.leb_spec 0 n); [|lia].
    repeat split; reflexivity.
  - rewrite H0, H1, H2, H3, Ho.
    change (2 ^ 9) with 512. change (2 ^ 12) with 4096.
    change (2 ^ 21) with 2097152. change (2 ^ 30) with 1073741824.
    change (2 ^ 39) with 549755813888.
    change (2 ^ 48) with 281474976710656.
    Z.div_mod_to_equations. lia.
  - intros va' E0 E1 E2 E3 Eo.
    rewrite <- (Hor va), <- (Hor va'), E0, E1, E2, E3, Eo. reflexivity.
Qed.

(** The address [0xFFFF000123456789]: indices 0, 4, 0x11A and 0x56,
    offset 0x789; the upper 16 bits are in none of them. *)
Lemma decompose_reconstructs_low48_witness :
  (l0_idx 0xFFFF000123456789, l1_idx 0xFFFF000123456789,
   l2_idx 0xFFFF000123456789, l3_idx 0xFFFF000123456789,
   offset 0xFFFF000123456789) = (0, 4, 0x11A, 0x56, 0x789) /\
  Z.land 0x123456789 0xFFFFFFFFFFFF = Z.land 0xFFFF000123456789 0xFFFFFFFFFFFF.
Proof.
  split; [reflexivity|].
  exact (proj2 (proj2 (proj2 (proj2
           (decompose_reconstructs_low48 0xFFFF000123456789))))
           0x123456789 eq_refl eq_refl eq_refl eq_refl eq_refl).
Defined.

End WalkPageTableFacts.

(** ** [walk_table] *)

Module Arm64PageTableWalkFacts.
Import Arm64PageTableWalk Arm64PageTableWalkTraces.

Lemma length_range512 : List.length range512 = 512%nat.
Proof. reflexivity. Qed.

Lemma in_range512 (i : Z) : In i range512 <-> 0 <= i < 512.
Proof.
  unfold range512. rewrite in_map_iff. split.
  - intros (k & <- & Hk). apply in_seq in Hk. lia.
  - intros Hi. exists (Z.to_nat i). split; [lia|]. apply in_seq. lia.
Qed.

Lemma count_in_seq (idx : Z) (n : nat) : forall a : nat,
  List.length (filter (fun i => i =? idx) (List.map Z.of_nat (seq a n)))
  = if (Z.of_nat a <=? idx) && (idx <? Z.of_nat (a + n))
    then 1%nat else 0%nat.
Proof.
  induction n as [|n IH]; intros a.
  - cbn [seq List.map filter List.length]. rewrite Nat.add_0_r.
    destruct (Z.leb_spec (Z.of_nat a) idx), (Z.ltb_spec idx (Z.of_nat a));
      try reflexivity; lia.
  - cbn [seq List.map filter]. rewrite <- Nat.add_succ_comm.
    destruct (Z.eqb_spec (Z.of_nat a) idx) as [He|He];
      cbn [List.length]; rewrite IH;
      destruct (Z.leb_spec (Z.of_nat (S a)) idx),
               (Z.leb_spec (Z.of_nat a) idx),
               (Z.ltb_spec idx (Z.of_nat (S a + n)));
      cbn [andb]; try reflexivity; lia.
Qed.

Lemma count_in_range512 (idx : Z) :
  0 <= idx < 512 ->
  List.length (filter (fun i => i =? idx) range512) = 1%nat.
Proof.
  intros Hi. unfold range512. rewrite count_in_seq.
  destruct (Z.leb_spec (Z.of_nat 0) idx),
           (Z.ltb_spec idx (Z.of_nat (0 + 512))); try reflexivity; lia.
Qed.

(** The list of the 512 indices is not to be unfolded by unification. *)
#[local] Opaque range512.

Lemma Some_eq {A : Type} (x y : A) : Some x = Some y -> x = y.
Proof. intros H. now injection H. Qed.

Lemma truthy_1 (x : Z) : Z.land x 1 = 1 -> truthy (Z.land x 1) = true.
Proof. intros ->. reflexivity. Qed.

Lemma truthy_0 (x : Z) : Z.land x 1 = 0 -> truthy (Z.land x 1) = false.
Proof. intros ->. reflexivity. Qed.

(** *** One iteration *)

Lemma visit_iteration mem recurse table_addr va_start level target_va
      max_entries i n :
  iteration mem recurse table_addr va_start level target_va max_entries i n
    (visit mem recurse table_addr va_start level target_va max_entries i n).
Proof.
  unfold visit, read_u64.
  destruct (mem (table_addr + i * 8)) as [entry|] eqn:Hm;
    [|now apply it_unreadable].
  destruct (land_1_cases entry) as [Hv|Hv].
  { rewrite (truthy_0 _ Hv). cbn [negb].
    now apply (it_invalid _ _ _ _ _ _ _ _ _ entry). }
  rewrite (truthy_1 _ Hv). cbn [negb].
  destruct (not_on_target_path level target_va i) eqn:Hp.
  { now apply (it_off_path _ _ _ _ _ _ _ _ _ entry). }
  change (if (level <? 3)%nat && truthy (Z.land (Z.shiftr entry 1) 1)
          then recurse (Z.land entry 0x0000FFFFFFFFF000)
                       (Z.lor va_start (Z.shiftl i (shift level)))
          else Some [])
    with (below recurse va_start level i entry).
  destruct (below recurse va_start level i entry) as [sub|] eqn:Hb.
  2:{ now apply (it_out_of_fuel _ _ _ _ _ _ _ _ _ entry). }
  destruct (Z.leb_spec max_entries (n + 1)) as [Hle|Hlt].
  - destruct target_va as [t|]; cbn [target_is_none andb].
    + apply (it_shown _ _ _ _ _ _ _ _ _ entry sub); auto.
      right. discriminate.
    + apply (it_truncated _ _ _ _ _ _ _ _ _ entry sub); auto.
  - cbn [andb].
    apply (it_shown _ _ _ _ _ _ _ _ _ entry sub); auto.
Qed.

(** *** The loop, one index at a time *)

Section Loop.
Variable mem : physmem.
Variable recurse : Z -> Z -> option (list event).
Variables (table_addr va_start : Z) (level : nat).
Variables (target_va : option Z) (max_entries : Z).

Local Abbreviation walk_entries' :=
  (walk_entries mem recurse table_addr va_start level target_va
                max_entries).

Lemma present_true i entry :
  mem (table_addr + i * 8) = Some entry -> Z.land entry 1 = 1 ->
  present mem (table_addr + i * 8) = true.
Proof. intros H Hv. unfold present. rewrite H. now apply truthy_1. Qed.

(** How the loop treats its first index: passed over, shown and
    continued, or shown and truncated. *)
Lemma walk_entries_cases i rest n tr :
  walk_entries' (i :: rest) n = Some tr ->
  ((present mem (table_addr + i * 8) = false \/
    not_on_target_path level target_va i = true) /\
   exists tr',
     walk_entries' rest n = Some tr' /\
     tr = ReadMemory (table_addr + i * 8) 8 :: tr')
  \/
  (exists entry sub,
     mem (table_addr + i * 8) = Some entry /\
     Z.land entry 1 = 1 /\
     not_on_target_path level target_va i = false /\
     below recurse va_start level i entry = Some sub /\
     ((exists tr',
         (n + 1 < max_entries \/ target_va <> None) /\
         walk_entries' rest (n + 1) = Some tr' /\
         tr = ReadMemory (table_addr + i * 8) 8
              :: shown va_start level i entry ++ sub ++ tr')
      \/
      (max_entries <= n + 1 /\ target_va = None /\
       tr = ReadMemory (table_addr + i * 8) 8
            :: shown va_start level i entry ++ sub ++
               [Print (Truncated level (n + 1))]))).
Proof.
  cbn [walk_entries].
  assert (Hskip : forall tail,
            followed_by [ReadMemory (table_addr + i * 8) 8] tail
              = Some tr ->
            exists tr', tail = Some tr' /\
                        tr = ReadMemory (table_addr + i * 8) 8 :: tr').
  { intros [tr'|] Hf; [|discriminate]. injection Hf as <-.
    exists tr'. split; reflexivity. }
  destruct (visit_iteration mem recurse table_addr va_start level
              target_va max_entries i n)
    as [Hm|entry Hm Hv|entry Hm Hv Hp|entry Hm Hv Hp Hb
        |entry sub Hm Hv Hp Hb Hle Hnone|entry sub Hm Hv Hp Hb Hor];
    cbv beta iota; intros H.
  - left. split; [|now apply Hskip].
    left. unfold present. rewrite Hm. reflexivity.
  - left. split; [|now apply Hskip].
    left. unfold present. rewrite Hm. now apply truthy_0.
  - left. split; [|now apply Hskip]. right. assumption.
  - discriminate.
  - right. exists entry, sub. repeat (split; [assumption|]).
    right. apply Some_eq in H. subst tr.
    split; [assumption|]. split; [assumption|]. reflexivity.
  - right. exists entry, sub. repeat (split; [assumption|]).
    left. unfold followed_by in H.
    destruct (walk_entries' rest (n + 1)) as [tr'|]; [|discriminate].
    apply Some_eq in H. subst tr. exists tr'.
    split; [assumption|]. split; [reflexivity|].
    cbn [app]. rewrite <- app_assoc. reflexivity.
Qed.

(** A property of every event, given that the events of the tables
    below have it. *)
Lemma walk_entries_forall (f : event -> bool) :
  (forall a, f (ReadMemory a 8) = true) ->
  (forall i entry,
      Z.land entry 1 = 1 ->
      not_on_target_path level target_va i = false ->
      forallb f (shown va_start level i entry) = true) ->
  (forall n, target_va = None -> f (Print (Truncated level n)) = true) ->
  (forall a v tr, (level < 3)%nat -> recurse a v = Some tr ->
                  forallb f tr = true) ->
  forall indices n tr,
    walk_entries' indices n = Some tr -> forallb f tr = true.
Proof.
  intros Hread Hshown Htrunc Hrec.
  assert (Hbelow : forall i entry sub,
            below recurse va_start level i entry = Some sub ->
            forallb f sub = true).
  { intros i entry sub. unfold below.
    destruct (Nat.ltb_spec level 3) as [Hlt|Hge]; cbn [andb].
    - destruct (truthy _); [apply Hrec; assumption|].
      intros Hs; now injection Hs as <-.
    - intros Hs; now injection Hs as <-. }
  induction indices as [|i rest IH]; intros n tr H.
  - injection H as <-. reflexivity.
  - apply walk_entries_cases in H.
    destruct H as [[_ (tr' & Hrest & ->)]|
      (entry & sub & Hm & Hv & Hp & Hb &
       [(tr' & _ & Hrest & ->)|(_ & Hnone & ->)])];
      cbn [forallb]; rewrite ?forallb_app, Hread; cbn [andb].
    + eapply IH; eassumption.
    + rewrite (Hshown _ _ Hv Hp), (Hbelow _ _ _ Hb), (IH _ _ Hrest).
      reflexivity.
    + rewrite (Hshown _ _ Hv Hp), (Hbelow _ _ _ Hb).
      cbn [forallb]. rewrite (Htrunc _ Hnone). reflexivity.
Qed.

End Loop.

(** *** The recursion *)

Section Recursion.
Variable mem : physmem.
Variable target_va : option Z.
Variable max_entries : Z.

Lemma walk_table_S fuel table_addr va_start level :
  walk_table mem (S fuel) table_addr va_start level target_va max_entries
  = if (3 <? level)%nat then Some []
    else
      followed_by
        [Print (TableHeader level (nth level level_names "") table_addr)]
        (walk_entries mem
           (fun next_addr va =>
              walk_table mem fuel next_addr va (S level)
                         target_va max_entries)
           table_addr va_start level target_va max_entries range512 0).
Proof. reflexivity. Qed.

(** A returned call at a level of 0 to 3 printed its header, then what
    its loop printed. *)
Lemma walk_table_inv fuel table_addr va_start level tr :
  walk_table mem fuel table_addr va_start level target_va max_entries
    = Some tr ->
  (level <= 3)%nat ->
  exists fuel' tr',
    fuel = S fuel' /\
    walk_entries mem
      (fun next_addr va =>
         walk_table mem fuel' next_addr va (S level)
                    target_va max_entries)
      table_addr va_start level target_va max_entries range512 0
      = Some tr' /\
    tr = Print (TableHeader level (nth level level_names "") table_addr)
         :: tr'.
Proof.
  destruct fuel as [|fuel']; [discriminate|].
  rewrite walk_table_S. intros H Hl.
  destruct (Nat.ltb_spec 3 level); [lia|].
  unfold followed_by in H.
  destruct (walk_entries _ _ _ _ _ _ _ _ _) as [tr'|] eqn:Hw;
    [|discriminate].
  apply Some_eq in H. subst tr.
  exists fuel', tr'. split; [reflexivity|]. split; [exact Hw|reflexivity].
Qed.

Lemma walk_table_forall (F : nat -> event -> bool) :
  (forall l ev, F (S l) ev = true -> F l ev = true) ->
  (forall l a, F l (ReadMemory a 8) = true) ->
  (forall l addr, (l <= 3)%nat ->
     F l (Print (TableHeader l (nth l level_names "") addr)) = true) ->
  (forall l va_start i entry, (l <= 3)%nat ->
     Z.land entry 1 = 1 ->
     not_on_target_path l target_va i = false ->
     forallb (F l) (shown va_start l i entry) = true) ->
  (forall l n, (l <= 3)%nat -> target_va = None ->
     F l (Print (Truncated l n)) = true) ->
  forall fuel table_addr va_start level tr,
    walk_table mem fuel table_addr va_start level target_va max_entries
      = Some tr ->
    forallb (F level) tr = true.
Proof.
  intros Hmono Hread Hhead Hshown Htrunc.
  induction fuel as [|fuel IH]; intros table_addr va_start level tr H;
    [discriminate|].
  destruct (Nat.ltb_spec 3 level) as [Hl|Hl].
  - rewrite walk_table_S in H.
    destruct (Nat.ltb_spec 3 level); [|lia].
    apply Some_eq in H. subst tr. reflexivity.
  - destruct (walk_table_inv _ _ _ _ _ H Hl)
      as (fuel' & tr' & Hf & Hw & ->).
    injection Hf as <-.
    cbn [forallb]. rewrite Hhead by assumption. cbn [andb].
    revert Hw. apply walk_entries_forall.
    + apply Hread.
    + intros. apply Hshown; assumption.
    + intros. apply Htrunc; assumption.
    + intros a v sub _ Hsub. specialize (IH _ _ _ _ Hsub).
      rewrite forallb_forall in *. intros ev Hev.
      apply Hmono, IH, Hev.
Qed.

(** Every line belongs to a table of the level of the call or below
    it, down to level 3. *)
Lemma walk_table_within fuel table_addr va_start level tr :
  walk_table mem fuel table_addr va_start level target_va max_entries
    = Some tr ->
  forallb (within level) tr = true.
Proof.
  apply (walk_table_forall within).
  - intros l ev. unfold within.
    destruct ev as [name|addr size|ln]; try (intros; assumption).
    destruct (level_of (Print ln)) as [k|]; [|intros; assumption].
    intros H. apply andb_prop in H. destruct H as [H1 H2].
    apply Nat.leb_le in H1. rewrite H2, andb_true_r.
    apply Nat.leb_le. lia.
  - reflexivity.
  - intros l addr Hl. cbn. rewrite Nat.leb_refl.
    now apply Nat.leb_le.
  - intros l va i entry Hl _ _. cbn. rewrite Nat.leb_refl.
    replace (l <=? 3)%nat with true by (symmetry; now apply Nat.leb_le).
    reflexivity.
  - intros l n Hl _. cbn. rewrite Nat.leb_refl. now apply Nat.leb_le.
Qed.

(** No line ever flags an entry as unreadable or as invalid. *)
Lemma walk_table_no_flag fuel table_addr va_start level tr :
  walk_table mem fuel table_addr va_start level target_va max_entries
    = Some tr ->
  forallb (fun ev => negb (flags_failure ev)) tr = true.
Proof.
  apply (walk_table_forall (fun _ ev => negb (flags_failure ev)));
    try reflexivity; auto.
  intros l va i entry _ Hv _. cbn [shown forallb flags_failure].
  unfold decode_pte. rewrite (truthy_1 _ Hv). cbn [negb].
  destruct ((l <? 3)%nat && _); reflexivity.
Qed.

End Recursion.

(** *** Termination: the depth of the calls *)

Section Depth.
Variable mem : physmem.
Variable target_va : option Z.
Variable max_entries : Z.

Lemma walk_entries_total recurse table_addr va_start level :
  ((level < 3)%nat -> forall a v, exists tr, recurse a v = Some tr) ->
  forall indices n,
  exists tr,
    walk_entries mem recurse table_addr va_start level target_va
                 max_entries indices n = Some tr.
Proof.
  intros Hrec. induction indices as [|i rest IH]; intros n.
  - exists []. reflexivity.
  - cbn [walk_entries].
    destruct (visit_iteration mem recurse table_addr va_start level
                target_va max_entries i n)
      as [Hm|entry Hm Hv|entry Hm Hv Hp|entry Hm Hv Hp Hb
          |entry sub Hm Hv Hp Hb Hle Hnone|entry sub Hm Hv Hp Hb Hor];
      cbv beta iota.
    1-3: destruct (IH n) as [tr' ->]; eexists; reflexivity.
    + exfalso. revert Hb. unfold below.
      destruct (Nat.ltb_spec level 3) as [Hlt|Hge]; cbn [andb];
        [|discriminate].
      destruct (truthy _); [|discriminate].
      destruct (Hrec Hlt (Z.land entry 0x0000FFFFFFFFF000)
                     (Z.lor va_start (Z.shiftl i (shift level))))
        as [tr' ->].
      discriminate.
    + eexists; reflexivity.
    + destruct (IH (n + 1)) as [tr' ->]. eexists; reflexivity.
Qed.

(** A call at level [level] returns as soon as it may nest
    [4 - level] deep: level 0 needs four calls in depth, level 3 and
    above one. *)
Lemma walk_table_total fuel : forall table_addr va_start level,
  (S (3 - level) <= fuel)%nat ->
  exists tr,
    walk_table mem fuel table_addr va_start level target_va max_entries
      = Some tr.
Proof.
  induction fuel as [|fuel IH]; intros table_addr va_start level Hf;
    [lia|].
  rewrite walk_table_S.
  destruct (Nat.ltb_spec 3 level) as [Hl|Hl]; [eexists; reflexivity|].
  destruct (walk_entries_total
              (fun next_addr va =>
                 walk_table mem fuel next_addr va (S level)
                            target_va max_entries)
              table_addr va_start level) with (indices := range512)
                                              (n := 0)
    as [tr' ->].
  - intros Hlt a v. apply IH. lia.
  - eexists; reflexivity.
Qed.

Lemma visit_mono recurse recurse' table_addr va_start level i n r :
  (forall a v tr, recurse a v = Some tr -> recurse' a v = Some tr) ->
  visit mem recurse table_addr va_start level target_va max_entries i n
    = Some r ->
  visit mem recurse' table_addr va_start level target_va max_entries i n
    = Some r.
Proof.
  intros Hmono. unfold visit, read_u64.
  destruct (mem (table_addr + i * 8)) as [entry|]; [|trivial].
  destruct (negb (truthy (Z.land entry 1))); [trivial|].
  destruct (not_on_target_path level target_va i); [trivial|].
  destruct ((level <? 3)%nat && truthy (Z.land (Z.shiftr entry 1) 1));
    [|trivial].
  destruct (recurse _ _) as [sub|] eqn:Hsub; [|discriminate].
  rewrite (Hmono _ _ _ Hsub). trivial.
Qed.

Lemma walk_entries_mono recurse recurse' table_addr va_start level :
  (forall a v tr, recurse a v = Some tr -> recurse' a v = Some tr) ->
  forall indices n tr,
    walk_entries mem recurse table_addr va_start level target_va
                 max_entries indices n = Some tr ->
    walk_entries mem recurse' table_addr va_start level target_va
                 max_entries indices n = Some tr.
Proof.
  intros Hmono. induction indices as [|i rest IH]; intros n tr;
    [trivial|].
  cbn [walk_entries].
  destruct (visit mem recurse table_addr va_start level target_va
                  max_entries i n) as [[seg st]|] eqn:Hvis;
    [|discriminate].
  rewrite (visit_mono _ _ _ _ _ _ _ _ Hmono Hvis).
  destruct st as [n'|]; [|trivial].
  unfold followed_by.
  destruct (walk_entries mem recurse _ _ _ _ _ rest n') as [tr'|] eqn:Hr;
    [|discriminate].
  rewrite (IH _ _ Hr). trivial.
Qed.

(** More depth allowed changes nothing to a call that returned. *)
Lemma walk_table_mono fuel : forall extra table_addr va_start level tr,
  walk_table mem fuel table_addr va_start level target_va max_entries
    = Some tr ->
  walk_table mem (fuel + extra) table_addr va_start level target_va
             max_entries = Some tr.
Proof.
  induction fuel as [|fuel IH]; intros extra table_addr va_start level tr;
    [discriminate|].
  cbn [Nat.add]. rewrite !walk_table_S.
  destruct (3 <? level)%nat; [trivial|].
  unfold followed_by.
  destruct (walk_entries mem
              (fun next_addr va =>
                 walk_table mem fuel next_addr va (S level)
                            target_va max_entries)
              table_addr va_start level target_va
              max_entries range512 0) as [tr'|] eqn:Hw;
    [|discriminate].
  intros H.
  rewrite (walk_entries_mono _
             (fun next_addr va =>
                walk_table mem (fuel + extra) next_addr va (S level)
                           target_va max_entries) _ _ _
             (fun a v tr0 => IH extra a v (S level) tr0) _ _ _ Hw).
  exact H.
Qed.

End Depth.

(** *** Counting reads *)

Lemma reads_app (a b : list event) : reads (a ++ b) = reads a + reads b.
Proof. unfold reads. rewrite filter_app, length_app. lia. Qed.

Lemma reads_read (a size : Z) (tr : list event) :
  reads (ReadMemory a size :: tr) = 1 + reads tr.
Proof. unfold reads. cbn [filter is_read List.length]. lia. Qed.

Lemma reads_print (l : line) (tr : list event) :
  reads (Print l :: tr) = reads tr.
Proof. reflexivity. Qed.

Lemma reads_nonneg (tr : list event) : 0 <= reads tr.
Proof. unfold reads. lia. Qed.

Lemma reads_bound_nonneg (depth : nat) : 0 <= reads_bound depth.
Proof. induction depth; cbn [reads_bound]; lia. Qed.

Section Reads.
Variable mem : physmem.
Variable target_va : option Z.
Variable max_entries : Z.

Lemma walk_entries_reads recurse table_addr va_start level (B : Z) :
  0 <= B ->
  (forall a v tr, recurse a v = Some tr -> reads tr <= B) ->
  forall indices n tr,
    walk_entries mem recurse table_addr va_start level target_va
                 max_entries indices n = Some tr ->
    reads tr <= Z.of_nat (List.length indices) * (1 + B).
Proof.
  intros HB Hrec.
  assert (Hbelow : forall i entry sub,
            below recurse va_start level i entry = Some sub ->
            0 <= reads sub <= B).
  { intros i entry sub. unfold below.
    destruct ((level <? 3)%nat && truthy _).
    - intros Hs. split; [apply reads_nonneg|]. eapply Hrec, Hs.
    - intros Hs. apply Some_eq in Hs. subst sub. cbn. lia. }
  induction indices as [|i rest IH]; intros n tr H.
  - apply Some_eq in H. subst tr. cbn. lia.
  - apply walk_entries_cases in H.
    cbn [List.length]. rewrite Nat2Z.inj_succ.
    destruct H as [[_ (tr' & Hrest & ->)]|
      (entry & sub & Hm & Hv & Hp & Hb &
       [(tr' & _ & Hrest & ->)|(_ & Hnone & ->)])];
      rewrite reads_read; unfold shown; cbn [app];
      rewrite ?reads_print, ?reads_app.
    + specialize (IH _ _ Hrest). nia.
    + specialize (IH _ _ Hrest). specialize (Hbelow _ _ _ Hb). nia.
    + specialize (Hbelow _ _ _ Hb).
      change (reads [Print (Truncated level (n + 1))]) with 0.
      pose proof (Nat2Z.is_nonneg (List.length rest)). nia.
Qed.

(** A call at level [level] reads at most 512 entries per table and
    goes at most [4 - level] tables deep. *)
Lemma walk_table_reads fuel : forall table_addr va_start level tr,
  walk_table mem fuel table_addr va_start level target_va max_entries
    = Some tr ->
  reads tr <= reads_bound (4 - level).
Proof.
  induction fuel as [|fuel IH]; intros table_addr va_start level tr H;
    [discriminate|].
  destruct (Nat.ltb_spec 3 level) as [Hl|Hl].
  - rewrite walk_table_S in H.
    destruct (Nat.ltb_spec 3 level); [|lia].
    apply Some_eq in H. subst tr.
    replace (4 - level)%nat with 0%nat by lia. cbn. lia.
  - destruct (walk_table_inv _ _ _ _ _ _ _ _ H Hl)
      as (fuel' & tr' & Hf & Hw & ->).
    injection Hf as <-.
    rewrite reads_print.
    replace (4 - level)%nat with (S (4 - S level)) by lia.
    cbn [reads_bound].
    apply (walk_entries_reads _ _ _ _ (reads_bound (4 - S level))) in Hw.
    + rewrite length_range512 in Hw. exact Hw.
    + apply reads_bound_nonneg.
    + intros a v sub Hsub. eapply IH, Hsub.
Qed.

End Reads.

(** *** Unreadable and invalid entries are told apart by nothing *)

Section Visible.
Variables mem mem' : physmem.
Hypothesis Hvis : forall a, visible mem a = visible mem' a.
Variable target_va : option Z.
Variable max_entries : Z.

Lemma visit_visible recurse recurse' table_addr va_start level i n :
  (forall a v, recurse a v = recurse' a v) ->
  visit mem recurse table_addr va_start level target_va max_entries i n
  = visit mem' recurse' table_addr va_start level target_va max_entries
          i n.
Proof.
  intros Hrec. unfold visit, read_u64.
  pose proof (Hvis (table_addr + i * 8)) as Ha. unfold visible in Ha.
  destruct (mem (table_addr + i * 8)) as [e|],
           (mem' (table_addr + i * 8)) as [e'|].
  - destruct (truthy (Z.land e 1)) eqn:He,
             (truthy (Z.land e' 1)) eqn:He'; try discriminate;
      cbn [negb]; [|reflexivity].
    injection Ha as <-. rewrite Hrec. reflexivity.
  - destruct (truthy (Z.land e 1)); [discriminate|reflexivity].
  - destruct (truthy (Z.land e' 1)); [discriminate|reflexivity].
  - reflexivity.
Qed.

Lemma walk_entries_visible recurse recurse' table_addr va_start level :
  (forall a v, recurse a v = recurse' a v) ->
  forall indices n,
    walk_entries mem recurse table_addr va_start level target_va
                 max_entries indices n
    = walk_entries mem' recurse' table_addr va_start level target_va
                   max_entries indices n.
Proof.
  intros Hrec. induction indices as [|i rest IH]; intros n;
    [reflexivity|].
  cbn [walk_entries].
  rewrite (visit_visible recurse recurse' _ _ _ _ _ Hrec).
  destruct (visit mem' recurse' table_addr va_start level target_va
                  max_entries i n) as [[seg [n'|]]|]; try reflexivity.
  rewrite IH. reflexivity.
Qed.

Lemma walk_table_visible fuel : forall table_addr va_start level,
  walk_table mem fuel table_addr va_start level target_va max_entries
  = walk_table mem' fuel table_addr va_start level target_va max_entries.
Proof.
  induction fuel as [|fuel IH]; intros table_addr va_start level;
    [reflexivity|].
  rewrite !walk_table_S.
  destruct (3 <? level)%nat; [reflexivity|].
  f_equal. apply walk_entries_visible.
  intros a v. apply IH.
Qed.

End Visible.

(** *** Tables whose entries are all passed over *)

Section Silent.
Variable mem : physmem.
Variable recurse : Z -> Z -> option (list event).
Variables (table_addr va_start : Z) (level : nat).
Variables (target_va : option Z) (max_entries : Z).

Lemma walk_entries_silent indices : forall n,
  (forall i, In i indices ->
     present mem (table_addr + i * 8) = false \/
     not_on_target_path level target_va i = true) ->
  walk_entries mem recurse table_addr va_start level target_va
               max_entries indices n
  = Some (List.map (fun i => ReadMemory (table_addr + i * 8) 8) indices).
Proof.
  induction indices as [|i rest IH]; intros n Hall; [reflexivity|].
  assert (Hi : present mem (table_addr + i * 8) = false \/
               not_on_target_path level target_va i = true)
    by (apply Hall; left; reflexivity).
  assert (Hno : forall entry,
            mem (table_addr + i * 8) = Some entry ->
            Z.land entry 1 = 1 ->
            not_on_target_path level target_va i = false -> False).
  { intros entry Hm Hv Hp.
    pose proof (present_true _ _ _ _ Hm Hv) as Hpr.
    destruct Hi as [Hi|Hi]; congruence. }
  cbn [walk_entries List.map].
  destruct (visit_iteration mem recurse table_addr va_start level
              target_va max_entries i n)
    as [Hm|entry Hm Hv|entry Hm Hv Hp|entry Hm Hv Hp Hb
        |entry sub Hm Hv Hp Hb Hle Hnone|entry sub Hm Hv Hp Hb Hor];
    cbv beta iota;
    try (exfalso; eapply Hno; eassumption);
    rewrite IH by (intros j Hj; apply Hall; right; exact Hj);
    reflexivity.
Qed.

Lemma printed_reads (indices : list Z) :
  printed (List.map (fun i => ReadMemory (table_addr + i * 8) 8) indices)
  = [].
Proof. induction indices; [reflexivity|assumption]. Qed.


End Silent.

(** *** Counting the entries shown *)




Lemma idx_for_target_range (target_va : Z) (level : nat) :
  0 <= idx_for_target target_va level < 512.
Proof.
  unfold idx_for_target. change 0x1FF with (Z.ones 9).
  rewrite Z.land_ones by lia. apply Z.mod_pos_bound. reflexivity.
Qed.




Section Count.
Variable mem : physmem.
Variable recurse : Z -> Z -> option (list event).
Variables (table_addr va_start : Z) (level : nat).
Variable max_entries : Z.
Hypothesis Hrec : forall a v tr,
    recurse a v = Some tr -> forallb (within (S level)) tr = true.




End Count.

(** *** Whole calls *)

Section Calls.
Variable mem : physmem.
Variable max_entries : Z.






(** A table none of whose entries is shown: the header, then the 512
    reads. *)
Lemma walk_table_silent target_va fuel table_addr va_start level :
  (level <= 3)%nat ->
  (forall i, In i range512 ->
     present mem (table_addr + i * 8) = false \/
     not_on_target_path level target_va i = true) ->
  walk_table mem (S fuel) table_addr va_start level target_va max_entries
  = Some (Print (TableHeader level (nth level level_names "") table_addr)
          :: List.map (fun i => ReadMemory (table_addr + i * 8) 8)
                      range512).
Proof.
  intros Hl Hall. rewrite walk_table_S.
  destruct (Nat.ltb_spec 3 level); [lia|].
  rewrite walk_entries_silent by exact Hall. reflexivity.
Qed.

End Calls.

(** *** [invoke] *)

Lemma base_bits (ttbr n : Z) :
  0 <= n -> Z.testbit (base ttbr) n = Z.testbit ttbr n && (n <? 48).
Proof.
  intros Hn. unfold base. change 0x0000FFFFFFFFFFFF with (Z.ones 48).
  rewrite Z.land_spec, testbit_ones by lia.
  destruct (Z.leb_spec 0 n); [reflexivity|lia].
Qed.

Section Invoke.
Variable regs : regfile.
Variable mem : physmem.

Lemma invoke_kernel fuel target_va ttbr1 :
  0xFFFF000000000000 <= target_va ->
  regs "TTBR1_EL1" = Some ttbr1 ->
  invoke regs mem fuel (Address target_va) =
  followed_by
    (register_dump regs ++
     [Print (Walking target_va); Print (UsingTTBR1 (base ttbr1))])
    (followed_by_footer
       (walk_table mem fuel (base ttbr1) 0xFFFF000000000000 0
                   (Some target_va) 512)).
Proof.
  intros Ht Hr. unfold invoke, read_sysreg, register_dump.
  rewrite Hr. apply Z.leb_le in Ht. rewrite Ht.
  cbn [app]. rewrite <- !app_assoc. reflexivity.
Qed.

Lemma invoke_user fuel target_va ttbr0 :
  target_va < 0xFFFF000000000000 ->
  regs "TTBR0_EL1" = Some ttbr0 ->
  invoke regs mem fuel (Address target_va) =
  followed_by
    (register_dump regs ++
     [Print (Walking target_va); Print (UsingTTBR0 (base ttbr0))])
    (followed_by_footer
       (walk_table mem fuel (base ttbr0) 0 0 (Some target_va) 512)).
Proof.
  intros Ht Hr. unfold invoke, read_sysreg, register_dump.
  rewrite Hr. apply Z.leb_gt in Ht. rewrite Ht.
  cbn [app]. rewrite <- !app_assoc. reflexivity.
Qed.

Lemma invoke_dump fuel ttbr0 ttbr1 :
  regs "TTBR0_EL1" = Some ttbr0 ->
  regs "TTBR1_EL1" = Some ttbr1 ->
  invoke regs mem fuel NoArgument =
  match walk_table mem fuel (base ttbr0) 0 0 None 10,
        walk_table mem fuel (base ttbr1) 0xFFFF000000000000 0 None 10
  with
  | Some d0, Some d1 =>
      Some (register_dump regs ++ Print DumpTTBR0 :: d0 ++
            Print DumpTTBR1 :: d1 ++ [Print Footer])
  | _, _ => None
  end.
Proof.
  intros H0 H1. unfold invoke, read_sysreg, register_dump.
  rewrite H0, H1. unfold followed_by, followed_by_footer.
  destruct (walk_table mem fuel (base ttbr0) 0 0 None 10) as [d0|];
    [|reflexivity].
  destruct (walk_table mem fuel (base ttbr1) 0xFFFF000000000000 0 None 10)
    as [d1|]; [|reflexivity].
  cbn [app]. rewrite <- !app_assoc. reflexivity.
Qed.

End Invoke.

(** *** Entries passed over, and the one index of a target *)

Lemma walk_entries_skip mem recurse table_addr va_start level target_va
      max_entries i rest n :
  present mem (table_addr + i * 8) = false ->
  walk_entries mem recurse table_addr va_start level target_va max_entries
               (i :: rest) n
  = followed_by [ReadMemory (table_addr + i * 8) 8]
      (walk_entries mem recurse table_addr va_start level target_va
                    max_entries rest n).
Proof.
  intros Hpr. cbn [walk_entries].
  destruct (visit_iteration mem recurse table_addr va_start level
              target_va max_entries i n)
    as [Hm|entry Hm Hv|entry Hm Hv Hp|entry Hm Hv Hp Hb
        |entry sub Hm Hv Hp Hb Hle Hnone|entry sub Hm Hv Hp Hb Hor];
    try reflexivity;
    rewrite (present_true _ _ _ _ Hm Hv) in Hpr; discriminate.
Qed.



(** With a target whose entry at this level is absent, every index is
    passed over. *)
Lemma walk_table_target_absent mem max_entries target fuel table_addr
      va_start level :
  (level <= 3)%nat ->
  present mem (table_addr + idx_for_target target level * 8) = false ->
  walk_table mem (S fuel) table_addr va_start level (Some target) max_entries
  = Some (Print (TableHeader level (nth level level_names "") table_addr)
          :: List.map (fun i => ReadMemory (table_addr + i * 8) 8) range512).
Proof.
  intros Hl Hpr. apply walk_table_silent; [exact Hl|].
  intros i _. unfold not_on_target_path.
  fold (idx_for_target target level).
  destruct (Z.eqb_spec i (idx_for_target target level)) as [->|Hne].
  - left. exact Hpr.
  - right. reflexivity.
Qed.

End Arm64PageTableWalkFacts.

(** ** The claims *)

(** C1, as amended.  When the loop of [do_walk] is left by [break] at
    level 1 or 2, the entry it stopped at is a valid block descriptor and
    the final physical address is [(entry & levelMask) | (va & ((1 <<
    levelShift) - 1))], with levelShift 30 at level 1 and 21 at level 2 and
    levelMask bits [47:levelShift]: below the shift the bits of the
    virtual address, from the shift to bit 47 those of the descriptor;
    that address is what the block line and the result report, and what
    the verification read asks the monitor for; the footer follows and
    the call returns unless that read raises.  For the
    same descriptor at the same level [decode_pte] of the other script
    shows the block with the address [entry & 0x0000FFFFFFFFF000], the
    4 KiB page mask, and computes no final address. *)
Theorem block_final_address (regs : regfile) (xp : WalkPageTable.monitor)
        (va level entry final_pa : Z) :
  WalkPageTableTraces.loop_exit_of regs xp va
    = Some (WalkPageTable.ExitBreak level entry final_pa) ->
  level = 1 \/ level = 2 ->
  Z.land entry 1 = 1 /\ Z.land (Z.shiftr entry 1) 1 = 0 /\
  final_pa = Z.lor (Z.land entry (WalkPageTableTraces.levelMask level))
                   (Z.land va
                      (Z.shiftl 1 (WalkPageTableTraces.levelShift level) - 1))
  /\
  (forall n, 0 <= n ->
     Z.testbit final_pa n =
     if n <? WalkPageTableTraces.levelShift level
     then Z.testbit va n else Z.testbit entry n && (n <? 48)) /\
  (exists pre,
     WalkPageTable.do_walk regs xp va =
     (pre ++
      [WalkPageTable.Print WalkPageTable.Mapped;
       WalkPageTable.Print
         (WalkPageTable.BlockMapping
            (WalkPageTable.block_size (WalkPageTableTraces.levelShift level))
            (Z.land entry (WalkPageTableTraces.levelMask level)) final_pa)]
      ++ WalkPageTable.print_permissions entry
      ++ fst (WalkPageTable.report xp va (Some final_pa)),
      snd (WalkPageTable.report xp va (Some final_pa)))) /\
  (exists shown,
     fst (WalkPageTable.report xp va (Some final_pa))
     = WalkPageTable.Print
         (WalkPageTable.Result va (WalkPageTable.l0_idx va)
            (WalkPageTable.l1_idx va) (WalkPageTable.l2_idx va)
            (WalkPageTable.l3_idx va) (WalkPageTable.offset va) final_pa)
       :: WalkPageTable.Print (WalkPageTable.Verification final_pa)
       :: WalkPageTable.MonitorXpWord final_pa shown
       :: match shown with
          | Some _ => [WalkPageTable.Print WalkPageTable.Footer]
          | None => []
          end /\
     snd (WalkPageTable.report xp va (Some final_pa))
     = match shown with
       | Some _ => WalkPageTable.Returned
       | None => WalkPageTable.Raised
       end) /\
  (exists size ap xn sh af,
     Arm64PageTableWalk.decode_pte (Some entry) (Z.to_nat level)
     = Arm64PageTableWalk.LEAF "BLOCK" (Z.land entry 0x0000FFFFFFFFF000)
                               size ap xn sh af).
Proof.
  unfold WalkPageTableTraces.loop_exit_of.
  destruct (WalkPageTable.choose_ttbr regs va) as [sel [ttbr|]] eqn:Hc;
    cbn [snd]; [|discriminate].
  destruct (WalkPageTable.walk_levels xp va 0 (WalkPageTable.levels va)
              (WalkPageTable.table_pa ttbr)) as [tr ex] eqn:Hw.
  cbn [snd]. intros Hex Hl. injection Hex as ->.
  destruct (WalkPageTableFacts.walk_block_address _ _ _ _ _ _ _ Hw Hl)
    as (Hv & Ht & Hf & pre & name & idx & tbl & Htr).
  split; [exact Hv|]. split; [exact Ht|]. split; [exact Hf|].
  split; [|split; [|split]].
  - intros n Hn. rewrite Hf. unfold WalkPageTableTraces.levelMask.
    apply WalkPageTableFacts.block_address_bits; [|exact Hn].
    unfold WalkPageTableTraces.levelShift. destruct (level =? 1); lia.
  - rewrite (WalkPageTableFacts.do_walk_readable _ _ _ _ _ Hc), Hw, Htr.
    exists (WalkPageTableTraces.prelude va sel ttbr ++ pre ++
            WalkPageTableTraces.fetched level name idx tbl entry).
    f_equal. rewrite <- !app_assoc. reflexivity.
  - exists (WalkPageTable.word xp final_pa).
    unfold WalkPageTable.report.
    destruct (WalkPageTable.word xp final_pa); split; reflexivity.
  - unfold Arm64PageTableWalk.decode_pte.
    rewrite (Arm64PageTableWalkFacts.truthy_1 _ Hv), Ht.
    cbn [negb truthy Z.eqb andb].
    destruct Hl as [-> | ->]; cbn; repeat eexists.
Qed.


(** The walk of [va = 0x123456789] whose level-1 entry is the 1 GiB block
    [0x40000601]: the final address is [0x40000000 | 0x23456789]. *)
Lemma block_final_address_witness :
  WalkPageTableTraces.loop_exit_of
    (Examples.two_roots 0x1000 0x5000)
    (MoreExamples.monitor_of (Examples.one_path 0x40000601))
    0x123456789
  = Some (WalkPageTable.ExitBreak 1 0x40000601 0x63456789) /\
  0x63456789 = Z.lor (Z.land 0x40000601 (WalkPageTableTraces.levelMask 1))
                     (Z.land 0x123456789
                        (Z.shiftl 1 (WalkPageTableTraces.levelShift 1) - 1)).
Proof.
  assert (H : WalkPageTableTraces.loop_exit_of
                (Examples.two_roots 0x1000 0x5000)
                (MoreExamples.monitor_of (Examples.one_path 0x40000601))
                0x123456789
              = Some (WalkPageTable.ExitBreak 1 0x40000601 0x63456789))
    by reflexivity.
  split; [exact H|].
  exact (proj1 (proj2 (proj2
           (block_final_address _ _ _ _ _ _ H (or_introl eq_refl))))).
Defined.

(** C1 as stated fails on [gdb_pagetable_walk.py]: the walk for
    [va = 0x123456789] ends at the level-1 block [0x40100601] and the only
    address it reports for it is [0x40100000], the descriptor under the
    4 KiB page mask; that is neither the descriptor under the 1 GiB mask
    nor that completed by the low 30 bits of [va]. *)
Lemma block_final_address_counterexample :
  exists tr,
    Arm64PageTableWalk.walk_table (Examples.one_path_zeroes 0x40100601) 4
      0x1000 0 0 (Some 0x123456789) 512 = Some tr /\
    Arm64PageTableWalkTraces.printed tr =
    [Arm64PageTableWalk.TableHeader 0 "PGD (L0)" 0x1000;
     Arm64PageTableWalk.EntryLine 0 0 0 (Arm64PageTableWalk.TABLE 0x2000);
     Arm64PageTableWalk.RawLine 0 0x2003;
     Arm64PageTableWalk.TableHeader 1 "PUD (L1)" 0x2000;
     Arm64PageTableWalk.EntryLine 1 4 0x100000000
       (Arm64PageTableWalk.LEAF "BLOCK" 0x40100000 "1GB" "RW_EL1" "Exec"
                                "Outer-share" "Accessed");
     Arm64PageTableWalk.RawLine 1 0x40100601] /\
    0x40100000 <> Z.land 0x40100601 (WalkPageTableTraces.levelMask 1) /\
    0x40100000 <>
    Z.lor (Z.land 0x40100601 (WalkPageTableTraces.levelMask 1))
          (Z.land 0x123456789
             (Z.shiftl 1 (WalkPageTableTraces.levelShift 1) - 1)).
Proof.
  eexists. split; [vm_compute; reflexivity|].
  split; [vm_compute; reflexivity|].
  split; vm_compute; discriminate.
Qed.

(** C3, as amended.  In [do_walk] the register chosen as root is masked
    to bits [47:12] before use: the table base printed, and used for the
    first read, keeps bits 12 to 47 of the register and nothing else.  In
    [invoke] of [gdb_pagetable_walk.py], with a target and in the full
    dump alike, the register is masked with [0x0000FFFFFFFFFFFF] only: the
    bits above 47 are dropped, the low 12 bits are kept, and [walk_table]
    is called on that value. *)
Theorem table_base_masking (regs : regfile) (xp : WalkPageTable.monitor)
        (mem : physmem) (fuel : nat) (va ttbr0 ttbr1 : Z) :
  regs "TTBR0_EL1" = Some ttbr0 ->
  regs "TTBR1_EL1" = Some ttbr1 ->
  let chosen := if Z.testbit va 55 then ttbr1 else ttbr0 in
  let root := WalkPageTable.table_pa (Z.land chosen 0xFFFFFFFFFFFFFFFF) in
  ((exists rest,
      filter WalkPageTableTraces.is_read
             (fst (WalkPageTable.do_walk regs xp va))
      = WalkPageTable.MonitorXpGiant (root + WalkPageTable.l0_idx va * 8)
        :: rest) /\
   In (WalkPageTable.Print (WalkPageTable.PageTableBase root))
      (fst (WalkPageTable.do_walk regs xp va)) /\
   (forall n, Z.testbit root n
              = Z.testbit chosen n && ((12 <=? n) && (n <? 48)))) /\
  ((0xFFFF000000000000 <= va ->
    Arm64PageTableWalk.invoke regs mem fuel
      (Arm64PageTableWalk.Address va) =
    Arm64PageTableWalk.followed_by
      (Arm64PageTableWalkTraces.register_dump regs ++
       [Arm64PageTableWalk.Print (Arm64PageTableWalk.Walking va);
        Arm64PageTableWalk.Print
          (Arm64PageTableWalk.UsingTTBR1 (Arm64PageTableWalk.base ttbr1))])
      (Arm64PageTableWalk.followed_by_footer
         (Arm64PageTableWalk.walk_table mem fuel
            (Arm64PageTableWalk.base ttbr1) 0xFFFF000000000000 0
            (Some va) 512))) /\
   (va < 0xFFFF000000000000 ->
    Arm64PageTableWalk.invoke regs mem fuel
      (Arm64PageTableWalk.Address va) =
    Arm64PageTableWalk.followed_by
      (Arm64PageTableWalkTraces.register_dump regs ++
       [Arm64PageTableWalk.Print (Arm64PageTableWalk.Walking va);
        Arm64PageTableWalk.Print
          (Arm64PageTableWalk.UsingTTBR0 (Arm64PageTableWalk.base ttbr0))])
      (Arm64PageTableWalk.followed_by_footer
         (Arm64PageTableWalk.walk_table mem fuel
            (Arm64PageTableWalk.base ttbr0) 0 0 (Some va) 512))) /\
   Arm64PageTableWalk.invoke regs mem fuel Arm64PageTableWalk.NoArgument =
   match Arm64PageTableWalk.walk_table mem fuel
           (Arm64PageTableWalk.base ttbr0) 0 0 None 10,
         Arm64PageTableWalk.walk_table mem fuel
           (Arm64PageTableWalk.base ttbr1) 0xFFFF000000000000 0 None 10
   with
   | Some d0, Some d1 =>
       Some (Arm64PageTableWalkTraces.register_dump regs ++
             Arm64PageTableWalk.Print Arm64PageTableWalk.DumpTTBR0 :: d0 ++
             Arm64PageTableWalk.Print Arm64PageTableWalk.DumpTTBR1 :: d1 ++
             [Arm64PageTableWalk.Print Arm64PageTableWalk.Footer])
   | _, _ => None
   end /\
   (forall ttbr n, 0 <= n ->
      Z.testbit (Arm64PageTableWalk.base ttbr) n
      = Z.testbit ttbr n && (n <? 48))).
Proof.
  intros H0 H1 chosen root. split; [|split; [|split; [|split]]].
  - assert (Hc : exists sel,
              WalkPageTable.choose_ttbr regs va
              = (sel, Some (Z.land chosen 0xFFFFFFFFFFFFFFFF))).
    { subst chosen. destruct (Z.testbit va 55) eqn:Hb.
      - rewrite (WalkPageTableFacts.choose_ttbr_kernel regs va Hb), H1.
        eexists. reflexivity.
      - rewrite (WalkPageTableFacts.choose_ttbr_user regs va Hb), H0.
        eexists. reflexivity. }
    destruct Hc as [sel Hc].
    destruct (WalkPageTableFacts.do_walk_first_read regs xp va _ _ Hc)
      as [Hread Hin].
    split; [exact Hread|]. split; [exact Hin|].
    intros n. apply WalkPageTableFacts.table_pa_unsigned_bits.
  - intros Hva. now apply Arm64PageTableWalkFacts.invoke_kernel.
  - intros Hva. now apply Arm64PageTableWalkFacts.invoke_user.
  - now apply Arm64PageTableWalkFacts.invoke_dump.
  - intros ttbr n. apply Arm64PageTableWalkFacts.base_bits.
Qed.


(** With [TTBR0_EL1 = 0x0001000040001001] (an ASID above bit 47, bit 0
    set) [do_walk] takes the table at [0x40001000]. *)
Lemma table_base_masking_witness :
  Examples.two_roots 0x0001000040001001 0x0002000050000000 "TTBR0_EL1"
    = Some 0x0001000040001001 /\
  Examples.two_roots 0x0001000040001001 0x0002000050000000 "TTBR1_EL1"
    = Some 0x0002000050000000 /\
  In (WalkPageTable.Print (WalkPageTable.PageTableBase 0x40001000))
     (fst (WalkPageTable.do_walk
             (Examples.two_roots 0x0001000040001001 0x0002000050000000)
             (MoreExamples.monitor_of Examples.unreadable) 0)).
Proof.
  split; [reflexivity|]. split; [reflexivity|].
  exact (proj1 (proj2 (proj1
           (table_base_masking
              (Examples.two_roots 0x0001000040001001 0x0002000050000000)
              (MoreExamples.monitor_of Examples.unreadable)
              Examples.unreadable 4 0
              0x0001000040001001 0x0002000050000000 eq_refl eq_refl)))).
Defined.

(** C3 as stated fails on [gdb_pagetable_walk.py]: with the same
    [TTBR0_EL1], [invoke] walks the table at [0x40001001], with a target
    and in the full dump alike: the low 12 bits of the register are still
    there, and the first entry is read at that address. *)
Lemma table_base_masking_counterexample :
  let regs := Examples.two_roots 0x0001000040001001 0x0002000050000000 in
  (exists tr,
     Arm64PageTableWalk.invoke regs Examples.unreadable 4
       (Arm64PageTableWalk.Address 0) = Some tr /\
     Arm64PageTableWalkTraces.printed tr =
     [Arm64PageTableWalk.Banner; Arm64PageTableWalk.SystemRegisters;
      Arm64PageTableWalk.ShowTTBR0 0x0001000040001001;
      Arm64PageTableWalk.ShowTTBR1 0x0002000050000000;
      Arm64PageTableWalk.Blank; Arm64PageTableWalk.Walking 0;
      Arm64PageTableWalk.UsingTTBR0 0x40001001;
      Arm64PageTableWalk.TableHeader 0 "PGD (L0)" 0x40001001;
      Arm64PageTableWalk.Footer] /\
     hd_error (filter Arm64PageTableWalkTraces.is_read tr)
     = Some (Arm64PageTableWalk.ReadMemory 0x40001001 8)) /\
  (exists tr,
     Arm64PageTableWalk.invoke regs Examples.unreadable 4
       Arm64PageTableWalk.NoArgument = Some tr /\
     Arm64PageTableWalkTraces.printed tr =
     [Arm64PageTableWalk.Banner; Arm64PageTableWalk.SystemRegisters;
      Arm64PageTableWalk.ShowTTBR0 0x0001000040001001;
      Arm64PageTableWalk.ShowTTBR1 0x0002000050000000;
      Arm64PageTableWalk.Blank; Arm64PageTableWalk.DumpTTBR0;
      Arm64PageTableWalk.TableHeader 0 "PGD (L0)" 0x40001001;
      Arm64PageTableWalk.DumpTTBR1;
      Arm64PageTableWalk.TableHeader 0 "PGD (L0)" 0x50000000;
      Arm64PageTableWalk.Footer]) /\
  0x40001001 <> Z.land 0x0001000040001001 0x0000FFFFFFFFF000 /\
  Z.land 0x40001001 0xFFF <> 0.
Proof.
  split; [|split; [|split]].
  - eexists. split; [vm_compute; reflexivity|].
    split; vm_compute; reflexivity.
  - eexists. split; vm_compute; reflexivity.
  - vm_compute. discriminate.
  - vm_compute. discriminate.
Qed.

(** C4, as amended.  [do_walk] takes [TTBR1_EL1] exactly when bit 55 of
    the address is set and [TTBR0_EL1] otherwise, whatever the other
    bits.  [invoke] of [gdb_pagetable_walk.py] takes [TTBR1_EL1] exactly
    when the target is at least [0xFFFF000000000000], for a 64-bit
    address when its bits 63 to 48 are all ones, and [TTBR0_EL1]
    otherwise. *)
Theorem root_selection (regs : regfile) (mem : physmem) (fuel : nat)
        (va ttbr0 ttbr1 : Z) :
  regs "TTBR0_EL1" = Some ttbr0 ->
  regs "TTBR1_EL1" = Some ttbr1 ->
  WalkPageTable.choose_ttbr regs va =
  (if Z.testbit va 55
   then ([WalkPageTable.ParseAndEval "TTBR1_EL1";
          WalkPageTable.Print
            (WalkPageTable.UsingTTBR1 (Z.land ttbr1 0xFFFFFFFFFFFFFFFF))],
         Some (Z.land ttbr1 0xFFFFFFFFFFFFFFFF))
   else ([WalkPageTable.ParseAndEval "TTBR0_EL1";
          WalkPageTable.Print
            (WalkPageTable.UsingTTBR0 (Z.land ttbr0 0xFFFFFFFFFFFFFFFF))],
         Some (Z.land ttbr0 0xFFFFFFFFFFFFFFFF))) /\
  Arm64PageTableWalk.invoke regs mem fuel (Arm64PageTableWalk.Address va) =
  (if 0xFFFF000000000000 <=? va
   then
     Arm64PageTableWalk.followed_by
       (Arm64PageTableWalkTraces.register_dump regs ++
        [Arm64PageTableWalk.Print (Arm64PageTableWalk.Walking va);
         Arm64PageTableWalk.Print
           (Arm64PageTableWalk.UsingTTBR1 (Arm64PageTableWalk.base ttbr1))])
       (Arm64PageTableWalk.followed_by_footer
          (Arm64PageTableWalk.walk_table mem fuel
             (Arm64PageTableWalk.base ttbr1) 0xFFFF000000000000 0
             (Some va) 512))
   else
     Arm64PageTableWalk.followed_by
       (Arm64PageTableWalkTraces.register_dump regs ++
        [Arm64PageTableWalk.Print (Arm64PageTableWalk.Walking va);
         Arm64PageTableWalk.Print
           (Arm64PageTableWalk.UsingTTBR0 (Arm64PageTableWalk.base ttbr0))])
       (Arm64PageTableWalk.followed_by_footer
          (Arm64PageTableWalk.walk_table mem fuel
             (Arm64PageTableWalk.base ttbr0) 0 0 (Some va) 512))) /\
  (0 <= va < 2 ^ 64 ->
   (0xFFFF000000000000 <=? va) = (Z.shiftr va 48 =? 0xFFFF)).
Proof.
  intros H0 H1. split; [|split].
  - destruct (Z.testbit va 55) eqn:Hb.
    + rewrite (WalkPageTableFacts.choose_ttbr_kernel regs va Hb), H1.
      reflexivity.
    + rewrite (WalkPageTableFacts.choose_ttbr_user regs va Hb), H0.
      reflexivity.
  - destruct (Z.leb_spec 0xFFFF000000000000 va) as [Hva|Hva].
    + now apply Arm64PageTableWalkFacts.invoke_kernel.
    + now apply Arm64PageTableWalkFacts.invoke_user.
  - intros Hr. rewrite Z.shiftr_div_pow2 by lia.
    change (2 ^ 48) with 281474976710656.
    change (2 ^ 64) with 18446744073709551616 in Hr.
    destruct (Z.leb_spec 0xFFFF000000000000 va),
             (Z.eqb_spec (va / 281474976710656) 0xFFFF);
      try reflexivity; exfalso;
      Z.div_mod_to_equations; lia.
Qed.

(** The address [0xFFFF800010000000] of the kernel goes to [TTBR1_EL1]
    in both scripts. *)
Lemma root_selection_witness :
  Examples.two_roots 0x41000000 0x42000000 "TTBR0_EL1" = Some 0x41000000 /\
  Examples.two_roots 0x41000000 0x42000000 "TTBR1_EL1" = Some 0x42000000 /\
  WalkPageTable.choose_ttbr (Examples.two_roots 0x41000000 0x42000000)
                            0xFFFF800010000000
  = ([WalkPageTable.ParseAndEval "TTBR1_EL1";
      WalkPageTable.Print (WalkPageTable.UsingTTBR1 0x42000000)],
     Some 0x42000000).
Proof.
  split; [reflexivity|]. split; [reflexivity|].
  exact (proj1 (root_selection (Examples.two_roots 0x41000000 0x42000000)
                  Examples.unreadable 4 0xFFFF800010000000
                  0x41000000 0x42000000 eq_refl eq_refl)).
Defined.

(** C4 as stated fails on [gdb_pagetable_walk.py]: the address
    [0x0080000000000000] has bit 55 set and upper bits that are not all
    ones; [do_walk] takes [TTBR1_EL1] for it, [invoke] takes
    [TTBR0_EL1]. *)
Lemma root_selection_counterexample :
  let regs := Examples.two_roots 0x41000000 0x42000000 in
  let va := 0x0080000000000000 in
  Z.testbit va 55 = true /\
  snd (WalkPageTable.choose_ttbr regs va) = Some 0x42000000 /\
  exists tr,
    Arm64PageTableWalk.invoke regs Examples.unreadable 4
      (Arm64PageTableWalk.Address va) = Some tr /\
    Arm64PageTableWalkTraces.printed tr =
    [Arm64PageTableWalk.Banner; Arm64PageTableWalk.SystemRegisters;
     Arm64PageTableWalk.ShowTTBR0 0x41000000;
     Arm64PageTableWalk.ShowTTBR1 0x42000000;
     Arm64PageTableWalk.Blank; Arm64PageTableWalk.Walking va;
     Arm64PageTableWalk.UsingTTBR0 0x41000000;
     Arm64PageTableWalk.TableHeader 0 "PGD (L0)" 0x41000000;
     Arm64PageTableWalk.Footer].
Proof.
  split; [reflexivity|]. split; [reflexivity|].
  eexists. split; vm_compute; reflexivity.
Qed.

(** C5, as amended.  In [do_walk] a valid entry at level 0 is followed as
    a table whatever its bit 1: the walk goes on at level 1 in the table
    the entry names.  In [walk_table] of [gdb_pagetable_walk.py] bit 1 is
    consulted at level 0 as at levels 1 and 2: with bit 1 set the entry
    is shown as a TABLE and the method calls itself on the table below;
    with bit 1 clear it is shown as a 512GB BLOCK and there is no call
    (the iteration completes even when a call would never return). *)
Theorem level0_descriptors (xp : WalkPageTable.monitor) (mem : physmem)
        (va current_table entry table_addr va_start i n max_entries : Z)
        (target_va : option Z) :
  Z.land entry 1 = 1 ->
  (WalkPageTable.giant xp (current_table + WalkPageTable.l0_idx va * 8)
   = WalkPageTable.Parsed entry ->
   WalkPageTable.walk_levels xp va 0 (WalkPageTable.levels va) current_table
   = (let '(tr, ex) :=
        WalkPageTable.walk_levels xp va 1 (tl (WalkPageTable.levels va))
                                  (Z.land entry 0x0000FFFFFFFFF000) in
      ((WalkPageTableTraces.fetched 0 "L0 (PGD)" (WalkPageTable.l0_idx va)
                                    current_table entry ++
        [WalkPageTable.Print WalkPageTable.Mapped;
         WalkPageTable.Print
           (WalkPageTable.TableNext (Z.land entry 0x0000FFFFFFFFF000))])
       ++ tr, ex))) /\
  (mem (table_addr + i * 8) = Some entry ->
   Arm64PageTableWalk.not_on_target_path 0 target_va i = false ->
   let never : Z -> Z -> option (list Arm64PageTableWalk.event) :=
     fun _ _ => None in
   if truthy (Z.land (Z.shiftr entry 1) 1)
   then
     Arm64PageTableWalk.decode_pte (Some entry) 0
     = Arm64PageTableWalk.TABLE (Z.land entry 0x0000FFFFFFFFF000) /\
     Arm64PageTableWalk.visit mem never table_addr va_start 0 target_va
                              max_entries i n = None
   else
     (exists ap xn sh af,
        Arm64PageTableWalk.decode_pte (Some entry) 0
        = Arm64PageTableWalk.LEAF "BLOCK" (Z.land entry 0x0000FFFFFFFFF000)
                                  "512GB" ap xn sh af) /\
     (exists tail st,
        Arm64PageTableWalk.visit mem never table_addr va_start 0 target_va
                                 max_entries i n
        = Some (Arm64PageTableWalk.ReadMemory (table_addr + i * 8) 8
                :: Arm64PageTableWalkTraces.shown va_start 0 i entry ++ tail,
                st) /\
        (tail = [] \/
         tail = [Arm64PageTableWalk.Print
                   (Arm64PageTableWalk.Truncated 0 (n + 1))]))).
Proof.
  intros Hv. split.
  - intros Hx. now apply WalkPageTableFacts.walk_level0_follows.
  - intros Hm Hp never.
    destruct (truthy (Z.land (Z.shiftr entry 1) 1)) eqn:Ht.
    + split.
      * unfold Arm64PageTableWalk.decode_pte.
        rewrite (Arm64PageTableWalkFacts.truthy_1 _ Hv), Ht. reflexivity.
      * unfold Arm64PageTableWalk.visit, Arm64PageTableWalk.read_u64.
        rewrite Hm, (Arm64PageTableWalkFacts.truthy_1 _ Hv), Hp, Ht.
        reflexivity.
    + split.
      * unfold Arm64PageTableWalk.decode_pte.
        rewrite (Arm64PageTableWalkFacts.truthy_1 _ Hv), Ht.
        cbn [negb Nat.ltb Nat.leb andb]. repeat eexists.
      * unfold Arm64PageTableWalk.visit, Arm64PageTableWalk.read_u64.
        rewrite Hm, (Arm64PageTableWalkFacts.truthy_1 _ Hv), Hp, Ht.
        cbn [negb Nat.ltb Nat.leb andb].
        destruct ((max_entries <=? n + 1)
                  && Arm64PageTableWalk.target_is_none target_va).
        -- exists [Arm64PageTableWalk.Print
                     (Arm64PageTableWalk.Truncated 0 (n + 1))].
           eexists. split; [reflexivity|]. right. reflexivity.
        -- exists []. eexists. split; [|left; reflexivity].
           rewrite app_nil_r. reflexivity.
Qed.

(** The level-0 entry [0x40000401], valid with bit 1 clear. *)
Lemma level0_descriptors_witness :
  Z.land 0x40000401 1 = 1 /\
  WalkPageTable.giant
    (MoreExamples.monitor_of (Examples.one_entry 0x40000401))
    (0x1000 + WalkPageTable.l0_idx 0 * 8)
  = WalkPageTable.Parsed 0x40000401 /\
  snd (WalkPageTable.walk_levels
         (MoreExamples.monitor_of (Examples.one_entry 0x40000401)) 0 0
         (WalkPageTable.levels 0) 0x1000)
  = snd (WalkPageTable.walk_levels
           (MoreExamples.monitor_of (Examples.one_entry 0x40000401)) 0 1
           (tl (WalkPageTable.levels 0)) 0x40000000).
Proof.
  split; [reflexivity|]. split; [reflexivity|].
  rewrite (proj1 (level0_descriptors
                    (MoreExamples.monitor_of (Examples.one_entry 0x40000401))
                    (Examples.one_entry 0x40000401)
                    0 0x1000 0x40000401 0x1000 0 0 0 512 (Some 0) eq_refl)
                 eq_refl).
  destruct (WalkPageTable.walk_levels
              (MoreExamples.monitor_of (Examples.one_entry 0x40000401)) 0 1
              (tl (WalkPageTable.levels 0))
              (Z.land 0x40000401 0x0000FFFFFFFFF000))
    as [tr ex] eqn:E.
  change (Z.land 0x40000401 0x0000FFFFFFFFF000) with 0x40000000 in E.
  rewrite E. reflexivity.
Defined.

(** C5 as stated fails on [gdb_pagetable_walk.py]: the level-0 entry
    [0x40000401] is valid with bit 1 clear; [walk_table] shows it as a
    block of 512GB and prints no table of level 1, where [do_walk] goes
    on to its step of level 1. *)
Lemma level0_descriptors_counterexample :
  (exists tr,
     Arm64PageTableWalk.walk_table (Examples.one_entry 0x40000401) 4
       0x1000 0 0 (Some 0) 512 = Some tr /\
     Arm64PageTableWalkTraces.printed tr =
     [Arm64PageTableWalk.TableHeader 0 "PGD (L0)" 0x1000;
      Arm64PageTableWalk.EntryLine 0 0 0
        (Arm64PageTableWalk.LEAF "BLOCK" 0x40000000 "512GB" "RW_EL1" "Exec"
                                 "Non-share" "Accessed");
      Arm64PageTableWalk.RawLine 0 0x40000401]) /\
  In (WalkPageTable.Print (WalkPageTable.Step 3 "L1 (PUD)"))
     (fst (WalkPageTable.do_walk
             (Examples.two_roots 0x1000 0x1000)
             (MoreExamples.monitor_of (Examples.one_entry 0x40000401)) 0)).
Proof.
  split.
  - eexists. split; vm_compute; reflexivity.
  - vm_compute. tauto.
Qed.




(** C7, as amended.  In [do_walk], an entry fetched with its valid bit
    clear ends the walk in that iteration: the function returns, the
    trace ends with the step of that level, the entry and the fault line,
    nothing before them reports an address, and the loop is left with the
    fault of that level.  In [walk_table] of [gdb_pagetable_walk.py] with
    a target, an entry at the index of the target that is invalid (or
    unreadable) is passed over in silence: there is no descent, the
    remaining indices are still read, and the output is the header of the
    table and nothing else. *)
Theorem invalid_entry_ends_walk (regs : regfile)
        (xp : WalkPageTable.monitor) (va : Z)
        (tr : list WalkPageTable.event) (out : WalkPageTable.outcome)
        (e : Z) :
  WalkPageTable.do_walk regs xp va = (tr, out) ->
  In (WalkPageTable.Print (WalkPageTable.RawEntry e)) tr ->
  Z.land e 1 = 0 ->
  (out = WalkPageTable.Returned /\
   exists (k : nat) name idx shift bm tbl pre,
     nth_error (WalkPageTable.levels va) k = Some (name, idx, shift, bm) /\
     WalkPageTable.giant xp (tbl + idx * 8) = WalkPageTable.Parsed e /\
     WalkPageTableTraces.loop_exit_of regs xp va
       = Some (WalkPageTable.ExitFault (Z.of_nat k) e) /\
     tr = pre ++ WalkPageTableTraces.fetched (Z.of_nat k) name idx tbl e
              ++ [WalkPageTable.Print WalkPageTable.Fault] /\
     forallb WalkPageTableTraces.descending pre = true) /\
  (forall (mem : physmem) (fuel : nat) (table_addr va_start : Z)
          (level : nat) (target max_entries : Z),
     (level <= 3)%nat ->
     Arm64PageTableWalkTraces.present mem
       (table_addr
        + Arm64PageTableWalkTraces.idx_for_target target level * 8) = false ->
     Arm64PageTableWalk.walk_table mem (S fuel) table_addr va_start level
                                   (Some target) max_entries
     = Some (Arm64PageTableWalk.Print
               (Arm64PageTableWalk.TableHeader level
                  (nth level Arm64PageTableWalk.level_names "") table_addr)
             :: List.map
                  (fun i =>
                     Arm64PageTableWalk.ReadMemory (table_addr + i * 8) 8)
                  Arm64PageTableWalk.range512)).
Proof.
  intros Hd Hin Hv. split.
  - eapply WalkPageTableFacts.do_walk_invalid; eassumption.
  - intros. now apply Arm64PageTableWalkFacts.walk_table_target_absent.
Qed.

(** A level-0 entry of zero: [do_walk] stops at level 0 with the fault. *)
Lemma invalid_entry_ends_walk_witness :
  WalkPageTable.do_walk (Examples.two_roots 0x1000 0x5000)
                        (MoreExamples.monitor_of Examples.zeroes) 0
  = (fst (WalkPageTable.do_walk (Examples.two_roots 0x1000 0x5000)
                                (MoreExamples.monitor_of Examples.zeroes) 0),
     WalkPageTable.Returned) /\
  Z.land 0 1 = 0 /\
  exists k : nat,
    WalkPageTableTraces.loop_exit_of (Examples.two_roots 0x1000 0x5000)
                                     (MoreExamples.monitor_of Examples.zeroes) 0
    = Some (WalkPageTable.ExitFault (Z.of_nat k) 0).
Proof.
  assert (Hd : WalkPageTable.do_walk (Examples.two_roots 0x1000 0x5000)
                                     (MoreExamples.monitor_of Examples.zeroes) 0
               = (fst (WalkPageTable.do_walk
                         (Examples.two_roots 0x1000 0x5000)
                         (MoreExamples.monitor_of Examples.zeroes) 0),
                  WalkPageTable.Returned)) by reflexivity.
  split; [exact Hd|]. split; [reflexivity|].
  assert (Hin : In (WalkPageTable.Print (WalkPageTable.RawEntry 0))
                   (fst (WalkPageTable.do_walk
                           (Examples.two_roots 0x1000 0x5000)
                           (MoreExamples.monitor_of Examples.zeroes) 0)))
    by (vm_compute; tauto).
  destruct (proj1 (invalid_entry_ends_walk _ _ _ _ _ 0 Hd Hin eq_refl))
    as (_ & k & name & idx & shift & bm & tbl & pre & _ & _ & Hex & _).
  exists k. exact Hex.
Defined.

(** C7 as stated fails on [walk_table] with a target: the entry of the
    target at level 0 is zero, its valid bit clear; the walk prints the
    header of the table and nothing else, no fault and no level, and goes
    on reading the 511 entries after it. *)
Lemma invalid_entry_ends_walk_counterexample :
  exists tr,
    Arm64PageTableWalk.walk_table Examples.zeroes 4 0x1000 0 0
                                  (Some 0x123456789) 512 = Some tr /\
    Examples.zeroes
      (0x1000 + Arm64PageTableWalkTraces.idx_for_target 0x123456789 0 * 8)
    = Some 0 /\
    Arm64PageTableWalkTraces.printed tr
    = [Arm64PageTableWalk.TableHeader 0 "PGD (L0)" 0x1000] /\
    Arm64PageTableWalkTraces.reads tr = 512.
Proof.
  eexists. split; [vm_compute; reflexivity|].
  split; [reflexivity|]. split; vm_compute; reflexivity.
Qed.

(** C8, as amended.  During the enumeration an entry whose valid bit is
    clear and an entry whose read fails are treated alike: the loop goes
    on to the next index with nothing printed.  Two memories that differ
    only in which absent entries are unreadable and which are invalid
    give the same output, reads included; no line of any output flags an
    entry as unreadable or as invalid; and the entries after an absent
    one are enumerated as if it were not there. *)
Theorem enumeration_skips (mem : physmem) (fuel : nat)
        (table_addr va_start : Z) (level : nat) (target_va : option Z)
        (max_entries : Z) :
  (forall mem' : physmem,
     (forall a, Arm64PageTableWalkTraces.visible mem a
                = Arm64PageTableWalkTraces.visible mem' a) ->
     Arm64PageTableWalk.walk_table mem fuel table_addr va_start level
                                   target_va max_entries
     = Arm64PageTableWalk.walk_table mem' fuel table_addr va_start level
                                     target_va max_entries) /\
  (forall tr,
     Arm64PageTableWalk.walk_table mem fuel table_addr va_start level
                                   target_va max_entries = Some tr ->
     forallb (fun ev => negb (Arm64PageTableWalkTraces.flags_failure ev)) tr
     = true) /\
  (forall recurse i rest n,
     Arm64PageTableWalkTraces.present mem (table_addr + i * 8) = false ->
     Arm64PageTableWalk.walk_entries mem recurse table_addr va_start level
                                     target_va max_entries (i :: rest) n
     = Arm64PageTableWalk.followed_by
         [Arm64PageTableWalk.ReadMemory (table_addr + i * 8) 8]
         (Arm64PageTableWalk.walk_entries mem recurse table_addr va_start
            level target_va max_entries rest n)).
Proof.
  split; [|split].
  - intros mem' Hvis.
    now apply Arm64PageTableWalkFacts.walk_table_visible.
  - intros tr H.
    eapply Arm64PageTableWalkFacts.walk_table_no_flag, H.
  - intros recurse i rest n Hpr.
    now apply Arm64PageTableWalkFacts.walk_entries_skip.
Qed.

(** The table whose entry 0 cannot be read and the table whose entry 0 is
    zero: the same enumeration. *)
Lemma enumeration_skips_witness :
  (forall a, Arm64PageTableWalkTraces.visible (Examples.hole_then 0x40000401) a
             = Arm64PageTableWalkTraces.visible
                 (Examples.zero_then 0x40000401) a) /\
  Arm64PageTableWalk.walk_table (Examples.hole_then 0x40000401) 4
                                0x1000 0 0 None 10
  = Arm64PageTableWalk.walk_table (Examples.zero_then 0x40000401) 4
                                  0x1000 0 0 None 10.
Proof.
  assert (Hvis : forall a,
            Arm64PageTableWalkTraces.visible (Examples.hole_then 0x40000401) a
            = Arm64PageTableWalkTraces.visible
                (Examples.zero_then 0x40000401) a).
  { intros a. unfold Arm64PageTableWalkTraces.visible,
      Examples.hole_then, Examples.zero_then.
    destruct (a =? 0x1000) eqn:E0; [|reflexivity].
    apply Z.eqb_eq in E0. subst a. reflexivity. }
  split; [exact Hvis|].
  exact (proj1 (enumeration_skips (Examples.hole_then 0x40000401) 4
                  0x1000 0 0 None 10) _ Hvis).
Defined.

(** C8 as stated fails: in the full enumeration of the table whose
    entry 0 cannot be read, the read of entry 0 is attempted and what is
    printed is the header and the entry of index 1; no line flags
    entry 0, and the output is that of the table whose entry 0 is
    zero. *)
Lemma enumeration_skips_counterexample :
  exists tr,
    Arm64PageTableWalk.walk_table (Examples.hole_then 0x40000401) 4
                                  0x1000 0 0 None 10 = Some tr /\
    Examples.hole_then 0x40000401 (0x1000 + 0 * 8) = None /\
    nth_error tr 1 = Some (Arm64PageTableWalk.ReadMemory (0x1000 + 0 * 8) 8)
    /\
    Arm64PageTableWalkTraces.printed tr =
    [Arm64PageTableWalk.TableHeader 0 "PGD (L0)" 0x1000;
     Arm64PageTableWalk.EntryLine 0 1 0x8000000000
       (Arm64PageTableWalk.LEAF "BLOCK" 0x40000000 "512GB" "RW_EL1" "Exec"
                                "Non-share" "Accessed");
     Arm64PageTableWalk.RawLine 0 0x40000401] /\
    Arm64PageTableWalk.walk_table (Examples.zero_then 0x40000401) 4
                                  0x1000 0 0 None 10 = Some tr.
Proof.
  eexists. split; [vm_compute; reflexivity|].
  split; [reflexivity|]. split; [vm_compute; reflexivity|].
  split; vm_compute; reflexivity.
Qed.

(** C10.  The enumeration returns for every memory: a call at level
    [level] returns as soon as it may nest [4 - level] calls deep (and
    allowing more depth changes nothing), it reads at most
    [reads_bound (4 - level)] entries, 512 per table, and every line it
    prints belongs to a table of a level from [level] to 3; from level 0
    that is at most four tables deep and at most 512 + 512^2 + 512^3 +
    512^4 reads.  The walk of [do_walk] is a loop over four rows and
    reads at most four entries. *)
Theorem enumeration_terminates (mem : physmem) (table_addr va_start : Z)
        (level : nat) (target_va : option Z) (max_entries : Z)
        (extra : nat) :
  (exists tr,
     Arm64PageTableWalk.walk_table mem (S (3 - level)) table_addr va_start
                                   level target_va max_entries = Some tr /\
     Arm64PageTableWalk.walk_table mem (S (3 - level) + extra) table_addr
                                   va_start level target_va max_entries
     = Some tr /\
     Arm64PageTableWalkTraces.reads tr
     <= Arm64PageTableWalkTraces.reads_bound (4 - level) /\
     forallb (Arm64PageTableWalkTraces.within level) tr = true) /\
  Arm64PageTableWalkTraces.reads_bound 4 = 512 + 512 ^ 2 + 512 ^ 3 + 512 ^ 4
  /\
  (forall (regs : regfile) (xp : WalkPageTable.monitor) (va : Z),
     (List.length (filter WalkPageTableTraces.is_read
                          (fst (WalkPageTable.do_walk regs xp va)))
      <= 4)%nat).
Proof.
  split; [|split].
  - destruct (Arm64PageTableWalkFacts.walk_table_total mem target_va
                max_entries (S (3 - level)) table_addr va_start level
                (Nat.le_refl _)) as [tr Htr].
    exists tr. split; [exact Htr|]. split; [|split].
    + now apply Arm64PageTableWalkFacts.walk_table_mono.
    + eapply Arm64PageTableWalkFacts.walk_table_reads, Htr.
    + eapply Arm64PageTableWalkFacts.walk_table_within, Htr.
  - reflexivity.
  - intros regs xp va. apply WalkPageTableFacts.do_walk_reads.
Qed.

(** The self-referential memory, walked from level 1 with a target:
    three tables deep and no further. *)
Example enumeration_of_a_cycle :
  option_map (fun tr => (Arm64PageTableWalkTraces.reads tr,
                         List.length (Arm64PageTableWalkTraces.printed tr)))
             (Arm64PageTableWalk.walk_table Examples.self_referential 3
                0 0 1 (Some 0) 512)
  = Some (1536, 9%nat).
Proof. vm_compute. reflexivity. Qed.

(** * Further properties *)

(** ** [do_walk]: how a walk can end *)

Module WalkPageTableEnds.
Import WalkPageTable WalkPageTableTraces WalkPageTableFacts.

Lemma below_2_48 (x : Z) :
  (forall n, 48 <= n -> Z.testbit x n = false) -> 0 <= x < 2 ^ 48.
Proof.
  intros H.
  assert (Hx : x = Z.land x (Z.ones 48)).
  { apply Z.bits_inj'; intros n Hn.
    rewrite Z.land_spec, testbit_ones by lia.
    destruct (Z.leb_spec 0 n); [|lia].
    destruct (Z.ltb_spec n 48); cbn [andb].
    - now rewrite andb_true_r.
    - rewrite H by lia. reflexivity. }
  rewrite Hx, Z.land_ones by lia.
  apply Z.mod_pos_bound. reflexivity.
Qed.

Lemma page_address_bits (entry va n : Z) :
  0 <= n ->
  Z.testbit (Z.lor (Z.land entry 0x0000FFFFFFFFF000) (offset va)) n
  = if n <? 12 then Z.testbit va n else Z.testbit entry n && (n <? 48).
Proof. intros Hn. apply (block_address_bits entry va 12 n); lia. Qed.

Section Ends.
Variable xp : monitor.
Variable va : Z.

Lemma walk_level_raise_inv level name idx shift bm tbl seg :
  walk_level xp va level (name, idx, shift, bm) tbl = (seg, StepRaise) ->
  bm = None /\ 0 < level.
Proof.
  intros H.
  pose proof (walk_level_iteration xp va level name idx shift tbl bm) as Hit.
  rewrite H in Hit. inversion Hit; subst.
  destruct bm as [m|]; [discriminate|]. split; [reflexivity|assumption].
Qed.

Lemma walk_level_unreadable_inv level name idx shift bm tbl seg pa :
  walk_level xp va level (name, idx, shift, bm) tbl
    = (seg, StepReturnUnreadable pa) ->
  pa = tbl + idx * 8 /\ giant xp pa = Unparsed /\
  seg = [Print (Step (level + 2) name);
         Print (TablePA tbl);
         Print (EntryPA tbl idx pa);
         MonitorXpGiant pa;
         Print (ReadError pa)].
Proof.
  intros H.
  pose proof (walk_level_iteration xp va level name idx shift tbl bm) as Hit.
  rewrite H in Hit. inversion Hit; subst.
  - repeat split; assumption.
  - destruct bm; discriminate.
Qed.

(** The loop runs out of rows only if no row is that of level 3. *)
Lemma walk_levels_exhausted rows : forall level current_table tr,
  walk_levels xp va level rows current_table = (tr, ExitExhausted) ->
  forall k, (k < List.length rows)%nat -> level + Z.of_nat k <> 3.
Proof.
  induction rows as [|[[[name idx] shift] bm] rows IH];
    intros level tbl tr H k Hk; [cbn in Hk; lia|].
  cbn [walk_levels] in H.
  destruct (walk_level xp va level (name, idx, shift, bm) tbl)
    as [seg s] eqn:E.
  destruct s as [pa|e|e f|e next| |pa]; try discriminate.
  destruct (walk_levels xp va (level + 1) rows next) as [tr' ex'] eqn:E'.
  assert (ex' = ExitExhausted) by congruence. subst ex'.
  pose proof (walk_level_iteration xp va level name idx shift tbl bm) as Hit.
  rewrite E in Hit.
  assert (H3 : level <> 3).
  { inversion Hit; subst; [destruct bm; discriminate|assumption]. }
  destruct k as [|k]; [rewrite Z.add_0_r; exact H3|].
  cbn [List.length] in Hk.
  replace (level + Z.of_nat (S k)) with (level + 1 + Z.of_nat k) by lia.
  eapply IH; [exact E'|lia].
Qed.

(** On the four rows of [levels] the loop is left by [return] or by
    [break]: no row is left over and [entry & None] is never evaluated. *)
Lemma walk_levels_ends current_table tr ex :
  walk_levels xp va 0 (levels va) current_table = (tr, ex) ->
  ex <> ExitRaise /\ ex <> ExitExhausted.
Proof.
  intros H. split; intros ->.
  - destruct (walk_levels_stops _ _ _ _ _ _ _ H) as [[Hex _]|
      (k & name & idx & shift & bm & tbl & pre & seg & s &
       Hnth & Hw & Hex & _ & _)]; [discriminate|].
    destruct s; try discriminate.
    apply walk_level_raise_inv in Hw. destruct Hw as [-> Hk].
    destruct k as [|[|[|[|k]]]]; cbn in Hnth; try discriminate;
      try lia; destruct k; discriminate.
  - apply (walk_levels_exhausted _ _ _ _ H 3%nat); cbn; lia.
Qed.

End Ends.

Section Walks.
Variable regs : regfile.
Variable xp : monitor.
Variable va : Z.

Lemma loop_exit_of_inv ex :
  loop_exit_of regs xp va = Some ex ->
  exists sel ttbr tr,
    choose_ttbr regs va = (sel, Some ttbr) /\
    walk_levels xp va 0 (levels va) (table_pa ttbr) = (tr, ex).
Proof.
  unfold loop_exit_of.
  destruct (choose_ttbr regs va) as [sel [ttbr|]] eqn:Hc; cbn [snd];
    [|discriminate].
  destruct (walk_levels xp va 0 (levels va) (table_pa ttbr)) as [tr ex']
    eqn:Hw.
  cbn [snd]. intros H. injection H as <-.
  exists sel, ttbr, tr. split; [reflexivity|exact Hw].
Qed.

(** How a break can come about: a page at level 3, a block at level 1
    or 2. *)
Lemma walk_break_cases current_table tr level entry final_pa :
  walk_levels xp va 0 (levels va) current_table
    = (tr, ExitBreak level entry final_pa) ->
  Z.land entry 1 = 1 /\
  ((level = 3 /\
    final_pa = Z.lor (Z.land entry 0x0000FFFFFFFFF000) (offset va)) \/
   ((level = 1 \/ level = 2) /\
    final_pa = Z.lor (Z.land entry (levelMask level))
                     (Z.land va (Z.shiftl 1 (levelShift level) - 1)))).
Proof.
  intros H.
  destruct (walk_levels_stops _ _ _ _ _ _ _ H) as [[Hex _]|
    (k & name & idx & shift & bm & tbl & pre & seg & s &
     Hnth & Hw & Hex & _ & _)]; [discriminate|].
  destruct s; try discriminate. injection Hex as <- <- <-.
  apply walk_level_break_inv in Hw.
  destruct Hw as (_ & Hv & [[H3 Hf]|(H3 & H0 & _ & m & Hm & Hf & _)]).
  - split; [exact Hv|]. left. split; assumption.
  - split; [exact Hv|]. right.
    destruct k as [|[|[|[|k]]]]; cbn in Hnth; try lia;
      try (destruct k; discriminate).
    + injection Hnth as ? ? ? ?; subst. injection Hm as ?; subst.
      split; [left; reflexivity|reflexivity].
    + injection Hnth as ? ? ? ?; subst. injection Hm as ?; subst.
      split; [right; reflexivity|reflexivity].
Qed.

End Walks.

(** X1.  When [do_walk] ends at level 3 the entry is taken as a page
    whatever its bit 1: the final physical address is the entry under the
    mask of bits [47:12] completed by the low 12 bits of the address, and
    that is what the result block reports and what the verification read
    asks the monitor for; the footer follows and the call returns when
    that read goes through, and the call raises when it does not. *)
Theorem page_final_address (regs : regfile) (xp : monitor)
        (va entry final_pa : Z) :
  loop_exit_of regs xp va = Some (ExitBreak 3 entry final_pa) ->
  Z.land entry 1 = 1 /\
  final_pa = Z.lor (Z.land entry 0x0000FFFFFFFFF000) (Z.land va 0xFFF) /\
  (forall n, 0 <= n ->
     Z.testbit final_pa n =
     if n <? 12 then Z.testbit va n else Z.testbit entry n && (n <? 48)) /\
  exists pre,
    do_walk regs xp va
    = (pre ++
       [Print (Result va (l0_idx va) (l1_idx va) (l2_idx va) (l3_idx va)
                      (offset va) final_pa);
        Print (Verification final_pa);
        MonitorXpWord final_pa (word xp final_pa)]
       ++ match word xp final_pa with
          | Some _ => [Print Footer]
          | None => []
          end,
       match word xp final_pa with
       | Some _ => Returned
       | None => Raised
       end).
Proof.
  intros H.
  destruct (loop_exit_of_inv _ _ _ _ H) as (sel & ttbr & tr & Hc & Hw).
  destruct (walk_break_cases _ _ _ _ _ _ _ Hw) as (Hv & [[_ Hf]|[Hl _]]);
    [|lia].
  split; [exact Hv|]. split; [exact Hf|]. split.
  - intros n Hn. rewrite Hf. now apply page_address_bits.
  - rewrite (do_walk_readable _ _ _ _ _ Hc), Hw, report_found.
    cbn [fst snd].
    exists (prelude va sel ttbr ++ tr). now rewrite <- app_assoc.
Qed.

(** The page [0x41000403] reached through four tables, for the address
    [0x95c]. *)
Lemma page_final_address_witness :
  loop_exit_of (Examples.two_roots 0x1000 0x5000)
               (MoreExamples.monitor_of (MoreExamples.four_levels 0x41000403))
               0x95c
  = Some (ExitBreak 3 0x41000403 0x4100095c) /\
  0x4100095c = Z.lor (Z.land 0x41000403 0x0000FFFFFFFFF000)
                     (Z.land 0x95c 0xFFF).
Proof.
  assert (H : loop_exit_of
                (Examples.two_roots 0x1000 0x5000)
                (MoreExamples.monitor_of (MoreExamples.four_levels 0x41000403))
                0x95c
              = Some (ExitBreak 3 0x41000403 0x4100095c)) by reflexivity.
  split; [exact H|].
  exact (proj1 (proj2 (page_final_address _ _ _ _ _ H))).
Defined.

(** X2.  When [read_phys_u64] finds no number in the reply for an entry
    and returns [None], [do_walk] prints the error line for that address
    and returns: the read and the error line are the last events, there
    is no result block and no footer, and every entry shown before was a
    valid entry that was followed. *)
Theorem unreadable_entry_ends_walk (regs : regfile) (xp : monitor)
        (va level entry_pa : Z) :
  loop_exit_of regs xp va = Some (ExitUnreadable level entry_pa) ->
  giant xp entry_pa = Unparsed /\ 0 <= level <= 3 /\
  exists pre,
    do_walk regs xp va
    = (pre ++ [MonitorXpGiant entry_pa; Print (ReadError entry_pa)],
       Returned) /\
    forallb descending pre = true.
Proof.
  intros H.
  destruct (loop_exit_of_inv _ _ _ _ H) as (sel & ttbr & tr & Hc & Hw).
  destruct (walk_levels_stops _ _ _ _ _ _ _ Hw) as [[Hex _]|
    (k & name & idx & shift & bm & tbl & pre & seg & s &
     Hnth & Hl & Hex & Htr & Hpre)]; [discriminate|].
  destruct s as [pa| | | | |]; try discriminate.
  injection Hex as Hk Hpa'. subst pa.
  apply walk_level_unreadable_inv in Hl. destruct Hl as (Hpa & Hx & Hseg).
  split; [exact Hx|]. split.
  - assert (Hlen : (k < List.length (levels va))%nat)
      by (apply nth_error_Some; rewrite Hnth; discriminate).
    cbn [levels List.length] in Hlen. lia.
  - rewrite (do_walk_readable _ _ _ _ _ Hc), Hw. cbv iota.
    exists (prelude va sel ttbr ++ pre ++
            [Print (Step (0 + Z.of_nat k + 2) name);
             Print (TablePA tbl);
             Print (EntryPA tbl idx entry_pa)]).
    split.
    + rewrite Htr, Hseg. f_equal. rewrite <- !app_assoc. reflexivity.
    + rewrite !forallb_app, (prelude_descending _ _ _ _ Hc), Hpre.
      reflexivity.
Qed.

(** The level-2 table at 0x3000 of a memory with two tables only. *)
Lemma unreadable_entry_ends_walk_witness :
  loop_exit_of (Examples.two_roots 0x1000 0x5000)
               (MoreExamples.monitor_of (Examples.one_path 0x3003))
               0x100000000
  = Some (ExitUnreadable 2 0x3000) /\
  giant (MoreExamples.monitor_of (Examples.one_path 0x3003)) 0x3000
  = Unparsed.
Proof.
  assert (H : loop_exit_of (Examples.two_roots 0x1000 0x5000)
                (MoreExamples.monitor_of (Examples.one_path 0x3003))
                0x100000000
              = Some (ExitUnreadable 2 0x3000)) by reflexivity.
  split; [exact H|].
  exact (proj1 (unreadable_entry_ends_walk _ _ _ _ _ H)).
Defined.

(** *** When the walk raises *)

Lemma walk_level_failed_inv xp va level name idx shift bm tbl seg pa :
  walk_level xp va level (name, idx, shift, bm) tbl
    = (seg, StepMonitorError pa) ->
  pa = tbl + idx * 8 /\ giant xp pa = Failed /\
  seg = [Print (Step (level + 2) name);
         Print (TablePA tbl);
         Print (EntryPA tbl idx pa);
         MonitorXpGiant pa].
Proof.
  intros H.
  pose proof (walk_level_iteration xp va level name idx shift tbl bm) as Hit.
  rewrite H in Hit. inversion Hit; subst.
  - destruct bm; discriminate.
  - repeat split; assumption.
Qed.

Lemma choose_ttbr_root (regs : regfile) (va : Z) :
  choose_ttbr regs va =
  match regs (if Z.testbit va 55 then "TTBR1_EL1" else "TTBR0_EL1") with
  | Some val =>
      (fst (choose_ttbr regs va), Some (Z.land val 0xFFFFFFFFFFFFFFFF))
  | None =>
      ([ParseAndEval (if Z.testbit va 55 then "TTBR1_EL1" else "TTBR0_EL1")],
       None)
  end.
Proof.
  destruct (Z.testbit va 55) eqn:Hb.
  - rewrite (choose_ttbr_kernel regs va Hb).
    destruct (regs "TTBR1_EL1"); reflexivity.
  - rewrite (choose_ttbr_user regs va Hb).
    destruct (regs "TTBR0_EL1"); reflexivity.
Qed.

(** The outcome of [do_walk], from the root register and the exit of
    the loop. *)
Lemma do_walk_raised (regs : regfile) (xp : monitor) (va : Z) :
  snd (do_walk regs xp va) = Raised <->
  regs (if Z.testbit va 55 then "TTBR1_EL1" else "TTBR0_EL1") = None \/
  monitor_fails regs xp va = true.
Proof.
  pose proof (choose_ttbr_root regs va) as Hc.
  unfold monitor_fails, loop_exit_of.
  destruct (regs (if Z.testbit va 55 then "TTBR1_EL1" else "TTBR0_EL1"))
    as [val|].
  - rewrite (do_walk_readable _ _ _ _ _ Hc), Hc. cbn [snd].
    destruct (walk_levels xp va 0 (levels va)
                (table_pa (Z.land val 0xFFFFFFFFFFFFFFFF))) as [tr ex] eqn:Hw.
    destruct (walk_levels_ends _ _ _ _ _ Hw) as [Hr He].
    destruct ex as [l pa|l e|l e final_pa| | |l pa]; cbn [snd];
      try contradiction;
      try (split; [discriminate|intros [?|?]; discriminate]);
      try (split; [right|]; reflexivity).
    rewrite report_found. cbn [snd].
    destruct (word xp final_pa);
      [split; [discriminate|intros [?|?]; discriminate]
      |split; [right|]; reflexivity].
  - unfold do_walk. rewrite Hc. split; [left|]; reflexivity.
Qed.

(** X3.  [do_walk] is left by an exception in three cases and in no
    other.  The register of the root, chosen by bit 55 of the address,
    cannot be read: the call raises before any monitor command.  The
    read of an entry raises in [read_phys_u64]: that command is the last
    event.  The loop ended at a page or a block and the verification
    read raises: the footer is not printed.  In every other case the
    call returns: the loop over the four levels never runs out of rows
    and the missing block mask of level 0 is never used. *)
Theorem do_walk_raises_on_failure (regs : regfile) (xp : monitor) (va : Z) :
  let root := if Z.testbit va 55 then "TTBR1_EL1" else "TTBR0_EL1" in
  match regs root with
  | None =>
      do_walk regs xp va = ([Print (Banner va); ParseAndEval root], Raised)
  | Some _ =>
      exists ex,
        loop_exit_of regs xp va = Some ex /\
        ex <> ExitRaise /\ ex <> ExitExhausted /\
        (snd (do_walk regs xp va) = Raised <->
         (exists level pa, ex = ExitMonitorError level pa) \/
         (exists level entry final_pa,
            ex = ExitBreak level entry final_pa /\
            word xp final_pa = None)) /\
        (forall level pa,
           ex = ExitMonitorError level pa ->
           giant xp pa = Failed /\ 0 <= level <= 3 /\
           exists pre,
             fst (do_walk regs xp va) = pre ++ [MonitorXpGiant pa] /\
             forallb descending pre = true) /\
        (forall level entry final_pa,
           ex = ExitBreak level entry final_pa ->
           word xp final_pa = None ->
           exists pre,
             fst (do_walk regs xp va)
             = pre ++ [MonitorXpWord final_pa None])
  end /\
  ((forall pa, giant xp pa <> Failed) ->
   (forall pa, word xp pa <> None) ->
   (snd (do_walk regs xp va) = Raised <-> regs root = None)).
Proof.
  intros root. pose proof (choose_ttbr_root regs va) as Hc. fold root in Hc.
  split.
  - destruct (regs root) as [val|];
      [|unfold do_walk; rewrite Hc; reflexivity].
    rewrite (do_walk_readable _ _ _ _ _ Hc).
    unfold loop_exit_of. rewrite Hc. cbn [snd].
    destruct (walk_levels xp va 0 (levels va)
                (table_pa (Z.land val 0xFFFFFFFFFFFFFFFF))) as [tr ex] eqn:Hw.
    destruct (walk_levels_ends _ _ _ _ _ Hw) as [Hr He].
    exists ex. split; [reflexivity|]. split; [exact Hr|].
    split; [exact He|]. split; [|split].
    + destruct ex as [l pa|l e|l e final_pa| | |l pa]; cbn [snd];
        try contradiction.
      * split; [discriminate|].
        intros [(l' & p' & H)|(l' & e' & f' & H & _)]; discriminate.
      * split; [discriminate|].
        intros [(l' & p' & H)|(l' & e' & f' & H & _)]; discriminate.
      * rewrite report_found. cbn [snd].
        destruct (word xp final_pa) as [text|] eqn:Hword.
        -- split; [discriminate|].
           intros [(l' & p' & H)|(l' & e' & f' & H & Hn)];
             [discriminate|].
           injection H as _ _ <-. congruence.
        -- split; [|reflexivity]. intros _. right.
           exists l, e, final_pa. split; [reflexivity|exact Hword].
      * split; [|reflexivity]. intros _. left. exists l, pa. reflexivity.
    + intros level pa ->.
      destruct (walk_levels_stops _ _ _ _ _ _ _ Hw) as [[Hex _]|
        (k & name & idx & shift & bm & tbl & pre & seg & s &
         Hnth & Hl & Hex & Htr & Hpre)]; [discriminate|].
      destruct s as [p| | | | |p]; try discriminate.
      injection Hex as Hk Hp. subst p.
      apply walk_level_failed_inv in Hl. destruct Hl as (Hpa & Hx & Hseg).
      split; [exact Hx|]. split.
      * assert (Hlen : (k < List.length (levels va))%nat)
          by (apply nth_error_Some; rewrite Hnth; discriminate).
        cbn [levels List.length] in Hlen. lia.
      * cbn [fst].
        exists (prelude va (fst (choose_ttbr regs va))
                        (Z.land val 0xFFFFFFFFFFFFFFFF) ++ pre ++
                [Print (Step (0 + Z.of_nat k + 2) name);
                 Print (TablePA tbl);
                 Print (EntryPA tbl idx pa)]).
        split.
        -- rewrite Htr, Hseg. rewrite <- !app_assoc. reflexivity.
        -- rewrite !forallb_app, (prelude_descending _ _ _ _ Hc), Hpre.
           reflexivity.
    + intros level entry final_pa -> Hword.
      rewrite report_found, Hword. cbn [fst].
      exists (prelude va (fst (choose_ttbr regs va))
                      (Z.land val 0xFFFFFFFFFFFFFFFF) ++ tr ++
              [Print (Result va (l0_idx va) (l1_idx va) (l2_idx va)
                             (l3_idx va) (offset va) final_pa);
               Print (Verification final_pa)]).
      rewrite app_nil_r, <- !app_assoc. reflexivity.
  - intros Hg Hword. rewrite do_walk_raised. fold root.
    split; [|intros H; left; exact H].
    intros [H|H]; [exact H|exfalso].
    unfold monitor_fails in H.
    destruct (loop_exit_of regs xp va) as [[l pa|l e|l e f| | |l pa]|]
      eqn:Hex; try discriminate.
    + destruct (word xp f) eqn:Hf; [discriminate|].
      exact (Hword _ Hf).
    + destruct (loop_exit_of_inv _ _ _ _ Hex)
        as (sel & ttbr & tr & _ & Hw).
      destruct (walk_levels_stops _ _ _ _ _ _ _ Hw) as [[Hx _]|
        (k & name & idx & shift & bm & tbl & pre & seg & s &
         _ & Hl & Hx & _ & _)]; [discriminate|].
      destruct s as [p| | | | |p]; try discriminate.
      injection Hx as _ Hp. subst p.
      apply walk_level_failed_inv in Hl. destruct Hl as (_ & Hfail & _).
      exact (Hg _ Hfail).
Qed.

(** A monitor that answers every command: the walk for [0x123456789]
    raises exactly when [TTBR0_EL1] cannot be read, and it can. *)
Lemma do_walk_raises_on_failure_witness :
  (forall pa,
     giant (MoreExamples.monitor_of (Examples.one_path 0x40000601)) pa
     <> Failed) /\
  (forall pa,
     word (MoreExamples.monitor_of (Examples.one_path 0x40000601)) pa
     <> None) /\
  (snd (do_walk (Examples.two_roots 0x1000 0x5000)
                (MoreExamples.monitor_of (Examples.one_path 0x40000601))
                0x123456789) = Raised <->
   Examples.two_roots 0x1000 0x5000 "TTBR0_EL1" = None).
Proof.
  assert (Hg : forall pa,
            giant (MoreExamples.monitor_of (Examples.one_path 0x40000601)) pa
            <> Failed).
  { intros pa. cbn [giant MoreExamples.monitor_of]. unfold reply_of.
    destruct (Examples.one_path 0x40000601 pa); discriminate. }
  assert (Hw : forall pa,
            word (MoreExamples.monitor_of (Examples.one_path 0x40000601)) pa
            <> None)
    by (intros pa; discriminate).
  split; [exact Hg|]. split; [exact Hw|].
  exact (proj2 (do_walk_raises_on_failure
                  (Examples.two_roots 0x1000 0x5000)
                  (MoreExamples.monitor_of (Examples.one_path 0x40000601))
                  0x123456789) Hg Hw).
Defined.

(** The same walk when the monitor fails on the read of the level-1
    entry: the call is left by the exception, the read is the last
    event. *)
Example walk_left_by_failed_read :
  let xp := MoreExamples.failing_at 0x2020 (Examples.one_path 0x40000601) in
  loop_exit_of (Examples.two_roots 0x1000 0x5000) xp 0x123456789
  = Some (ExitMonitorError 1 0x2020) /\
  snd (do_walk (Examples.two_roots 0x1000 0x5000) xp 0x123456789) = Raised /\
  last (fst (do_walk (Examples.two_roots 0x1000 0x5000) xp 0x123456789))
       (Print Footer)
  = MonitorXpGiant 0x2020.
Proof. cbv zeta. repeat split; vm_compute; reflexivity. Qed.

(** The same walk when the verification read fails: the block is found
    and reported, the call is left by the exception and the footer is
    not printed. *)
Example walk_left_by_failed_verification :
  let xp := MoreExamples.failing_word (Examples.one_path 0x40000601) in
  loop_exit_of (Examples.two_roots 0x1000 0x5000) xp 0x123456789
  = Some (ExitBreak 1 0x40000601 0x63456789) /\
  snd (do_walk (Examples.two_roots 0x1000 0x5000) xp 0x123456789) = Raised /\
  last (fst (do_walk (Examples.two_roots 0x1000 0x5000) xp 0x123456789))
       (Print Footer)
  = MonitorXpWord 0x63456789 None.
Proof. cbv zeta. repeat split; vm_compute; reflexivity. Qed.

(** X4.  Every final physical address [do_walk] reports comes from a
    valid entry at level 1, 2 or 3 and lies below 2^48, whatever the
    entries read and whatever the upper bits of the address. *)
Theorem final_address_range (regs : regfile) (xp : monitor)
        (va level entry final_pa : Z) :
  loop_exit_of regs xp va = Some (ExitBreak level entry final_pa) ->
  (level = 1 \/ level = 2 \/ level = 3) /\
  Z.land entry 1 = 1 /\
  0 <= final_pa < 2 ^ 48.
Proof.
  intros H.
  destruct (loop_exit_of_inv _ _ _ _ H) as (sel & ttbr & tr & Hc & Hw).
  destruct (walk_break_cases _ _ _ _ _ _ _ Hw)
    as (Hv & [[Hl Hf]|[Hl Hf]]).
  - split; [lia|]. split; [exact Hv|].
    apply below_2_48. intros n Hn. rewrite Hf.
    rewrite page_address_bits by lia.
    destruct (Z.ltb_spec n 12), (Z.ltb_spec n 48); try lia;
      apply andb_false_r.
  - split; [lia|]. split; [exact Hv|].
    apply below_2_48. intros n Hn. rewrite Hf. unfold levelMask.
    assert (Hs : 0 <= levelShift level <= 48)
      by (unfold levelShift; destruct (level =? 1); lia).
    rewrite block_address_bits by lia.
    destruct (Z.ltb_spec n (levelShift level)), (Z.ltb_spec n 48);
      try lia; apply andb_false_r.
Qed.

(** The 1 GiB block of the walk for [0x123456789]. *)
Lemma final_address_range_witness :
  loop_exit_of (Examples.two_roots 0x1000 0x5000)
               (MoreExamples.monitor_of (Examples.one_path 0x40000601))
               0x123456789
  = Some (ExitBreak 1 0x40000601 0x63456789) /\
  0 <= 0x63456789 < 2 ^ 48.
Proof.
  assert (H : loop_exit_of
                (Examples.two_roots 0x1000 0x5000)
                (MoreExamples.monitor_of (Examples.one_path 0x40000601))
                0x123456789
              = Some (ExitBreak 1 0x40000601 0x63456789)) by reflexivity.
  split; [exact H|].
  exact (proj2 (proj2 (final_address_range _ _ _ _ _ _ H))).
Defined.

(** *** What is read, and from where *)

Lemma land_ones_range (x k : Z) : 0 <= k -> 0 <= Z.land x (Z.ones k) < 2 ^ k.
Proof.
  intros Hk. rewrite Z.land_ones by lia. apply Z.mod_pos_bound.
  apply Z.pow_pos_nonneg; lia.
Qed.

Lemma index_range (x s : Z) : 0 <= Z.land (Z.shiftr x s) 0x1FF < 512.
Proof. apply (land_ones_range (Z.shiftr x s) 9). lia. Qed.

(** A table address taken from an entry is a multiple of 4096 below
    2^48. *)
Lemma table_address_aligned (entry : Z) :
  Z.land entry 0x0000FFFFFFFFF000 mod 4096 = 0 /\
  0 <= Z.land entry 0x0000FFFFFFFFF000 < 2 ^ 48.
Proof.
  change 0x0000FFFFFFFFF000 with (Z.shiftl (Z.ones (48 - 12)) 12).
  split.
  - change 4096 with (2 ^ 12). rewrite <- Z.land_ones by lia.
    apply Z.bits_inj'; intros n Hn.
    rewrite Z.land_spec, testbit_mask, testbit_ones, Z.bits_0 by lia.
    destruct (Z.leb_spec 12 n), (Z.ltb_spec n 12); try lia;
      cbn [andb]; rewrite ?andb_false_r; reflexivity.
  - apply below_2_48. intros n Hn. rewrite testbit_mask by lia.
    destruct (Z.ltb_spec n 48); [lia|]. now rewrite !andb_false_r.
Qed.

Section Reads.
Variable xp : monitor.
Variable va : Z.

Lemma walk_level_one_read level name idx shift bm tbl :
  filter is_read (fst (walk_level xp va level (name, idx, shift, bm) tbl))
  = [MonitorXpGiant (tbl + idx * 8)].
Proof.
  destruct (walk_level_iteration xp va level name idx shift tbl bm);
    try reflexivity.
  destruct bm; reflexivity.
Qed.

Lemma walk_level_next_inv level name idx shift bm tbl seg entry next :
  walk_level xp va level (name, idx, shift, bm) tbl
    = (seg, StepNext entry next) ->
  next = Z.land entry 0x0000FFFFFFFFF000.
Proof.
  intros H.
  pose proof (walk_level_iteration xp va level name idx shift tbl bm) as Hit.
  rewrite H in Hit. inversion Hit; subst; [|reflexivity].
  destruct bm; discriminate.
Qed.

(** From a table that is a multiple of 4096 below 2^48, with indices of
    9 bits, every entry is read at a multiple of 8 below 2^48. *)
Lemma walk_levels_reads_aligned rows : forall level current_table,
  (forall name idx shift bm,
     In (name, idx, shift, bm) rows -> 0 <= idx < 512) ->
  current_table mod 4096 = 0 -> 0 <= current_table < 2 ^ 48 ->
  forall pa,
    In (MonitorXpGiant pa)
       (fst (walk_levels xp va level rows current_table)) ->
    pa mod 8 = 0 /\ 0 <= pa < 2 ^ 48.
Proof.
  induction rows as [|[[[name idx] shift] bm] rows IH];
    intros level tbl Hidx Hal Hr pa Hin; [contradiction|].
  assert (Hi : 0 <= idx < 512) by (eapply Hidx; left; reflexivity).
  assert (Hgood : forall seg,
            filter is_read seg = [MonitorXpGiant (tbl + idx * 8)] ->
            In (MonitorXpGiant pa) seg ->
            pa mod 8 = 0 /\ 0 <= pa < 2 ^ 48).
  { intros seg Hseg Hi'.
    assert (Hf : In (MonitorXpGiant pa) (filter is_read seg))
      by (apply filter_In; split; [exact Hi'|reflexivity]).
    rewrite Hseg in Hf. destruct Hf as [Hf|[]]. injection Hf as <-.
    change (2 ^ 48) with 281474976710656 in *.
    split; Z.div_mod_to_equations; lia. }
  pose proof (walk_level_one_read level name idx shift bm tbl) as Hone.
  cbn [walk_levels] in Hin.
  destruct (walk_level xp va level (name, idx, shift, bm) tbl)
    as [seg s] eqn:E.
  cbn [fst] in Hone.
  destruct s as [p|e|e f|e next| |p]; cbn [fst] in Hin;
    try (now apply (Hgood seg)).
  pose proof (walk_level_next_inv _ _ _ _ _ _ _ _ _ E) as Hnext.
  specialize (IH (level + 1) next).
  destruct (walk_levels xp va (level + 1) rows next) as [tr' ex'].
  cbn [fst] in *. apply in_app_or in Hin. destruct Hin as [Hin|Hin].
  - now apply (Hgood seg).
  - subst next. destruct (table_address_aligned e) as [Ha Hb].
    apply IH; try assumption.
    intros n i s0 b Hrow. eapply Hidx. right. exact Hrow.
Qed.

End Reads.

(** X5.  Every entry [do_walk] reads is read at an address that is a
    multiple of 8 and lies below 2^48, whatever the registers and the
    entries hold: the root and every table taken from an entry are
    multiples of 4096 below 2^48, and an index has 9 bits. *)
Theorem entry_reads_aligned (regs : regfile) (xp : monitor) (va pa : Z) :
  In (MonitorXpGiant pa) (fst (do_walk regs xp va)) ->
  pa mod 8 = 0 /\ 0 <= pa < 2 ^ 48.
Proof.
  intros Hin.
  destruct (choose_ttbr regs va) as [sel [ttbr|]] eqn:Hc.
  2:{ exfalso. unfold do_walk in Hin. rewrite Hc in Hin. cbn [fst] in Hin.
      assert (Hf : In (MonitorXpGiant pa)
                      (filter is_read (Print (Banner va) :: sel)))
        by (apply filter_In; split; [exact Hin|reflexivity]).
      cbn [filter is_read] in Hf.
      now rewrite (choose_ttbr_no_read _ _ _ _ Hc) in Hf. }
  assert (Hsplit : exists tail,
            fst (do_walk regs xp va)
            = prelude va sel ttbr ++
              fst (walk_levels xp va 0 (levels va) (table_pa ttbr)) ++ tail
            /\ filter is_read tail = []).
  { rewrite (do_walk_readable _ _ _ _ _ Hc).
    destruct (walk_levels xp va 0 (levels va) (table_pa ttbr))
      as [tr [l p|l e|l e f| | |l p]];
      rewrite ?report_found; cbn [fst]; eexists; split; try reflexivity;
      try (rewrite app_nil_r; reflexivity); try reflexivity.
    destruct (word xp f); reflexivity. }
  destruct Hsplit as (tail & Htr & Htail). rewrite Htr in Hin.
  assert (Hno : forall l : list event,
            filter is_read l = [] -> ~ In (MonitorXpGiant pa) l).
  { intros l Hl Hi.
    assert (Hf : In (MonitorXpGiant pa) (filter is_read l))
      by (apply filter_In; split; [exact Hi|reflexivity]).
    now rewrite Hl in Hf. }
  apply in_app_or in Hin. destruct Hin as [Hin|Hin].
  { exfalso. revert Hin. apply Hno. unfold prelude.
    cbn [filter is_read]. rewrite filter_app.
    rewrite (choose_ttbr_no_read _ _ _ _ Hc). reflexivity. }
  apply in_app_or in Hin. destruct Hin as [Hin|Hin];
    [|exfalso; exact (Hno _ Htail Hin)].
  revert Hin. apply walk_levels_reads_aligned.
  - intros name idx shift bm Hrow. unfold levels in Hrow. cbn [In] in Hrow.
    destruct Hrow as [Hrow|[Hrow|[Hrow|[Hrow|[]]]]];
      injection Hrow as _ <- _ _; apply index_range.
  - apply table_address_aligned.
  - apply table_address_aligned.
Qed.

(** The second read of the walk of [0x123456789]. *)
Lemma entry_reads_aligned_witness :
  In (MonitorXpGiant 0x2020)
     (fst (do_walk (Examples.two_roots 0x1000 0x5000)
                   (MoreExamples.monitor_of (Examples.one_path 0x40000601))
                   0x123456789)) /\
  0x2020 mod 8 = 0.
Proof.
  assert (H : In (MonitorXpGiant 0x2020)
                 (fst (do_walk
                    (Examples.two_roots 0x1000 0x5000)
                    (MoreExamples.monitor_of (Examples.one_path 0x40000601))
                    0x123456789)))
    by (vm_compute; tauto).
  split; [exact H|].
  exact (proj1 (entry_reads_aligned _ _ _ _ H)).
Defined.

(** *** Permissions *)

Lemma land_3_cases (x : Z) :
  Z.land x 3 = 0 \/ Z.land x 3 = 1 \/ Z.land x 3 = 2 \/ Z.land x 3 = 3.
Proof.
  pose proof (land_ones_range x 2). change (Z.ones 2) with 3 in *. lia.
Qed.

(** X6.  Whatever the entry, the permission block names its AP and SH
    fields: AP and SH are in 0..3 and the fallbacks of the two lookups,
    ["??"] and ["?"], are never printed; XN, PXN and AF are 0 or 1 and the
    attribute index is in 0..7. *)
Theorem permissions_always_named (entry : Z) :
  exists ap ap_str xn pxn af sh sh_str attr,
    print_permissions entry
    = [Print (Permissions ap ap_str xn pxn af sh sh_str attr)] /\
    In ap_str ["RW_EL1 only"; "RW_ALL"; "RO_EL1 only"; "RO_ALL"] /\
    In sh_str ["Non-shareable"; "Reserved"; "Outer"; "Inner"] /\
    0 <= ap <= 3 /\ 0 <= sh <= 3 /\ 0 <= attr <= 7 /\
    0 <= xn <= 1 /\ 0 <= pxn <= 1 /\ 0 <= af <= 1.
Proof.
  unfold print_permissions, decode_ap.
  do 8 eexists. split; [reflexivity|].
  pose proof (land_ones_range (Z.shiftr entry 2) 3).
  change (Z.ones 3) with 7 in *. change (2 ^ 3) with 8 in *.
  destruct (land_3_cases (Z.shiftr entry 6)) as [Ha|[Ha|[Ha|Ha]]];
    destruct (land_3_cases (Z.shiftr entry 8)) as [Hs|[Hs|[Hs|Hs]]];
    destruct (land_1_cases (Z.shiftr entry 54)) as [Hx|Hx];
    destruct (land_1_cases (Z.shiftr entry 53)) as [Hp|Hp];
    destruct (land_1_cases (Z.shiftr entry 10)) as [Hf|Hf];
    rewrite Ha, Hs, Hx, Hp, Hf; cbn [Z.eqb Pos.eqb In];
    repeat split; try lia; tauto.
Qed.

(** *** The bits of the address that matter *)

Lemma low_bits_agree (va va' : Z) :
  Z.land va (Z.ones 48) = Z.land va' (Z.ones 48) ->
  forall n, n < 48 -> Z.testbit va n = Z.testbit va' n.
Proof.
  intros H n Hn.
  destruct (Z.ltb_spec n 0) as [Hneg|Hpos].
  { now rewrite !Z.testbit_neg_r. }
  pose proof (f_equal (fun x => Z.testbit x n) H) as Hb. cbv beta in Hb.
  rewrite !Z.land_spec, testbit_ones in Hb by lia.
  destruct (Z.leb_spec 0 n), (Z.ltb_spec n 48); try lia.
  now rewrite !andb_true_r in Hb.
Qed.

Lemma low_field_agree (va va' s w : Z) :
  Z.land va (Z.ones 48) = Z.land va' (Z.ones 48) ->
  0 <= s -> 0 <= w -> s + w <= 48 ->
  Z.land (Z.shiftr va s) (Z.ones w) = Z.land (Z.shiftr va' s) (Z.ones w).
Proof.
  intros H Hs Hw Hsw. apply Z.bits_inj'; intros n Hn.
  rewrite !testbit_field by lia.
  destruct (Z.ltb_spec n w); [|now rewrite !andb_false_r].
  rewrite (low_bits_agree va va' H) by lia. reflexivity.
Qed.

Lemma low_mask_agree (va va' s : Z) :
  Z.land va (Z.ones 48) = Z.land va' (Z.ones 48) ->
  0 <= s <= 48 ->
  Z.land va (Z.shiftl 1 s - 1) = Z.land va' (Z.shiftl 1 s - 1).
Proof.
  intros H Hs. change (Z.shiftl 1 s - 1) with (Z.ones s).
  apply Z.bits_inj'; intros n Hn.
  rewrite !Z.land_spec, testbit_ones by lia.
  destruct (Z.ltb_spec n s) as [Hlt|Hge].
  - rewrite (low_bits_agree va va' H) by lia. reflexivity.
  - now rewrite !andb_false_r.
Qed.

Section Bits48.
Variable xp : monitor.
Variables va va' : Z.
Hypothesis Hlow : Z.land va (Z.ones 48) = Z.land va' (Z.ones 48).

Lemma offset_agree : offset va = offset va'.
Proof.
  unfold offset. change 0xFFF with (Z.shiftl 1 12 - 1).
  apply low_mask_agree; [exact Hlow|lia].
Qed.

Lemma levels_agree : levels va = levels va'.
Proof.
  unfold levels, l0_idx, l1_idx, l2_idx, l3_idx.
  change 0x1FF with (Z.ones 9).
  rewrite (low_field_agree va va' 39 9), (low_field_agree va va' 30 9),
    (low_field_agree va va' 21 9), (low_field_agree va va' 12 9)
    by (try exact Hlow; lia).
  reflexivity.
Qed.

Lemma walk_level_agree level name idx shift bm tbl :
  0 <= shift <= 48 ->
  walk_level xp va level (name, idx, shift, bm) tbl
  = walk_level xp va' level (name, idx, shift, bm) tbl.
Proof.
  intros Hs. unfold walk_level.
  rewrite offset_agree, (low_mask_agree va va' shift Hlow Hs).
  reflexivity.
Qed.

Lemma walk_levels_agree rows : forall level tbl,
  (forall name idx shift bm,
     In (name, idx, shift, bm) rows -> 0 <= shift <= 48) ->
  walk_levels xp va level rows tbl = walk_levels xp va' level rows tbl.
Proof.
  induction rows as [|[[[name idx] shift] bm] rows IH];
    intros level tbl Hrows; [reflexivity|].
  cbn [walk_levels].
  rewrite walk_level_agree by (eapply Hrows; left; reflexivity).
  destruct (walk_level xp va' level (name, idx, shift, bm) tbl)
    as [seg [p|e|e f|e next| |p]]; try reflexivity.
  rewrite IH; [reflexivity|].
  intros n i s b Hrow. eapply Hrows. right. exact Hrow.
Qed.

End Bits48.

(** X7.  The walk of [do_walk] depends on the address through its bits 0
    to 47 and its bit 55 only: two addresses that agree on those choose
    the same root, read the same entries and end in the same way with the
    same final physical address.  Bits 48 to 54 and 56 to 63 are never
    consulted, so an address that is not canonical is walked like the
    canonical one. *)
Theorem walk_ignores_upper_bits (regs : regfile) (xp : monitor)
        (va va' : Z) :
  Z.land va 0xFFFFFFFFFFFF = Z.land va' 0xFFFFFFFFFFFF ->
  Z.testbit va 55 = Z.testbit va' 55 ->
  choose_ttbr regs va = choose_ttbr regs va' /\
  (forall current_table,
     walk_levels xp va 0 (levels va) current_table
     = walk_levels xp va' 0 (levels va') current_table) /\
  loop_exit_of regs xp va = loop_exit_of regs xp va'.
Proof.
  intros Hlow Hb.
  change 0xFFFFFFFFFFFF with (Z.ones 48) in Hlow.
  assert (Hc : choose_ttbr regs va = choose_ttbr regs va').
  { unfold choose_ttbr. now rewrite !is_kernel_bit55, Hb. }
  assert (Hw : forall current_table,
             walk_levels xp va 0 (levels va) current_table
             = walk_levels xp va' 0 (levels va') current_table).
  { intros tbl. rewrite <- (levels_agree va va' Hlow).
    apply walk_levels_agree; [exact Hlow|].
    intros name idx shift bm Hrow. unfold levels in Hrow. cbn [In] in Hrow.
    destruct Hrow as [Hrow|[Hrow|[Hrow|[Hrow|[]]]]];
      injection Hrow as _ _ <- _; lia. }
  split; [exact Hc|]. split; [exact Hw|].
  unfold loop_exit_of. rewrite Hc.
  destruct (snd (choose_ttbr regs va')); [|reflexivity].
  now rewrite Hw.
Qed.

(** [0x0080000123456789] and [0xFFFF000123456789]: the same low 48 bits
    and bit 55 set in both. *)
Lemma walk_ignores_upper_bits_witness :
  Z.land 0x0080000123456789 0xFFFFFFFFFFFF
  = Z.land 0xFFFF000123456789 0xFFFFFFFFFFFF /\
  Z.testbit 0x0080000123456789 55 = Z.testbit 0xFFFF000123456789 55 /\
  loop_exit_of (Examples.two_roots 0x5000 0x1000)
               (MoreExamples.monitor_of (Examples.one_path 0x40000601))
               0x0080000123456789
  = loop_exit_of (Examples.two_roots 0x5000 0x1000)
                 (MoreExamples.monitor_of (Examples.one_path 0x40000601))
                 0xFFFF000123456789.
Proof.
  split; [reflexivity|]. split; [reflexivity|].
  exact (proj2 (proj2 (walk_ignores_upper_bits
                         (Examples.two_roots 0x5000 0x1000)
                         (MoreExamples.monitor_of
                            (Examples.one_path 0x40000601))
                         0x0080000123456789 0xFFFF000123456789
                         eq_refl eq_refl))).
Defined.

(** *** The two commands *)

Lemma do_walk_banner (regs : regfile) (xp : monitor) (va : Z) :
  exists tr, fst (do_walk regs xp va) = Print (Banner va) :: tr.
Proof.
  unfold do_walk.
  destruct (choose_ttbr regs va) as [sel [ttbr|]];
    [|eexists; reflexivity].
  destruct (walk_levels xp va 0 (levels va) (table_pa ttbr))
    as [tr [l p|l e|l e f| | |l p]];
    try (eexists; reflexivity).
  destruct (report xp va (Some f)). eexists; reflexivity.
Qed.

Lemma unsigned_bit (va n : Z) :
  0 <= n < 64 -> Z.testbit (Z.land va 0xFFFFFFFFFFFFFFFF) n = Z.testbit va n.
Proof.
  intros Hn. change 0xFFFFFFFFFFFFFFFF with (Z.ones 64).
  rewrite Z.land_spec, testbit_ones by lia.
  destruct (Z.leb_spec 0 n), (Z.ltb_spec n 64); try lia.
  apply andb_true_r.
Qed.

(** X8.  The commands [walk_va] and [walk_auto] walk the address reduced
    to 64 bits, so a negative argument is walked as its two's complement.
    [walk_va] with an address raises exactly when the root register chosen
    by bit 55 cannot be read or a monitor command of the walk raises: the
    read of an entry, or the verification read of the address found.
    [walk_auto] raises when the program counter cannot be read, and then
    evaluates nothing else; otherwise exactly when the walk of the program
    counter does. *)
Theorem commands_raise_on_failure (regs : regfile) (xp : monitor) :
  (forall va,
     (exists tr, fst (invoke regs xp (Address va))
                 = Print (Banner (va mod 2 ^ 64)) :: tr) /\
     (snd (invoke regs xp (Address va)) = Raised <->
      regs (if Z.testbit va 55 then "TTBR1_EL1" else "TTBR0_EL1") = None \/
      monitor_fails regs xp (va mod 2 ^ 64) = true)) /\
  (forall va,
     monitor_fails regs xp va = true <->
     (exists level pa,
        loop_exit_of regs xp va = Some (ExitMonitorError level pa) /\
        giant xp pa = Failed) \/
     (exists level entry final_pa,
        loop_exit_of regs xp va = Some (ExitBreak level entry final_pa) /\
        word xp final_pa = None)) /\
  match regs "pc" with
  | None => walk_auto regs xp = ([ParseAndEval "pc"], Raised)
  | Some pc =>
      (exists tr, fst (walk_auto regs xp)
                  = ParseAndEval "pc" :: Print (WalkingPC (pc mod 2 ^ 64))
                    :: Print (Banner (pc mod 2 ^ 64)) :: tr) /\
      (snd (walk_auto regs xp) = Raised <->
       regs (if Z.testbit pc 55 then "TTBR1_EL1" else "TTBR0_EL1") = None \/
       monitor_fails regs xp (pc mod 2 ^ 64) = true)
  end.
Proof.
  assert (Hmod : forall va, Z.land va 0xFFFFFFFFFFFFFFFF = va mod 2 ^ 64).
  { intros va. change 0xFFFFFFFFFFFFFFFF with (Z.ones 64).
    apply Z.land_ones. lia. }
  split; [|split].
  - intros va. cbn [invoke]. split.
    + rewrite <- Hmod. apply do_walk_banner.
    + rewrite do_walk_raised, unsigned_bit, Hmod by lia. reflexivity.
  - intros va. unfold monitor_fails.
    destruct (loop_exit_of regs xp va) as [[l pa|l e|l e f| | |l pa]|]
      eqn:Hex;
      try (split; [discriminate
                  |intros [(l' & p' & H & _)|(l' & e' & f' & H & _)];
                   discriminate]).
    + destruct (word xp f) eqn:Hf.
      * split; [discriminate|].
        intros [(l' & p' & H & _)|(l' & e' & f' & H & Hn)];
          [discriminate|].
        injection H as _ _ <-. congruence.
      * split; [|reflexivity]. intros _. right.
        exists l, e, f. split; [reflexivity|exact Hf].
    + split; [|reflexivity]. intros _. left. exists l, pa.
      split; [reflexivity|].
      destruct (loop_exit_of_inv _ _ _ _ Hex)
        as (sel & ttbr & tr & _ & Hw).
      destruct (walk_levels_stops _ _ _ _ _ _ _ Hw) as [[Hx _]|
        (k & name & idx & shift & bm & tbl & pre & seg & s &
         _ & Hl & Hx & _ & _)]; [discriminate|].
      destruct s as [p| | | | |p]; try discriminate.
      injection Hx as _ Hp. subst p.
      apply walk_level_failed_inv in Hl. tauto.
  - unfold walk_auto. destruct (regs "pc") as [pc|]; [|reflexivity].
    rewrite <- Hmod.
    destruct (do_walk_banner regs xp (Z.land pc 0xFFFFFFFFFFFFFFFF))
      as [tr Htr].
    pose proof (do_walk_raised regs xp (Z.land pc 0xFFFFFFFFFFFFFFFF))
      as Hr.
    rewrite unsigned_bit in Hr by lia.
    destruct (do_walk regs xp (Z.land pc 0xFFFFFFFFFFFFFFFF)) as [tr0 o].
    cbn [fst snd] in *. subst tr0. split; [|exact Hr].
    exists tr. reflexivity.
Qed.

(** [walk_va 0x123456789] when the verification read fails: the root
    register can be read, and the command raises. *)
Lemma commands_raise_on_failure_witness :
  monitor_fails (Examples.two_roots 0x1000 0x5000)
                (MoreExamples.failing_word (Examples.one_path 0x40000601))
                (0x123456789 mod 2 ^ 64) = true /\
  snd (invoke (Examples.two_roots 0x1000 0x5000)
              (MoreExamples.failing_word (Examples.one_path 0x40000601))
              (Address 0x123456789)) = Raised.
Proof.
  assert (H : monitor_fails
                (Examples.two_roots 0x1000 0x5000)
                (MoreExamples.failing_word (Examples.one_path 0x40000601))
                (0x123456789 mod 2 ^ 64) = true) by reflexivity.
  split; [exact H|].
  exact (proj2 (proj2 (proj1 (commands_raise_on_failure
                                (Examples.two_roots 0x1000 0x5000)
                                (MoreExamples.failing_word
                                   (Examples.one_path 0x40000601)))
                         0x123456789))
               (or_intror H)).
Defined.

(** *** What the walk depends on *)

Section Frame.
Variables xp xp' : monitor.
Variable va : Z.

Lemma walk_level_frame level row tbl :
  (forall pa, In (MonitorXpGiant pa) (fst (walk_level xp va level row tbl)) ->
              giant xp' pa = giant xp pa) ->
  walk_level xp' va level row tbl = walk_level xp va level row tbl.
Proof.
  destruct row as [[[name idx] shift] bm]. intros Hag.
  assert (Hm : giant xp' (tbl + idx * 8) = giant xp (tbl + idx * 8)).
  { apply Hag.
    apply (proj1 (filter_In is_read (MonitorXpGiant (tbl + idx * 8)) _)).
    rewrite walk_level_one_read. left. reflexivity. }
  unfold walk_level, read_phys_u64. rewrite Hm. reflexivity.
Qed.

Lemma walk_levels_frame rows : forall level tbl,
  (forall pa, In (MonitorXpGiant pa)
                 (fst (walk_levels xp va level rows tbl)) ->
              giant xp' pa = giant xp pa) ->
  walk_levels xp' va level rows tbl = walk_levels xp va level rows tbl.
Proof.
  induction rows as [|row rows IH]; intros level tbl Hag; [reflexivity|].
  cbn [walk_levels] in *.
  rewrite walk_level_frame.
  - destruct (walk_level xp va level row tbl) as [seg s].
    destruct s as [pa|e|e fpa|e next| |pa]; try reflexivity.
    rewrite IH; [reflexivity|].
    intros pa Hin. apply Hag.
    destruct (walk_levels xp va (level + 1) rows next) as [tr ex].
    cbn [fst] in *. apply in_or_app. right. exact Hin.
  - intros pa Hin. apply Hag.
    destruct (walk_level xp va level row tbl) as [seg s].
    destruct s as [pa'|e|e fpa|e next| |pa']; cbn [fst] in *;
      try exact Hin.
    destruct (walk_levels xp va (level + 1) rows next) as [tr ex].
    cbn [fst]. apply in_or_app. left. exact Hin.
Qed.

Lemma walk_level_no_word level name idx shift bm tbl :
  filter is_verification_read
         (fst (walk_level xp va level (name, idx, shift, bm) tbl)) = [].
Proof.
  destruct (walk_level_iteration xp va level name idx shift tbl bm);
    try reflexivity.
  destruct bm; reflexivity.
Qed.

Lemma walk_levels_no_word rows : forall level tbl,
  filter is_verification_read (fst (walk_levels xp va level rows tbl)) = [].
Proof.
  induction rows as [|[[[name idx] shift] bm] rows IH]; intros level tbl;
    [reflexivity|].
  cbn [walk_levels].
  pose proof (walk_level_no_word level name idx shift bm tbl) as H.
  destruct (walk_level xp va level (name, idx, shift, bm) tbl) as [seg s].
  cbn [fst] in H.
  destruct s as [p|e|e f|e next| |p]; cbn [fst]; try exact H.
  specialize (IH (level + 1) next).
  destruct (walk_levels xp va (level + 1) rows next) as [tr ex].
  cbn [fst] in *. now rewrite filter_app, H, IH.
Qed.

End Frame.

Lemma choose_ttbr_no_word (regs : regfile) (va : Z) sel r :
  choose_ttbr regs va = (sel, r) -> filter is_verification_read sel = [].
Proof.
  unfold choose_ttbr, read_reg.
  destruct (truthy (is_kernel va));
    [destruct (regs "TTBR1_EL1")|destruct (regs "TTBR0_EL1")];
    intros H; injection H as <- <-; reflexivity.
Qed.

(** The verification read is the only [xp/1xw] command of a walk; it is
    issued when the loop ends at a page or a block, for the address
    found. *)
Lemma do_walk_verification_read (regs : regfile) (xp : monitor) (va : Z) :
  filter is_verification_read (fst (do_walk regs xp va)) =
  match loop_exit_of regs xp va with
  | Some (ExitBreak _ _ final_pa) =>
      [MonitorXpWord final_pa (word xp final_pa)]
  | _ => []
  end.
Proof.
  unfold loop_exit_of.
  destruct (choose_ttbr regs va) as [sel [ttbr|]] eqn:Hc.
  2:{ unfold do_walk. rewrite Hc.
      cbn [fst snd filter is_verification_read].
      exact (choose_ttbr_no_word _ _ _ _ Hc). }
  rewrite (do_walk_readable _ _ _ _ _ Hc). cbn [snd].
  pose proof (walk_levels_no_word xp va (levels va) 0 (table_pa ttbr))
    as Hw.
  destruct (walk_levels xp va 0 (levels va) (table_pa ttbr))
    as [tr [l p|l e|l e f| | |l p]];
    rewrite ?report_found; cbn [fst snd] in *; rewrite ?filter_app, Hw;
    unfold prelude; cbn [filter is_verification_read];
    rewrite filter_app, (choose_ttbr_no_word _ _ _ _ Hc);
    cbn [filter is_verification_read app]; try reflexivity.
  destruct (word xp f); reflexivity.
Qed.

(** X18.  The output and the outcome of [do_walk] depend on the machine
    through the replies to the monitor commands it issues only: the at
    most four reads of an entry and the verification read.  Against a
    monitor that gives the same replies to the reads of an entry, the
    call does the same exactly when the verification read, if there is
    one, is answered in the same way; what the monitor would reply
    elsewhere is irrelevant.  The reply to the verification read is part
    of the output, and it is the reply for the address found. *)
Theorem walk_depends_on_replies (regs : regfile) (xp xp' : monitor)
        (va : Z) :
  (forall pa, In (MonitorXpGiant pa) (fst (do_walk regs xp va)) ->
              giant xp' pa = giant xp pa) ->
  (forall pa shown,
     In (MonitorXpWord pa shown) (fst (do_walk regs xp va)) ->
     shown = word xp pa /\
     exists level entry,
       loop_exit_of regs xp va = Some (ExitBreak level entry pa)) /\
  (do_walk regs xp' va = do_walk regs xp va <->
   forall pa shown,
     In (MonitorXpWord pa shown) (fst (do_walk regs xp va)) ->
     word xp' pa = shown).
Proof.
  intros Hag.
  assert (Hshown : forall m pa shown,
            In (MonitorXpWord pa shown) (fst (do_walk regs m va)) ->
            shown = word m pa /\
            exists level entry,
              loop_exit_of regs m va = Some (ExitBreak level entry pa)).
  { intros m pa shown Hin.
    assert (Hf : In (MonitorXpWord pa shown)
                    (filter is_verification_read (fst (do_walk regs m va))))
      by (apply filter_In; split; [exact Hin|reflexivity]).
    rewrite do_walk_verification_read in Hf.
    destruct (loop_exit_of regs m va) as [[l p|l e|l e f| | |l p]|];
      try contradiction.
    destruct Hf as [Hf|[]]. injection Hf as <- <-.
    split; [reflexivity|]. exists l, e. reflexivity. }
  split; [exact (Hshown xp)|].
  destruct (choose_ttbr regs va) as [sel [ttbr|]] eqn:Hc.
  2:{ unfold do_walk. rewrite Hc. split; [|reflexivity].
      intros _ pa shown Hin. exfalso.
      assert (Hf : In (MonitorXpWord pa shown)
                      (filter is_verification_read
                              (Print (Banner va) :: sel)))
        by (apply filter_In; split; [exact Hin|reflexivity]).
      cbn [filter is_verification_read] in Hf.
      now rewrite (choose_ttbr_no_word _ _ _ _ Hc) in Hf. }
  assert (Hw : walk_levels xp' va 0 (levels va) (table_pa ttbr)
               = walk_levels xp va 0 (levels va) (table_pa ttbr)).
  { apply walk_levels_frame. intros pa Hin. apply Hag.
    rewrite (do_walk_readable _ _ _ _ _ Hc).
    destruct (walk_levels xp va 0 (levels va) (table_pa ttbr))
      as [tr [l p|l e|l e f| | |l p]];
      cbn [fst] in *; apply in_or_app; right;
      try exact Hin; apply in_or_app; left; exact Hin. }
  pose proof (do_walk_verification_read regs xp va) as Hv.
  unfold loop_exit_of in Hv. rewrite Hc in Hv. cbn [snd] in Hv.
  rewrite (do_walk_readable regs xp' va _ _ Hc), Hw.
  rewrite (do_walk_readable regs xp va _ _ Hc) in *.
  destruct (walk_levels xp va 0 (levels va) (table_pa ttbr))
    as [tr [l p|l e|l e f| | |l p]];
    try (split; [|reflexivity];
         intros _ pa shown Hin; exfalso;
         assert (Hf : In (MonitorXpWord pa shown)
                         (filter is_verification_read
                                 (prelude va sel ttbr ++ tr)))
           by (apply filter_In; split; [exact Hin|reflexivity]);
         cbn [fst] in Hv; rewrite Hv in Hf; exact Hf).
  - rewrite !report_found in *. cbn [fst snd] in *. split.
    + intros Heq pa shown Hin.
      assert (Hf : In (MonitorXpWord pa shown)
                      [MonitorXpWord f (word xp f)])
        by (rewrite <- Hv; apply filter_In; split;
            [exact Hin|reflexivity]).
      destruct Hf as [Hf|[]]. injection Hf as <- <-.
      injection Heq as Heq _.
      apply app_inv_head in Heq. apply app_inv_head in Heq.
      injection Heq as Heq _. exact Heq.
    + intros Hsame.
      assert (Hword : word xp' f = word xp f).
      { apply Hsame. apply in_or_app. right. apply in_or_app. right.
        right. right. left. reflexivity. }
      rewrite Hword. reflexivity.
  - split; [|reflexivity].
    intros _ pa shown Hin. exfalso.
    assert (Hf : In (MonitorXpWord pa shown)
                    (filter is_verification_read
                            (prelude va sel ttbr ++ tr ++ [Print Footer])))
      by (apply filter_In; split; [exact Hin|reflexivity]).
    cbn [fst] in Hv. rewrite Hv in Hf. exact Hf.
Qed.

(** The walk for [0x123456789] reads the entries at 0x1000 and 0x2020
    and verifies 0x63456789.  A monitor that returns zeroes for the
    other entries and fails on the other verification reads gives the
    same output as the one that cannot parse the other entries. *)
Lemma walk_depends_on_replies_witness :
  do_walk (Examples.two_roots 0x1000 0x5000)
          (MoreExamples.word_only_at 0x63456789
             (Examples.one_path_zeroes 0x40000601)) 0x123456789
  = do_walk (Examples.two_roots 0x1000 0x5000)
            (MoreExamples.monitor_of (Examples.one_path 0x40000601))
            0x123456789.
Proof.
  apply (proj2 (walk_depends_on_replies
                  (Examples.two_roots 0x1000 0x5000)
                  (MoreExamples.monitor_of (Examples.one_path 0x40000601))
                  (MoreExamples.word_only_at 0x63456789
                     (Examples.one_path_zeroes 0x40000601))
                  0x123456789
                  ltac:(intros pa Hin; vm_compute in Hin;
                        repeat (destruct Hin as [Hin|Hin];
                                [try discriminate;
                                 injection Hin as <-; reflexivity|]);
                        contradiction))).
  intros pa shown Hin. vm_compute in Hin.
  repeat (destruct Hin as [Hin|Hin];
          [try discriminate; injection Hin as <- <-; reflexivity|]).
  contradiction.
Defined.

End WalkPageTableEnds.

(** ** [gdb_pagetable_walk.py]: decoding, addresses shown, reads *)

Module Arm64PageTableWalkMore.
Import Arm64PageTableWalk Arm64PageTableWalkTraces Arm64PageTableWalkFacts.
Import Arm64PageTableWalkOutput.

#[local] Opaque range512.

(** *** [decode_pte] *)

Lemma truthy_bit (x k : Z) :
  0 <= k -> truthy (Z.land (Z.shiftr x k) 1) = Z.testbit x k.
Proof.
  intros Hk. rewrite WalkPageTableFacts.land_shiftr_1 by exact Hk.
  destruct (Z.testbit x k); reflexivity.
Qed.

(** X9.  A valid entry at a level of 0 to 3 is decoded from its bits: it
    is a table exactly when the level is below 3 and bit 1 is set, a page
    at level 3 whatever bit 1, a block otherwise; the address shown is the
    entry under the mask of bits [47:12] at every level, a multiple of
    4096 below 2^48; the size is that of the level, and none of the three
    lookups falls back to its default. *)
Theorem decode_pte_valid (entry : Z) (level : nat) :
  Z.land entry 1 = 1 -> (level <= 3)%nat ->
  let next_addr := Z.land entry 0x0000FFFFFFFFF000 in
  next_addr mod 4096 = 0 /\ 0 <= next_addr < 2 ^ 48 /\
  if (level <? 3)%nat && Z.testbit entry 1
  then decode_pte (Some entry) level = TABLE next_addr
  else
    exists ap_str sh_str,
      decode_pte (Some entry) level
      = LEAF (if (level =? 3)%nat then "PAGE" else "BLOCK") next_addr
             (nth level ["512GB"; "1GB"; "2MB"; "4KB"] "??") ap_str
             (if Z.testbit entry 54 then "NoExec" else "Exec") sh_str
             (if Z.testbit entry 10 then "Accessed" else "NotAccessed") /\
      In ap_str ["RW_EL1"; "RW_ALL"; "RO_EL1"; "RO_ALL"] /\
      In sh_str ["Non-share"; "Reserved"; "Outer-share"; "Inner-share"].
Proof.
  intros Hv Hl next_addr. subst next_addr.
  destruct (WalkPageTableEnds.table_address_aligned entry) as [Ha Hr].
  split; [exact Ha|]. split; [exact Hr|].
  unfold decode_pte. rewrite (truthy_1 _ Hv). cbn [negb].
  rewrite !truthy_bit by lia.
  destruct level as [|[|[|[|level]]]]; [| | | |lia];
    cbn [Nat.ltb Nat.leb Nat.eqb andb nth];
    try (destruct (Z.testbit entry 1); [reflexivity|]);
    destruct (WalkPageTableEnds.land_3_cases (Z.shiftr entry 6))
      as [Hap|[Hap|[Hap|Hap]]];
    destruct (WalkPageTableEnds.land_3_cases (Z.shiftr entry 8))
      as [Hsh|[Hsh|[Hsh|Hsh]]];
    rewrite Hap, Hsh; cbn [Z.eqb Pos.eqb];
    do 2 eexists; (split; [reflexivity|]); cbn [In]; tauto.
Qed.

(** The 1 GiB block descriptor [0x40000601] at level 1. *)
Lemma decode_pte_valid_witness :
  Z.land 0x40000601 1 = 1 /\
  Z.land 0x40000601 0x0000FFFFFFFFF000 mod 4096 = 0.
Proof.
  split; [reflexivity|].
  exact (proj1 (decode_pte_valid 0x40000601 1 eq_refl
                  (le_S _ _ (le_S _ _ (le_n 1))))).
Defined.

(** *** The register dump of [invoke] *)

(** X10.  The fields shown for [TCR_EL1] are bits [5:0] and [21:16] of
    the register, so both sizes are in 0..63 and both widths in 1..64;
    the granule is looked up from bits [15:14] and, unlike the permission
    lookups, can fall back: ["??"] is shown exactly when both bits are
    set. *)
Theorem tcr_fields (ttbr0 ttbr1 sctlr : option Z) (tcr : Z) :
  exists t0sz t1sz granule,
    In (Print (ShowTCR tcr t0sz t1sz granule (64 - t0sz) (64 - t1sz)))
       (show_registers ttbr0 ttbr1 (Some tcr) sctlr) /\
    0 <= t0sz <= 63 /\ 0 <= t1sz <= 63 /\
    1 <= 64 - t0sz <= 64 /\ 1 <= 64 - t1sz <= 64 /\
    (forall n, 0 <= n ->
       Z.testbit t0sz n = Z.testbit tcr n && (n <? 6)) /\
    (forall n, 0 <= n ->
       Z.testbit t1sz n = Z.testbit tcr (n + 16) && (n <? 6)) /\
    (granule = "??" <->
     Z.testbit tcr 14 = true /\ Z.testbit tcr 15 = true).
Proof.
  exists (Z.land tcr 0x3F), (Z.land (Z.shiftr tcr 16) 0x3F).
  eexists. split.
  { unfold show_registers.
    apply in_cons, in_or_app. right. apply in_or_app. right.
    apply in_or_app. left. left. reflexivity. }
  pose proof (WalkPageTableEnds.land_ones_range tcr 6) as H0.
  pose proof (WalkPageTableEnds.land_ones_range (Z.shiftr tcr 16) 6) as H1.
  change (Z.ones 6) with 0x3F in *. change (2 ^ 6) with 64 in *.
  repeat (split; [lia|]).
  split; [|split].
  - intros n Hn. change 0x3F with (Z.ones 6).
    rewrite <- (Z.shiftr_0_r tcr) at 1.
    rewrite testbit_field by lia. now rewrite Z.add_0_r.
  - intros n Hn. change 0x3F with (Z.ones 6).
    now rewrite testbit_field by lia.
  - assert (Hb : forall k, 0 <= k ->
              Z.testbit (Z.land (Z.shiftr tcr 14) 3) k
              = Z.testbit tcr (k + 14) && (k <? 2)).
    { intros k Hk. change 3 with (Z.ones 2).
      now rewrite testbit_field by lia. }
    pose proof (Hb 0 ltac:(lia)) as Hb0.
    pose proof (Hb 1 ltac:(lia)) as Hb1.
    change (0 + 14) with 14 in Hb0. change (1 + 14) with 15 in Hb1.
    change (0 <? 2) with true in Hb0. change (1 <? 2) with true in Hb1.
    rewrite andb_true_r in Hb0, Hb1.
    rewrite <- Hb0, <- Hb1.
    destruct (WalkPageTableEnds.land_3_cases (Z.shiftr tcr 14))
      as [Hg|[Hg|[Hg|Hg]]];
      rewrite Hg; cbn; split; try discriminate;
      try (intros [? ?]; discriminate); auto.
Qed.

(** *** What a walk with a target reads *)

Lemma tables_app (a b : list event) :
  tables (a ++ b) = (tables a + tables b)%nat.
Proof. unfold tables. now rewrite filter_app, length_app. Qed.

Lemma tables_shown va_start level i entry :
  tables (shown va_start level i entry) = 0%nat.
Proof. reflexivity. Qed.

Section TargetReads.
Variable mem : physmem.
Variable target max_entries : Z.

Lemma walk_entries_target_reads recurse table_addr va_start level
      (B : nat) :
  (forall a v sub, recurse a v = Some sub ->
     reads sub = 512 * Z.of_nat (tables sub) /\ (tables sub <= B)%nat) ->
  forall indices n tr,
    walk_entries mem recurse table_addr va_start level (Some target)
                 max_entries indices n = Some tr ->
    reads tr = Z.of_nat (List.length indices) + 512 * Z.of_nat (tables tr) /\
    (tables tr
     <= List.length
          (filter (fun i => (i =? idx_for_target target level)%Z) indices)
        * B)%nat.
Proof.
  intros Hrec.
  assert (Hbelow : forall i entry sub,
            below recurse va_start level i entry = Some sub ->
            reads sub = 512 * Z.of_nat (tables sub) /\ (tables sub <= B)%nat).
  { intros i entry sub. unfold below.
    destruct ((level <? 3)%nat && truthy _).
    - apply Hrec.
    - intros Hs. apply Some_eq in Hs. subst sub. cbn. lia. }
  induction indices as [|i rest IH]; intros n tr H.
  - apply Some_eq in H. subst tr. cbn. lia.
  - apply walk_entries_cases in H.
    cbn [List.length filter]. rewrite Nat2Z.inj_succ.
    destruct H as [[_ (tr' & Hrest & ->)]|
      (entry & sub & Hm & Hv & Hp & Hb &
       [(tr' & _ & Hrest & ->)|(_ & Hnone & _)])];
      [| |discriminate].
    + rewrite reads_read.
      change (tables (ReadMemory (table_addr + i * 8) 8 :: tr'))
        with (tables tr').
      destruct (IH _ _ Hrest) as [Hr Ht]. split; [lia|].
      destruct (i =? idx_for_target target level); cbn [List.length]; lia.
    + rewrite reads_read.
      change (tables (ReadMemory (table_addr + i * 8) 8
                      :: shown va_start level i entry ++ sub ++ tr'))
        with (tables (shown va_start level i entry ++ sub ++ tr')).
      rewrite !tables_app, tables_shown, !reads_app.
      change (reads (shown va_start level i entry)) with 0.
      destruct (IH _ _ Hrest) as [Hr Ht].
      destruct (Hbelow _ _ _ Hb) as [Hsr Hst].
      unfold not_on_target_path in Hp. apply negb_false_iff in Hp.
      unfold idx_for_target. rewrite Hp. cbn [List.length].
      unfold idx_for_target in Ht. split; lia.
Qed.

Lemma walk_table_target_reads fuel : forall table_addr va_start level tr,
  walk_table mem fuel table_addr va_start level (Some target) max_entries
    = Some tr ->
  reads tr = 512 * Z.of_nat (tables tr) /\ (tables tr <= 4 - level)%nat.
Proof.
  induction fuel as [|fuel IH]; intros table_addr va_start level tr H;
    [discriminate|].
  destruct (Nat.ltb_spec 3 level) as [Hl|Hl].
  - rewrite walk_table_S in H.
    destruct (Nat.ltb_spec 3 level); [|lia].
    apply Some_eq in H. subst tr. cbn. lia.
  - destruct (walk_table_inv _ _ _ _ _ _ _ _ H Hl)
      as (fuel' & tr' & Hf & Hw & ->).
    injection Hf as <-.
    rewrite reads_print.
    change (tables (Print (TableHeader level (nth level level_names "")
                                       table_addr) :: tr'))
      with (S (tables tr')).
    apply (walk_entries_target_reads _ _ _ _ (4 - S level)) in Hw.
    + rewrite length_range512 in Hw.
      rewrite count_in_range512 in Hw by apply idx_for_target_range.
      lia.
    + intros a v sub Hsub. eapply IH, Hsub.
Qed.

Lemma walk_table_header fuel table_addr va_start level target_va tr :
  walk_table mem fuel table_addr va_start level target_va max_entries
    = Some tr ->
  (level <= 3)%nat -> (1 <= tables tr)%nat.
Proof.
  intros H Hl.
  destruct (walk_table_inv _ _ _ _ _ _ _ _ H Hl)
    as (fuel' & tr' & _ & _ & ->).
  change (tables (Print (TableHeader level (nth level level_names "")
                                     table_addr) :: tr'))
    with (S (tables tr')).
  lia.
Qed.

End TargetReads.

(** X11.  A walk with a target reads every table on the path in full:
    the number of entries read is 512 times the number of tables walked,
    one table per level from the level of the call down to level 3 at
    most; from level 0 that is between 512 and 2048 reads for one
    address. *)
Theorem target_walk_reads (mem : physmem) (fuel : nat)
        (table_addr va_start : Z) (level : nat) (target max_entries : Z)
        (tr : list event) :
  walk_table mem fuel table_addr va_start level (Some target) max_entries
    = Some tr ->
  (level <= 3)%nat ->
  reads tr = 512 * Z.of_nat (tables tr) /\
  (1 <= tables tr <= 4 - level)%nat /\
  512 <= reads tr <= 2048.
Proof.
  intros H Hl.
  destruct (walk_table_target_reads _ _ _ _ _ _ _ _ H) as [Hr Ht].
  pose proof (walk_table_header _ _ _ _ _ _ _ _ H Hl) as Hh.
  repeat split; lia.
Qed.

(** The path to the block of [0x123456789]: two tables, 1024 reads. *)
Lemma target_walk_reads_witness :
  (exists tr,
     walk_table (Examples.one_path_zeroes 0x40000601) 4 0x1000 0 0
                (Some 0x123456789) 512 = Some tr /\
     reads tr = 512 * Z.of_nat (tables tr) /\ 512 <= reads tr <= 2048) /\
  (0 <= 3)%nat.
Proof.
  split; [|apply Nat.le_0_l].
  destruct (walk_table (Examples.one_path_zeroes 0x40000601) 4
                       0x1000 0 0 (Some 0x123456789) 512) as [tr|] eqn:E;
    [|vm_compute in E; discriminate].
  exists tr. split; [reflexivity|].
  pose proof (target_walk_reads _ _ _ _ _ _ _ _ E (Nat.le_0_l 3)) as Hx.
  split; [exact (proj1 Hx)|exact (proj2 (proj2 Hx))].
Defined.

(** *** [invoke] as a whole *)

Lemma parses_app (a b : list event) :
  parses (a ++ b) = (parses a + parses b)%nat.
Proof. unfold parses. now rewrite filter_app, length_app. Qed.

Lemma register_dump_quiet (regs : regfile) :
  reads (register_dump regs) = 0 /\ parses (register_dump regs) = 4%nat /\
  forallb (fun ev => negb (is_footer ev)) (register_dump regs) = true.
Proof.
  unfold register_dump, show_registers.
  destruct (regs "TTBR0_EL1"), (regs "TTBR1_EL1"), (regs "TCR_EL1"),
    (regs "SCTLR_EL1"); repeat split; reflexivity.
Qed.

Lemma within_walk_only (l : nat) (tr : list event) :
  forallb (within l) tr = true ->
  parses tr = 0%nat /\ forallb (fun ev => negb (is_footer ev)) tr = true.
Proof.
  unfold parses. induction tr as [|ev tr IH]; [split; reflexivity|].
  cbn [forallb filter]. intros H. apply andb_prop in H.
  destruct H as [Hev Htr]. destruct (IH Htr) as [Hp Hf].
  destruct ev as [name|a size|[]]; try discriminate;
    cbn [is_parse is_footer negb andb]; split; assumption.
Qed.

Section InvokeShape.
Variable regs : regfile.
Variable mem : physmem.

Lemma invoke_address fuel target_va :
  invoke regs mem fuel (Address target_va) =
  match regs (if 0xFFFF000000000000 <=? target_va
              then "TTBR1_EL1" else "TTBR0_EL1") with
  | None =>
      Some (register_dump regs ++
            [Print (Walking target_va);
             Print (if 0xFFFF000000000000 <=? target_va
                    then CannotReadTTBR1 else CannotReadTTBR0)])
  | Some ttbr =>
      followed_by
        (register_dump regs ++
         [Print (Walking target_va);
          Print (if 0xFFFF000000000000 <=? target_va
                 then UsingTTBR1 (base ttbr) else UsingTTBR0 (base ttbr))])
        (followed_by_footer
           (walk_table mem fuel (base ttbr)
              (if 0xFFFF000000000000 <=? target_va
               then 0xFFFF000000000000 else 0)
              0 (Some target_va) 512))
  end.
Proof.
  unfold invoke, read_sysreg, register_dump.
  destruct (0xFFFF000000000000 <=? target_va).
  - destruct (regs "TTBR1_EL1");
      cbn [app]; rewrite <- !app_assoc; reflexivity.
  - destruct (regs "TTBR0_EL1");
      cbn [app]; rewrite <- !app_assoc; reflexivity.
Qed.

Lemma invoke_no_argument fuel :
  invoke regs mem fuel NoArgument =
  match
    match regs "TTBR0_EL1" with
    | Some ttbr0 =>
        followed_by [Print DumpTTBR0]
          (walk_table mem fuel (base ttbr0) 0 0 None 10)
    | None => Some []
    end,
    match regs "TTBR1_EL1" with
    | Some ttbr1 =>
        followed_by [Print DumpTTBR1]
          (walk_table mem fuel (base ttbr1) 0xFFFF000000000000 0 None 10)
    | None => Some []
    end
  with
  | Some d0, Some d1 =>
      Some (register_dump regs ++ d0 ++ d1 ++ [Print Footer])
  | _, _ => None
  end.
Proof.
  unfold invoke, read_sysreg, register_dump.
  destruct (match regs "TTBR0_EL1" with
            | Some ttbr0 =>
                followed_by [Print DumpTTBR0]
                  (walk_table mem fuel (base ttbr0) 0 0 None 10)
            | None => Some []
            end) as [d0|]; [|reflexivity].
  destruct (match regs "TTBR1_EL1" with
            | Some ttbr1 =>
                followed_by [Print DumpTTBR1]
                  (walk_table mem fuel (base ttbr1) 0xFFFF000000000000
                              0 None 10)
            | None => Some []
            end) as [d1|]; [|reflexivity].
  unfold followed_by, followed_by_footer.
  cbn [app]. rewrite <- !app_assoc. reflexivity.
Qed.

(** One root of the dump: returned within depth 4, the same with more
    depth, reads bounded, nothing but the walk. *)
Lemma dump_root_total (label : line) (r : option Z) (va_start : Z)
      (fuel : nat) :
  (4 <= fuel)%nat ->
  exists d,
    match r with
    | Some ttbr =>
        followed_by [Print label]
          (walk_table mem fuel (base ttbr) va_start 0 None 10)
    | None => Some []
    end = Some d /\
    match r with
    | Some ttbr =>
        followed_by [Print label]
          (walk_table mem 4 (base ttbr) va_start 0 None 10)
    | None => Some []
    end = Some d /\
    reads d <= reads_bound 4 /\ parses d = parses [Print label].
Proof.
  intros Hf. destruct r as [ttbr|].
  - destruct (walk_table_total mem None 10 4 (base ttbr) va_start 0
                (le_n 4)) as [tr Htr].
    pose proof (walk_table_mono mem None 10 4 (fuel - 4) _ _ _ _ Htr)
      as Hm.
    replace (4 + (fuel - 4))%nat with fuel in Hm by lia.
    rewrite Htr, Hm. exists (Print label :: tr).
    split; [reflexivity|]. split; [reflexivity|].
    rewrite reads_print. split.
    + apply (walk_table_reads _ _ _ _ _ _ _ _ Htr).
    + change (parses (Print label :: tr)) with (parses tr).
      apply (within_walk_only 0).
      eapply walk_table_within, Htr.
  - exists []. repeat split; try reflexivity.
    pose proof (reads_bound_nonneg 4). cbn [reads filter List.length].
    unfold reads. cbn. lia.
Qed.

End InvokeShape.

(** X12.  With an address whose root register cannot be read, [invoke]
    prints the register dump, the line announcing the walk and the error
    line, and returns: no memory is read and the closing line is not
    printed, whatever the memory.  Only the register of the address's
    half matters: the other one may be unreadable as well. *)
Theorem invoke_unreadable_root (regs : regfile) (mem : physmem)
        (fuel : nat) (target_va : Z) :
  regs (if 0xFFFF000000000000 <=? target_va
        then "TTBR1_EL1" else "TTBR0_EL1") = None ->
  exists tr,
    invoke regs mem fuel (Address target_va) = Some tr /\
    tr = register_dump regs ++
         [Print (Walking target_va);
          Print (if 0xFFFF000000000000 <=? target_va
                 then CannotReadTTBR1 else CannotReadTTBR0)] /\
    reads tr = 0 /\ parses tr = 4%nat /\
    forallb (fun ev => negb (is_footer ev)) tr = true.
Proof.
  intros Hr. rewrite invoke_address, Hr.
  eexists. split; [reflexivity|]. split; [reflexivity|].
  destruct (register_dump_quiet regs) as (Hd & Hp & Hf).
  rewrite reads_app, parses_app, forallb_app, Hd, Hp, Hf.
  destruct (0xFFFF000000000000 <=? target_va); repeat split; reflexivity.
Qed.

(** No register can be read; a kernel address. *)
Lemma invoke_unreadable_root_witness :
  invoke MoreExamples.no_register Examples.zeroes 0
         (Address 0xFFFF800010000000)
  = Some (register_dump MoreExamples.no_register ++
          [Print (Walking 0xFFFF800010000000); Print CannotReadTTBR1]).
Proof.
  destruct (invoke_unreadable_root MoreExamples.no_register Examples.zeroes
              0 0xFFFF800010000000 eq_refl) as (tr & Hi & Ht & _).
  rewrite Hi, Ht. reflexivity.
Defined.

(** X13.  [invoke] returns for every argument, register file and memory;
    a nesting depth of 4 is enough, and more depth gives the same output.
    Unless the argument is rejected, each of the four registers is
    evaluated exactly once, before any memory is read.  With an address
    at most 2048 entries are read; without one each of the two dumps
    reads at most 512 + 512^2 + 512^3 + 512^4. *)
Theorem invoke_terminates (regs : regfile) (mem : physmem)
        (arg : argument) (fuel : nat) :
  (4 <= fuel)%nat ->
  exists tr,
    invoke regs mem fuel arg = Some tr /\
    invoke regs mem 4 arg = Some tr /\
    parses tr = match arg with NotAnInteger => 0%nat | _ => 4%nat end /\
    reads tr <= match arg with
                | NotAnInteger => 0
                | Address _ => 2048
                | NoArgument => 2 * reads_bound 4
                end /\
    (arg <> NotAnInteger ->
     reads (register_dump regs) = 0 /\
     exists tr', tr = register_dump regs ++ tr' /\ parses tr' = 0%nat).
Proof.
  intros Hf.
  destruct (register_dump_quiet regs) as (Hd & Hp & _).
  destruct arg as [|target_va|].
  - rewrite !invoke_no_argument.
    destruct (dump_root_total mem DumpTTBR0 (regs "TTBR0_EL1") 0 fuel Hf)
      as (d0 & H0 & H0' & Hr0 & Hp0).
    destruct (dump_root_total mem DumpTTBR1 (regs "TTBR1_EL1")
                0xFFFF000000000000 fuel Hf)
      as (d1 & H1 & H1' & Hr1 & Hp1).
    rewrite H0, H1, H0', H1'.
    eexists. split; [reflexivity|]. split; [reflexivity|].
    rewrite !parses_app, !reads_app, Hd, Hp, Hp0, Hp1.
    split; [reflexivity|]. split.
    + change (reads [Print Footer]) with 0. lia.
    + intros _. split; [reflexivity|]. eexists. split; [reflexivity|].
      rewrite !parses_app, Hp0, Hp1. reflexivity.
  - rewrite !invoke_address.
    destruct (regs (if 0xFFFF000000000000 <=? target_va
                    then "TTBR1_EL1" else "TTBR0_EL1")) as [ttbr|].
    + destruct (walk_table_total mem (Some target_va) 512 4 (base ttbr)
                  (if 0xFFFF000000000000 <=? target_va
                   then 0xFFFF000000000000 else 0) 0 (le_n 4))
        as [tr Htr].
      pose proof (walk_table_mono mem (Some target_va) 512 4 (fuel - 4)
                    _ _ _ _ Htr) as Hm.
      replace (4 + (fuel - 4))%nat with fuel in Hm by lia.
      rewrite Htr, Hm. cbn [followed_by followed_by_footer].
      eexists. split; [reflexivity|]. split; [reflexivity|].
      destruct (walk_table_target_reads _ _ _ _ _ _ _ _ Htr) as [Hr Ht].
      destruct (within_walk_only 0 tr
                  (walk_table_within _ _ _ _ _ _ _ _ Htr)) as [Hpw _].
      rewrite !parses_app, !reads_app, Hd, Hp, Hpw.
      split; [destruct (0xFFFF000000000000 <=? target_va); reflexivity|].
      split.
      * change (reads [Print Footer]) with 0.
        destruct (0xFFFF000000000000 <=? target_va);
          cbn [reads filter is_read List.length]; unfold reads at 1;
          cbn [filter is_read List.length]; lia.
      * intros _. split; [reflexivity|].
        rewrite <- app_assoc. eexists. split; [reflexivity|].
        rewrite !parses_app, Hpw.
        destruct (0xFFFF000000000000 <=? target_va); reflexivity.
    + eexists. split; [reflexivity|]. split; [reflexivity|].
      rewrite !parses_app, !reads_app, Hd, Hp.
      destruct (0xFFFF000000000000 <=? target_va);
        (split; [reflexivity|]); (split; [cbn; lia|]);
        intros _; (split; [reflexivity|]);
        eexists; (split; [reflexivity|]); reflexivity.
  - exists [Print InvalidAddress].
    split; [reflexivity|]. split; [reflexivity|].
    split; [reflexivity|]. split; [cbn; lia|].
    intros H. now contradiction H.
Qed.

(** The walk for [0x123456789] over a memory of zeroes, with depth 4. *)
Lemma invoke_terminates_witness :
  (4 <= 4)%nat /\
  exists tr,
    invoke (Examples.two_roots 0x1000 0x5000) Examples.zeroes 4
           (Address 0x123456789) = Some tr /\
    parses tr = 4%nat.
Proof.
  split; [apply le_n|].
  destruct (invoke_terminates (Examples.two_roots 0x1000 0x5000)
              Examples.zeroes (Address 0x123456789) 4 (le_n 4))
    as (tr & Hi & _ & Hp & _).
  exists tr. split; [exact Hi|exact Hp].
Defined.

(** *** Which entries are shown *)

Lemma indices_at_app level (a b : list event) :
  indices_at level (a ++ b) = indices_at level a ++ indices_at level b.
Proof.
  induction a as [|ev a IH]; [reflexivity|].
  destruct ev as [name|addr size|[]]; cbn [app indices_at]; try exact IH.
  destruct (_ =? level)%nat; [cbn [app]; f_equal|]; exact IH.
Qed.

Lemma indices_at_within level (tr : list event) :
  forallb (within (S level)) tr = true -> indices_at level tr = [].
Proof.
  induction tr as [|ev tr IH]; [reflexivity|].
  cbn [forallb]. intros H. apply andb_prop in H. destruct H as [Hev Htr].
  destruct ev as [name|a size|[]]; cbn [indices_at]; try (now apply IH).
  unfold within in Hev. cbn [level_of] in Hev.
  apply andb_prop in Hev. destruct Hev as [Hev _].
  apply Nat.leb_le in Hev.
  destruct (Nat.eqb_spec level0 level); [lia|now apply IH].
Qed.

Lemma indices_at_shown va_start level i entry :
  indices_at level (shown va_start level i entry) = [i].
Proof. unfold shown. cbn [indices_at]. now rewrite Nat.eqb_refl. Qed.

#[local] Transparent range512.

Lemma filter_index_seq (p : Z -> bool) (idx : Z) (n : nat) : forall a : nat,
  filter (fun i => p i && (i =? idx)) (List.map Z.of_nat (seq a n))
  = if (Z.of_nat a <=? idx) && (idx <? Z.of_nat (a + n)) && p idx
    then [idx] else [].
Proof.
  induction n as [|n IH]; intros a.
  - cbn [seq List.map filter]. rewrite Nat.add_0_r.
    destruct (Z.leb_spec (Z.of_nat a) idx), (Z.ltb_spec idx (Z.of_nat a));
      try reflexivity; lia.
  - cbn [seq List.map filter]. rewrite <- Nat.add_succ_comm, IH.
    destruct (Z.eqb_spec (Z.of_nat a) idx) as [He|He].
    + rewrite He.
      destruct (Z.leb_spec (Z.of_nat (S a)) idx); [lia|].
      destruct (Z.leb_spec idx idx); [|lia].
      destruct (Z.ltb_spec idx (Z.of_nat (S a + n))); [|lia].
      cbn [andb]. rewrite andb_true_r. destruct (p idx); reflexivity.
    + rewrite andb_false_r.
      destruct (Z.leb_spec (Z.of_nat (S a)) idx),
               (Z.leb_spec (Z.of_nat a) idx); try reflexivity; lia.
Qed.

Lemma filter_index_range512 (p : Z -> bool) (idx : Z) :
  0 <= idx < 512 ->
  filter (fun i => p i && (i =? idx)) range512
  = if p idx then [idx] else [].
Proof.
  intros Hi. unfold range512. rewrite filter_index_seq.
  destruct (Z.leb_spec (Z.of_nat 0) idx),
           (Z.ltb_spec idx (Z.of_nat (0 + 512))); try reflexivity; lia.
Qed.

#[local] Opaque range512.

Section Indices.
Variable mem : physmem.
Variable recurse : Z -> Z -> option (list event).
Variables (table_addr va_start : Z) (level : nat).
Variable max_entries : Z.
Hypothesis Hrec : forall a v tr,
    recurse a v = Some tr -> forallb (within (S level)) tr = true.

Lemma below_no_index i entry sub :
  below recurse va_start level i entry = Some sub ->
  indices_at level sub = [].
Proof.
  unfold below. destruct ((level <? 3)%nat && truthy _); intros H.
  - apply indices_at_within. eapply Hrec, H.
  - apply Some_eq in H. now subst sub.
Qed.

(** Without a target: the present entries in order, up to the cap, and
    one at least. *)
Lemma walk_entries_indices indices : forall n tr,
  walk_entries mem recurse table_addr va_start level None max_entries
               indices n = Some tr ->
  indices_at level tr
  = firstn (Z.to_nat (Z.max (max_entries - n) 1))
           (filter (fun i => present mem (table_addr + i * 8)) indices).
Proof.
  induction indices as [|i rest IH]; intros n tr H.
  - apply Some_eq in H. subst tr. now rewrite firstn_nil.
  - apply walk_entries_cases in H. cbn [filter].
    destruct H as [[Hskip (tr' & Hrest & ->)]|
      (entry & sub & Hm & Hv & Hp & Hb &
       [(tr' & Hlt & Hrest & ->)|(Hle & _ & ->)])].
    + destruct Hskip as [Hskip|Hskip]; [|discriminate].
      rewrite Hskip. cbn [indices_at]. eapply IH, Hrest.
    + rewrite (present_true _ _ _ _ Hm Hv).
      destruct Hlt as [Hlt|Hlt]; [|congruence].
      cbn [indices_at].
      rewrite !indices_at_app, indices_at_shown, (below_no_index _ _ _ Hb).
      cbn [app]. rewrite (IH _ _ Hrest).
      replace (Z.to_nat (Z.max (max_entries - n) 1))
        with (S (Z.to_nat (Z.max (max_entries - (n + 1)) 1))) by lia.
      reflexivity.
    + rewrite (present_true _ _ _ _ Hm Hv).
      cbn [indices_at].
      rewrite !indices_at_app, indices_at_shown, (below_no_index _ _ _ Hb).
      replace (Z.to_nat (Z.max (max_entries - n) 1)) with 1%nat by lia.
      reflexivity.
Qed.

(** With a target: the present entries at the index of the target. *)
Lemma walk_entries_indices_target target indices : forall n tr,
  walk_entries mem recurse table_addr va_start level (Some target)
               max_entries indices n = Some tr ->
  indices_at level tr
  = filter (fun i => present mem (table_addr + i * 8)
                     && (i =? idx_for_target target level))
           indices.
Proof.
  induction indices as [|i rest IH]; intros n tr H.
  - apply Some_eq in H. now subst tr.
  - apply walk_entries_cases in H. cbn [filter].
    destruct H as [[Hskip (tr' & Hrest & ->)]|
      (entry & sub & Hm & Hv & Hp & Hb &
       [(tr' & _ & Hrest & ->)|(_ & Hnone & _)])];
      [| |discriminate].
    + replace (present mem (table_addr + i * 8)
               && (i =? idx_for_target target level)) with false.
      * cbn [indices_at]. eapply IH, Hrest.
      * destruct Hskip as [->|Hskip]; [reflexivity|].
        unfold not_on_target_path in Hskip.
        apply negb_true_iff in Hskip.
        unfold idx_for_target. rewrite Hskip. now rewrite andb_false_r.
    + rewrite (present_true _ _ _ _ Hm Hv).
      unfold not_on_target_path in Hp. apply negb_false_iff in Hp.
      unfold idx_for_target. rewrite Hp. cbn [andb indices_at].
      rewrite !indices_at_app, indices_at_shown, (below_no_index _ _ _ Hb).
      cbn [app]. f_equal. eapply IH, Hrest.
Qed.

End Indices.


(** X14.  The entries a call of [walk_table] shows for its own table
    are, in the order of the indices: without a target the present
    entries up to the cap, and one at least, so a cap of zero or below
    still shows the first present entry; with a target the entry at the
    index of the target when it is present, and nothing otherwise. *)
Theorem shown_indices (mem : physmem) (fuel : nat)
        (table_addr va_start : Z) (level : nat) (target_va : option Z)
        (max_entries : Z) (tr : list event) :
  walk_table mem fuel table_addr va_start level target_va max_entries
    = Some tr ->
  (level <= 3)%nat ->
  indices_at level tr =
  match target_va with
  | None =>
      firstn (Z.to_nat (Z.max max_entries 1))
             (filter (fun i => present mem (table_addr + i * 8)) range512)
  | Some target =>
      if present mem (table_addr + idx_for_target target level * 8)
      then [idx_for_target target level] else []
  end.
Proof.
  intros H Hl.
  destruct (walk_table_inv _ _ _ _ _ _ _ _ H Hl)
    as (fuel' & tr' & _ & Hw & ->).
  cbn [indices_at].
  destruct target_va as [target|].
  - apply walk_entries_indices_target in Hw.
    2:{ intros a v sub Hsub. eapply walk_table_within, Hsub. }
    rewrite Hw.
    apply (filter_index_range512
             (fun i => present mem (table_addr + i * 8))).
    apply idx_for_target_range.
  - apply walk_entries_indices in Hw.
    2:{ intros a v sub Hsub. eapply walk_table_within, Hsub. }
    rewrite Hw, Z.sub_0_r. reflexivity.
Qed.

(** A level-3 table whose entry 0 cannot be read and whose entry 1 is a
    page, walked with the cap 0: entry 1 is shown. *)
Lemma shown_indices_witness :
  (exists tr,
     walk_table (Examples.hole_then 0x40000403) 1 0x1000 0 3 None 0
     = Some tr /\
     indices_at 3 tr = [1]) /\
  (3 <= 3)%nat.
Proof.
  split; [|apply le_n].
  destruct (walk_table (Examples.hole_then 0x40000403) 1 0x1000 0 3 None 0)
    as [tr|] eqn:E; [|vm_compute in E; discriminate].
  exists tr. split; [reflexivity|].
  rewrite (shown_indices _ _ _ _ _ _ _ _ E (le_n 3)).
  vm_compute. reflexivity.
Defined.

(** *** The addresses shown *)

Lemma shift_cases (l : nat) :
  (l <= 3)%nat ->
  (shift l = 39 \/ shift l = 30 \/ shift l = 21 \/ shift l = 12) /\
  ((l < 3)%nat -> shift (S l) + 9 = shift l).
Proof.
  intros Hl. destruct l as [|[|[|[|l]]]]; [| | | |lia];
    (split; [cbn; tauto|]); intros H; try reflexivity; lia.
Qed.

Lemma small_bits (i k n : Z) :
  0 <= k -> 0 <= i < 2 ^ k -> k <= n -> Z.testbit i n = false.
Proof.
  intros Hk Hi Hn.
  rewrite <- (Z.mod_small i (2 ^ k)) by exact Hi.
  rewrite <- Z.land_ones, Z.land_spec, testbit_ones by lia.
  destruct (Z.ltb_spec n k); [lia|]. now rewrite !andb_false_r.
Qed.

Lemma land_ones_zero (x k : Z) :
  0 <= k ->
  (Z.land x (Z.ones k) = 0 <-> forall n, 0 <= n < k -> Z.testbit x n = false).
Proof.
  intros Hk. split.
  - intros H n Hn.
    pose proof (f_equal (fun y => Z.testbit y n) H) as Hb. cbv beta in Hb.
    rewrite Z.land_spec, testbit_ones, Z.bits_0 in Hb by lia.
    destruct (Z.leb_spec 0 n), (Z.ltb_spec n k); try lia.
    now rewrite andb_true_r in Hb.
  - intros H. apply Z.bits_inj'; intros n Hn.
    rewrite Z.land_spec, testbit_ones, Z.bits_0 by lia.
    destruct (Z.ltb_spec n k).
    + rewrite H by lia. reflexivity.
    + now rewrite !andb_false_r.
Qed.

Lemma truthy_pow2 (x k : Z) :
  0 <= k -> truthy (Z.land x (Z.shiftl 1 k)) = Z.testbit x k.
Proof.
  intros Hk. rewrite Z.shiftl_1_l.
  assert (H : Z.land x (2 ^ k) = if Z.testbit x k then 2 ^ k else 0).
  { apply Z.bits_inj'; intros n Hn.
    rewrite Z.land_spec, Z.pow2_bits_eqb by exact Hk.
    destruct (Z.eqb_spec k n) as [->|Hne].
    - destruct (Z.testbit x n) eqn:Hb.
      + rewrite Z.pow2_bits_true by exact Hn. reflexivity.
      + now rewrite Z.bits_0.
    - rewrite andb_false_r.
      destruct (Z.testbit x k).
      + rewrite Z.pow2_bits_false by (try exact Hk; congruence).
        reflexivity.
      + now rewrite Z.bits_0. }
  rewrite H. unfold truthy.
  destruct (Z.testbit x k); [|reflexivity].
  pose proof (Z.pow_pos_nonneg 2 k ltac:(lia) Hk).
  destruct (Z.eqb_spec (2 ^ k) 0); [lia|reflexivity].
Qed.

(** The bits of the address shown: those of the path, and bits 48 to 63
    when bit 47 is set. *)
Lemma entry_va_bits (va_start : Z) (level : nat) (i n : Z) :
  0 <= n ->
  Z.testbit (entry_va va_start level i) n
  = Z.testbit (Z.lor va_start (Z.shiftl i (shift level))) n
    || (Z.testbit (Z.lor va_start (Z.shiftl i (shift level))) 47
        && ((48 <=? n) && (n <? 64))).
Proof.
  intros Hn. unfold entry_va. rewrite truthy_pow2 by lia.
  destruct (Z.testbit (Z.lor va_start (Z.shiftl i (shift level))) 47).
  - change 0xFFFF000000000000 with (Z.shiftl (Z.ones 16) 48).
    rewrite Z.lor_spec with (a := Z.lor va_start _).
    rewrite Z.shiftl_spec, testbit_ones by lia.
    f_equal. cbn [andb].
    destruct (Z.leb_spec 0 (n - 48)), (Z.leb_spec 48 n),
      (Z.ltb_spec (n - 48) 16), (Z.ltb_spec n 64); try lia; reflexivity.
  - cbn [andb]. now rewrite orb_false_r.
Qed.

(** The bits of one step of the path, for an index of the table and a
    path so far with nothing below the next index field. *)
Lemma path_bits (va_start s i n : Z) :
  0 <= s -> 0 <= i < 512 -> 0 <= n ->
  (forall k, 0 <= k < s + 9 -> Z.testbit va_start k = false) ->
  Z.testbit (Z.lor va_start (Z.shiftl i s)) n
  = if n <? s then false
    else if n <? s + 9 then Z.testbit i (n - s) else Z.testbit va_start n.
Proof.
  intros Hs Hi Hn Hinv.
  rewrite Z.lor_spec, Z.shiftl_spec by exact Hn.
  destruct (Z.ltb_spec n s).
  - rewrite Hinv by lia. rewrite Z.testbit_neg_r by lia. reflexivity.
  - destruct (Z.ltb_spec n (s + 9)).
    + rewrite Hinv by lia. reflexivity.
    + rewrite (small_bits i 9 (n - s)) by lia. apply orb_false_r.
Qed.

(** **** An invariant carried along the path *)

Section Path.
Variable mem : physmem.
Variable target_va : option Z.
Variable max_entries : Z.
Variable Inv : nat -> Z -> Prop.
Variable P : event -> Prop.
Hypothesis Pread : forall a, P (ReadMemory a 8).
Hypothesis Pheader : forall l name a, P (Print (TableHeader l name a)).
Hypothesis Praw : forall l e, P (Print (RawLine l e)).
Hypothesis Ptrunc : forall l n, P (Print (Truncated l n)).
Hypothesis Pentry : forall l v i entry,
    (l <= 3)%nat -> Inv l v -> 0 <= i < 512 ->
    Z.land entry 1 = 1 ->
    not_on_target_path l target_va i = false ->
    P (Print (EntryLine l i (entry_va v l i) (decode_pte (Some entry) l))).
Hypothesis Inv_step : forall l v i,
    (l < 3)%nat -> Inv l v -> 0 <= i < 512 ->
    not_on_target_path l target_va i = false ->
    Inv (S l) (Z.lor v (Z.shiftl i (shift l))).

Lemma walk_entries_path recurse table_addr va_start level :
  (level <= 3)%nat -> Inv level va_start ->
  forall indices,
    (forall i, In i indices -> 0 <= i < 512) ->
    (forall i a sub,
        In i indices -> (level < 3)%nat ->
        not_on_target_path level target_va i = false ->
        recurse a (Z.lor va_start (Z.shiftl i (shift level))) = Some sub ->
        Forall P sub) ->
    forall n tr,
      walk_entries mem recurse table_addr va_start level target_va
                   max_entries indices n = Some tr ->
      Forall P tr.
Proof.
  intros Hl Hinv.
  induction indices as [|i rest IH]; intros Hin Hrec n tr H.
  - apply Some_eq in H. subst tr. constructor.
  - assert (Hi : 0 <= i < 512) by (apply Hin; left; reflexivity).
    assert (IH' : forall n tr,
               walk_entries mem recurse table_addr va_start level target_va
                            max_entries rest n = Some tr -> Forall P tr).
    { apply IH.
      - intros j Hj. apply Hin. right. exact Hj.
      - intros j a sub Hj. apply Hrec. right. exact Hj. }
    assert (Hbelow : forall entry sub,
              not_on_target_path level target_va i = false ->
              below recurse va_start level i entry = Some sub ->
              Forall P sub).
    { intros entry sub Hp. unfold below.
      destruct (Nat.ltb_spec level 3) as [Hlt|Hge]; cbn [andb].
      - destruct (truthy _).
        + apply Hrec; [left; reflexivity|exact Hlt|exact Hp].
        + intros Hs. apply Some_eq in Hs. subst sub. constructor.
      - intros Hs. apply Some_eq in Hs. subst sub. constructor. }
    apply walk_entries_cases in H.
    destruct H as [[_ (tr' & Hrest & ->)]|
      (entry & sub & Hm & Hv & Hp & Hb &
       [(tr' & _ & Hrest & ->)|(_ & Hnone & ->)])].
    + constructor; [apply Pread|]. eapply IH', Hrest.
    + constructor; [apply Pread|].
      unfold shown. cbn [app].
      constructor; [now apply Pentry|].
      constructor; [apply Praw|].
      apply Forall_app. split; [now apply (Hbelow entry)|].
      eapply IH', Hrest.
    + constructor; [apply Pread|].
      unfold shown. cbn [app].
      constructor; [now apply Pentry|].
      constructor; [apply Praw|].
      apply Forall_app. split; [now apply (Hbelow entry)|].
      constructor; [apply Ptrunc|constructor].
Qed.

Lemma walk_table_path fuel : forall table_addr va_start level tr,
  Inv level va_start ->
  walk_table mem fuel table_addr va_start level target_va max_entries
    = Some tr ->
  Forall P tr.
Proof.
  induction fuel as [|fuel IH]; intros table_addr va_start level tr Hinv H;
    [discriminate|].
  destruct (Nat.ltb_spec 3 level) as [Hl|Hl].
  - rewrite walk_table_S in H.
    destruct (Nat.ltb_spec 3 level); [|lia].
    apply Some_eq in H. subst tr. constructor.
  - destruct (walk_table_inv _ _ _ _ _ _ _ _ H Hl)
      as (fuel' & tr' & Hf & Hw & ->).
    injection Hf as <-.
    constructor; [apply Pheader|].
    revert Hw. apply walk_entries_path; try assumption.
    + intros i Hi. now apply in_range512.
    + intros i a sub Hi Hlt Hp Hsub.
      eapply IH; [|exact Hsub].
      apply Inv_step; try assumption. now apply in_range512.
Qed.

End Path.

Lemma shift_range (l : nat) : (l <= 3)%nat -> 12 <= shift l <= 39.
Proof. intros Hl. destruct (shift_cases l Hl) as [Hs _]. lia. Qed.

Lemma entry_va_index (v : Z) (l : nat) (i : Z) :
  (l <= 3)%nat ->
  (forall k, 0 <= k < shift l + 9 -> Z.testbit v k = false) ->
  0 <= i < 512 ->
  idx_for_target (entry_va v l i) l = i /\
  Z.land (entry_va v l i) (Z.ones (shift l)) = 0 /\
  (Z.testbit (entry_va v l i) 47 = true ->
   forall n, 48 <= n < 64 -> Z.testbit (entry_va v l i) n = true).
Proof.
  intros Hl Hinv Hi. pose proof (shift_range l Hl) as Hs.
  split; [|split].
  - unfold idx_for_target. change 0x1FF with (Z.ones 9).
    apply Z.bits_inj'; intros n Hn.
    rewrite testbit_field by lia.
    destruct (Z.ltb_spec n 9) as [Hlt|Hge].
    + rewrite andb_true_r, entry_va_bits by lia.
      rewrite path_bits by (try exact Hinv; lia).
      destruct (Z.ltb_spec (n + shift l) (shift l)); [lia|].
      destruct (Z.ltb_spec (n + shift l) (shift l + 9)); [|lia].
      destruct (Z.leb_spec 48 (n + shift l)); [lia|].
      cbn [andb]. rewrite andb_false_r, orb_false_r.
      f_equal. lia.
    + rewrite andb_false_r. symmetry. apply (small_bits i 9); lia.
  - apply land_ones_zero; [lia|]. intros n Hn.
    rewrite entry_va_bits by lia.
    rewrite path_bits by (try exact Hinv; lia).
    destruct (Z.ltb_spec n (shift l)); [|lia].
    destruct (Z.leb_spec 48 n); [lia|].
    cbn [andb orb]. apply andb_false_r.
  - intros H47 n Hn.
    rewrite entry_va_bits in H47 by lia.
    change (48 <=? 47) with false in H47.
    cbn [andb] in H47. rewrite andb_false_r, orb_false_r in H47.
    rewrite entry_va_bits, H47 by lia.
    destruct (Z.leb_spec 48 n), (Z.ltb_spec n 64); try lia;
      apply orb_true_r.
Qed.

Lemma path_clear (v : Z) (l : nat) (i : Z) :
  (l < 3)%nat ->
  (forall k, 0 <= k < shift l + 9 -> Z.testbit v k = false) ->
  0 <= i < 512 ->
  forall k, 0 <= k < shift (S l) + 9 ->
            Z.testbit (Z.lor v (Z.shiftl i (shift l))) k = false.
Proof.
  intros Hl Hinv Hi k Hk.
  destruct (shift_cases l ltac:(lia)) as [Hs Hnext].
  rewrite (Hnext Hl) in Hk.
  rewrite path_bits by (try exact Hinv; lia).
  destruct (Z.ltb_spec k (shift l)); [reflexivity|lia].
Qed.

(** X15.  Every entry line printed by a walk whose starting address has
    nothing in the index fields still to come shows an address that
    names the entry: the index field of the line's level in the address
    shown is the index of the entry, the bits below that field are zero,
    and when bit 47 is set bits 48 to 63 are set as well. *)
Theorem shown_address_index (mem : physmem) (fuel : nat)
        (table_addr va_start : Z) (level : nat) (target_va : option Z)
        (max_entries : Z) (tr : list event) :
  walk_table mem fuel table_addr va_start level target_va max_entries
    = Some tr ->
  (level <= 3)%nat ->
  Z.land va_start (Z.ones (shift level + 9)) = 0 ->
  forall l i va d,
    In (Print (EntryLine l i va d)) tr ->
    (l <= 3)%nat /\ 0 <= i < 512 /\
    idx_for_target va l = i /\
    Z.land va (Z.ones (shift l)) = 0 /\
    (Z.testbit va 47 = true ->
     forall n, 48 <= n < 64 -> Z.testbit va n = true).
Proof.
  intros H Hl Hstart.
  assert (HF : Forall
            (fun ev =>
               match ev with
               | Print (EntryLine l i va d) =>
                   (l <= 3)%nat /\ 0 <= i < 512 /\
                   idx_for_target va l = i /\
                   Z.land va (Z.ones (shift l)) = 0 /\
                   (Z.testbit va 47 = true ->
                    forall n, 48 <= n < 64 -> Z.testbit va n = true)
               | _ => True
               end) tr).
  { revert H.
    apply (walk_table_path mem target_va max_entries
             (fun l v => (l <= 3)%nat /\
                         forall k, 0 <= k < shift l + 9 ->
                                   Z.testbit v k = false));
      try (intros; exact I).
    - intros l v i entry Hl' [_ Hinv] Hi _ _.
      split; [exact Hl'|]. split; [exact Hi|].
      now apply entry_va_index.
    - intros l v i Hlt [_ Hinv] Hi _. split; [lia|].
      now apply path_clear.
    - split; [exact Hl|].
      apply land_ones_zero; [|exact Hstart].
      pose proof (shift_range level Hl). lia. }
  intros l i va d Hin.
  rewrite Forall_forall in HF. exact (HF _ Hin).
Qed.

(** The dump of the kernel half of a memory with one path: the entry 4
    of the level-1 table. *)
Lemma shown_address_index_witness :
  (exists tr,
     walk_table (Examples.one_path_zeroes 0x40000601) 4 0x1000
                0xFFFF000000000000 0 None 10 = Some tr /\
     In (Print (EntryLine 1 4 0xFFFF000100000000
                  (decode_pte (Some 0x40000601) 1))) tr /\
     idx_for_target 0xFFFF000100000000 1 = 4) /\
  (0 <= 3)%nat /\
  Z.land 0xFFFF000000000000 (Z.ones (shift 0 + 9)) = 0.
Proof.
  split; [|split; [apply Nat.le_0_l|reflexivity]].
  destruct (walk_table (Examples.one_path_zeroes 0x40000601) 4 0x1000
                       0xFFFF000000000000 0 None 10) as [tr|] eqn:E;
    [|vm_compute in E; discriminate].
  exists tr. split; [reflexivity|].
  assert (Hin : In (Print (EntryLine 1 4 0xFFFF000100000000
                             (decode_pte (Some 0x40000601) 1))) tr).
  { vm_compute in E. apply Some_eq in E. subst tr.
    do 10 right. left. reflexivity. }
  split; [exact Hin|].
  exact (proj1 (proj2 (proj2 (shown_address_index _ _ _ _ _ _ _ _ E
                                (Nat.le_0_l 3) eq_refl _ _ _ _ Hin)))).
Defined.

(** **** The path of a target *)

Lemma target_index_bits (t : Z) (l : nat) (k : Z) :
  (l <= 3)%nat -> shift l <= k < shift l + 9 ->
  Z.testbit (idx_for_target t l) (k - shift l) = Z.testbit t k.
Proof.
  intros Hl Hk. pose proof (shift_range l Hl) as Hs.
  unfold idx_for_target. change 0x1FF with (Z.ones 9).
  rewrite testbit_field by lia.
  replace (k - shift l + shift l) with k by lia.
  destruct (Z.ltb_spec (k - shift l) 9); [apply andb_true_r|lia].
Qed.

Lemma on_target_path (l : nat) (t i : Z) :
  not_on_target_path l (Some t) i = false -> i = idx_for_target t l.
Proof.
  unfold not_on_target_path, idx_for_target. intros H.
  apply negb_false_iff in H. now apply Z.eqb_eq.
Qed.

Section TargetPath.
Variable mem : physmem.
Variable t max_entries : Z.
Variable root : Z.

(** What the walk carries down the path: nothing below the index
    fields still to come, the bits of the target above them up to bit
    47, the bits of the root's starting address from bit 48 on. *)
Local Abbreviation on_path :=
  (fun (l : nat) (v : Z) =>
     (forall k, 0 <= k < shift l + 9 -> Z.testbit v k = false) /\
     (forall k, shift l + 9 <= k < 48 -> Z.testbit v k = Z.testbit t k) /\
     (forall k, 48 <= k -> Z.testbit v k = Z.testbit root k)).

Local Abbreviation target_line :=
  (fun ev : event =>
     match ev with
     | Print (EntryLine l i va d) =>
         (l <= 3)%nat /\ i = idx_for_target t l /\
         (forall n, 0 <= n < 48 ->
            Z.testbit va n = (shift l <=? n) && Z.testbit t n) /\
         (forall n, 48 <= n ->
            Z.testbit va n
            = Z.testbit root n || (Z.testbit va 47 && (n <? 64)))
     | _ => True
     end).

Lemma entry_va_target (v : Z) (l : nat) :
  (l <= 3)%nat -> on_path l v ->
  (forall n, 0 <= n < 48 ->
     Z.testbit (entry_va v l (idx_for_target t l)) n
     = (shift l <=? n) && Z.testbit t n) /\
  (forall n, 48 <= n ->
     Z.testbit (entry_va v l (idx_for_target t l)) n
     = Z.testbit root n
       || (Z.testbit (entry_va v l (idx_for_target t l)) 47 && (n <? 64))).
Proof.
  intros Hl (Hclear & Hprefix & Hhigh).
  pose proof (shift_range l Hl) as Hs.
  pose proof (idx_for_target_range t l) as Hi.
  assert (Hraw : forall n, 0 <= n ->
            Z.testbit (Z.lor v (Z.shiftl (idx_for_target t l) (shift l))) n
            = if n <? shift l then false
              else if n <? 48 then Z.testbit t n else Z.testbit root n).
  { intros n Hn. rewrite path_bits by (try exact Hclear; lia).
    destruct (Z.ltb_spec n (shift l)); [reflexivity|].
    destruct (Z.ltb_spec n (shift l + 9)), (Z.ltb_spec n 48); try lia.
    - apply target_index_bits; [exact Hl|lia].
    - apply Hprefix. lia.
    - apply Hhigh. lia. }
  assert (H47 : Z.testbit (entry_va v l (idx_for_target t l)) 47
                = Z.testbit
                    (Z.lor v (Z.shiftl (idx_for_target t l) (shift l))) 47).
  { rewrite entry_va_bits by lia.
    change (48 <=? 47) with false. cbn [andb].
    now rewrite andb_false_r, orb_false_r. }
  split.
  - intros n Hn. rewrite entry_va_bits, Hraw by lia.
    destruct (Z.ltb_spec n (shift l)), (Z.leb_spec (shift l) n),
      (Z.ltb_spec n 48), (Z.leb_spec 48 n); try lia;
      cbn [andb orb]; rewrite ?andb_false_r, ?orb_false_r; reflexivity.
  - intros n Hn. rewrite H47, entry_va_bits, Hraw by lia.
    destruct (Z.ltb_spec n (shift l)), (Z.ltb_spec n 48),
      (Z.leb_spec 48 n); try lia.
    reflexivity.
Qed.

Lemma on_path_step (v : Z) (l : nat) :
  (l < 3)%nat -> on_path l v ->
  on_path (S l) (Z.lor v (Z.shiftl (idx_for_target t l) (shift l))).
Proof.
  intros Hl (Hclear & Hprefix & Hhigh).
  pose proof (shift_range l ltac:(lia)) as Hs.
  pose proof (idx_for_target_range t l) as Hi.
  destruct (shift_cases l ltac:(lia)) as [_ Hnext].
  specialize (Hnext Hl).
  split; [|split].
  - now apply path_clear.
  - intros k Hk. rewrite Hnext in Hk.
    rewrite path_bits by (try exact Hclear; lia).
    destruct (Z.ltb_spec k (shift l)); [lia|].
    destruct (Z.ltb_spec k (shift l + 9)).
    + apply target_index_bits; lia.
    + apply Hprefix. lia.
  - intros k Hk.
    rewrite path_bits by (try exact Hclear; lia).
    destruct (Z.ltb_spec k (shift l)); [lia|].
    destruct (Z.ltb_spec k (shift l + 9)); [lia|].
    apply Hhigh. exact Hk.
Qed.

Lemma walk_table_target_bits fuel table_addr tr :
  Z.land root (Z.ones 48) = 0 ->
  walk_table mem fuel table_addr root 0 (Some t) max_entries = Some tr ->
  Forall target_line tr.
Proof.
  intros Hroot.
  apply (walk_table_path mem (Some t) max_entries on_path target_line);
    try (intros; exact I).
  - intros l v i entry Hl Hinv Hi _ Hp.
    apply on_target_path in Hp. subst i.
    split; [exact Hl|]. split; [reflexivity|].
    now apply entry_va_target.
  - intros l v i Hl Hinv Hi Hp.
    apply on_target_path in Hp. subst i.
    now apply on_path_step.
  - split; [|split].
    + change (shift 0 + 9) with 48.
      apply land_ones_zero; [lia|exact Hroot].
    + change (shift 0 + 9) with 48. intros k Hk. lia.
    + reflexivity.
Qed.

End TargetPath.

Lemma kernel_bits (t n : Z) :
  0xFFFF000000000000 <= t < 2 ^ 64 -> 48 <= n ->
  Z.testbit t n = (n <? 64).
Proof.
  intros Ht Hn.
  replace n with (n - 48 + 48) at 1 by lia.
  rewrite <- Z.shiftr_spec by lia.
  assert (Hq : Z.shiftr t 48 = Z.ones 16).
  { rewrite Z.shiftr_div_pow2 by lia. symmetry.
    apply (Z.div_unique t (2 ^ 48) (Z.ones 16) (t - Z.ones 16 * 2 ^ 48)).
    - left. change (Z.ones 16) with 65535.
      change (2 ^ 48) with 281474976710656.
      change (2 ^ 64) with 18446744073709551616 in Ht. lia.
    - lia. }
  rewrite Hq, testbit_ones by lia.
  destruct (Z.leb_spec 0 (n - 48)), (Z.ltb_spec (n - 48) 16),
    (Z.ltb_spec n 64); try lia; reflexivity.
Qed.

Lemma register_dump_no_level (regs : regfile) (ev : event) :
  In ev (register_dump regs) -> level_of ev = None.
Proof.
  unfold register_dump, show_registers.
  destruct (regs "TTBR0_EL1"), (regs "TTBR1_EL1"), (regs "TCR_EL1"),
    (regs "SCTLR_EL1"); cbn [app In]; intros H;
    repeat (destruct H as [<-|H]; [reflexivity|]); contradiction.
Qed.

(** X16.  With an address, every entry line [invoke] prints lies on the
    path of the address: its index is the index of the address at the
    line's level, and the low 48 bits of the address shown are those of
    the address given with the bits below the level's index field
    cleared.  For an address of the lower half below 2^47, and for an
    address of 64 bits from [0xFFFF000000000000] up, the address shown
    is the address given rounded down to the size an entry of that level
    covers. *)
Theorem target_walk_addresses (regs : regfile) (mem : physmem)
        (fuel : nat) (t : Z) (tr : list event) :
  invoke regs mem fuel (Address t) = Some tr ->
  forall l i va d,
    In (Print (EntryLine l i va d)) tr ->
    (l <= 3)%nat /\ i = idx_for_target t l /\
    Z.land va (Z.ones 48)
    = Z.shiftl (Z.shiftr (Z.land t (Z.ones 48)) (shift l)) (shift l) /\
    (0 <= t < 2 ^ 47 \/ 0xFFFF000000000000 <= t < 2 ^ 64 ->
     va = Z.shiftl (Z.shiftr t (shift l)) (shift l)).
Proof.
  intros H l i va d Hin.
  rewrite invoke_address in H.
  set (root := if 0xFFFF000000000000 <=? t
               then 0xFFFF000000000000 else 0) in H.
  assert (Hroot : Z.land root (Z.ones 48) = 0)
    by (subst root; destruct (0xFFFF000000000000 <=? t); reflexivity).
  assert (Hline : exists w ttbr,
             walk_table mem fuel (base ttbr) root 0 (Some t) 512 = Some w /\
             In (Print (EntryLine l i va d)) w).
  { destruct (regs (if 0xFFFF000000000000 <=? t
                    then "TTBR1_EL1" else "TTBR0_EL1")) as [ttbr|].
    - destruct (walk_table mem fuel (base ttbr) root 0 (Some t) 512)
        as [w|] eqn:Hw; [|discriminate].
      cbn [followed_by followed_by_footer] in H.
      apply Some_eq in H. subst tr.
      exists w, ttbr. split; [exact Hw|].
      apply in_app_or in Hin. destruct Hin as [Hin|Hin].
      + exfalso. apply in_app_or in Hin. destruct Hin as [Hin|Hin].
        * apply register_dump_no_level in Hin. discriminate.
        * destruct (0xFFFF000000000000 <=? t);
            destruct Hin as [Hin|[Hin|[]]]; discriminate.
      + apply in_app_or in Hin. destruct Hin as [Hin|Hin]; [exact Hin|].
        destruct Hin as [Hin|[]]; discriminate.
    - exfalso. apply Some_eq in H. subst tr.
      apply in_app_or in Hin. destruct Hin as [Hin|Hin].
      + apply register_dump_no_level in Hin. discriminate.
      + destruct (0xFFFF000000000000 <=? t);
          destruct Hin as [Hin|[Hin|[]]]; discriminate. }
  destruct Hline as (w & ttbr & Hw & Hinw).
  pose proof (walk_table_target_bits mem t 512 root fuel (base ttbr) w
                Hroot Hw) as HF.
  rewrite Forall_forall in HF. specialize (HF _ Hinw). cbv beta iota in HF.
  destruct HF as (Hl & Hi & Hlow & Hhigh).
  pose proof (shift_range l Hl) as Hs.
  split; [exact Hl|]. split; [exact Hi|]. split.
  - apply Z.bits_inj'; intros n Hn.
    rewrite Z.land_spec, testbit_ones, Z.shiftl_spec by lia.
    destruct (Z.leb_spec 0 n); [|lia]. cbn [andb].
    destruct (Z.ltb_spec n 48).
    + rewrite Hlow by lia.
      destruct (Z.leb_spec (shift l) n).
      * rewrite Z.shiftr_spec, Z.land_spec, testbit_ones by lia.
        replace (n - shift l + shift l) with n by lia.
        destruct (Z.leb_spec 0 n), (Z.ltb_spec n 48); try lia.
        cbn [andb]. now rewrite !andb_true_r.
      * rewrite (Z.testbit_neg_r _ (n - shift l)) by lia. reflexivity.
    + rewrite Z.shiftr_spec, Z.land_spec, testbit_ones by lia.
      replace (n - shift l + shift l) with n by lia.
      destruct (Z.ltb_spec n 48); [lia|]. now rewrite !andb_false_r.
  - intros Hcanon. apply Z.bits_inj'; intros n Hn.
    rewrite Z.shiftl_spec by lia.
    destruct (Z.ltb_spec n 48) as [Hlt|Hge].
    + rewrite Hlow by lia.
      destruct (Z.leb_spec (shift l) n).
      * rewrite Z.shiftr_spec by lia.
        replace (n - shift l + shift l) with n by lia. reflexivity.
      * rewrite (Z.testbit_neg_r _ (n - shift l)) by lia. reflexivity.
    + rewrite Z.shiftr_spec by lia.
      replace (n - shift l + shift l) with n by lia.
      rewrite Hhigh by lia. subst root.
      destruct Hcanon as [Hu|Hk].
      * destruct (Z.leb_spec 0xFFFF000000000000 t); [lia|].
        rewrite Z.bits_0, (Hlow 47) by lia.
        rewrite (small_bits t 47 47), (small_bits t 47 n) by lia.
        now rewrite andb_false_r.
      * destruct (Z.leb_spec 0xFFFF000000000000 t); [|lia].
        rewrite (kernel_bits t n Hk) by lia.
        change 0xFFFF000000000000 with (Z.shiftl (Z.ones 16) 48).
        rewrite Z.shiftl_spec, testbit_ones by lia.
        destruct (Z.leb_spec 0 (n - 48)), (Z.ltb_spec (n - 48) 16),
          (Z.ltb_spec n 64); try lia; cbn [andb orb];
          rewrite ?andb_false_r; reflexivity.
Qed.

(** The walk for [0x123456789]: the block at level 1 is shown with the
    address [0x100000000]. *)
Lemma target_walk_addresses_witness :
  exists tr,
    invoke (Examples.two_roots 0x1000 0x5000)
           (Examples.one_path_zeroes 0x40000601) 4 (Address 0x123456789)
    = Some tr /\
    In (Print (EntryLine 1 4 0x100000000
                 (decode_pte (Some 0x40000601) 1))) tr /\
    0x100000000 = Z.shiftl (Z.shiftr 0x123456789 (shift 1)) (shift 1).
Proof.
  destruct (invoke (Examples.two_roots 0x1000 0x5000)
                   (Examples.one_path_zeroes 0x40000601) 4
                   (Address 0x123456789)) as [tr|] eqn:E;
    [|vm_compute in E; discriminate].
  exists tr. split; [reflexivity|].
  assert (Hin : In (Print (EntryLine 1 4 0x100000000
                             (decode_pte (Some 0x40000601) 1))) tr).
  { vm_compute in E. apply Some_eq in E. subst tr.
    repeat (first [left; reflexivity | right]). }
  split; [exact Hin|].
  apply (proj2 (proj2 (proj2 (target_walk_addresses _ _ _ _ _ E
                                _ _ _ _ Hin)))).
  left. split; [discriminate|reflexivity].
Defined.

(** *** Labels and descent *)

Lemma headers_app (a b : list event) :
  headers (a ++ b) = headers a ++ headers b.
Proof.
  induction a as [|ev a IH]; [reflexivity|].
  destruct ev as [name|addr size|[]]; cbn [app headers]; try exact IH.
  f_equal. exact IH.
Qed.

Lemma table_lines_app (a b : list event) :
  table_lines (a ++ b) = table_lines a ++ table_lines b.
Proof.
  induction a as [|ev a IH]; [reflexivity|].
  destruct ev as [name|addr size|[]]; cbn [app table_lines]; try exact IH.
  destruct d; cbn [app]; try exact IH. f_equal. exact IH.
Qed.

Lemma decode_pte_cases (entry : Z) (level : nat) :
  Z.land entry 1 = 1 ->
  if (level <? 3)%nat && truthy (Z.land (Z.shiftr entry 1) 1)
  then decode_pte (Some entry) level
       = TABLE (Z.land entry 0x0000FFFFFFFFF000)
  else exists kind next_addr block_size ap_str xn_str sh_str af_str,
         decode_pte (Some entry) level
         = LEAF kind next_addr block_size ap_str xn_str sh_str af_str.
Proof.
  intros Hv. unfold decode_pte. rewrite (truthy_1 _ Hv). cbn [negb].
  destruct ((level <? 3)%nat && truthy (Z.land (Z.shiftr entry 1) 1));
    [reflexivity|].
  do 7 eexists. reflexivity.
Qed.

Section Labels.
Variable mem : physmem.
Variable target_va : option Z.
Variable max_entries : Z.

Lemma walk_entries_labels recurse table_addr va_start level :
  (forall a v sub, (level < 3)%nat -> recurse a v = Some sub ->
                   headers sub = (S level, a) :: table_lines sub) ->
  forall indices n tr,
    walk_entries mem recurse table_addr va_start level target_va
                 max_entries indices n = Some tr ->
    headers tr = table_lines tr.
Proof.
  intros Hrec.
  assert (Hshown : forall i entry sub,
            Z.land entry 1 = 1 ->
            below recurse va_start level i entry = Some sub ->
            headers (shown va_start level i entry ++ sub)
            = table_lines (shown va_start level i entry ++ sub)).
  { intros i entry sub Hv. unfold below, shown.
    pose proof (decode_pte_cases entry level Hv) as Hd.
    destruct (Nat.ltb_spec level 3) as [Hlt|Hge]; cbn [andb] in *.
    - destruct (truthy (Z.land (Z.shiftr entry 1) 1)).
      + intros Hsub. rewrite Hd. cbn [app headers table_lines].
        f_equal. apply Hrec in Hsub; [|exact Hlt].
        rewrite Hsub. reflexivity.
      + destruct Hd as (k & a & b & ap & xn & sh & af & ->).
        intros Hs. apply Some_eq in Hs. subst sub. reflexivity.
    - destruct Hd as (k & a & b & ap & xn & sh & af & ->).
      intros Hs. apply Some_eq in Hs. subst sub. reflexivity. }
  induction indices as [|i rest IH]; intros n tr H.
  - apply Some_eq in H. now subst tr.
  - apply walk_entries_cases in H.
    destruct H as [[_ (tr' & Hrest & ->)]|
      (entry & sub & Hm & Hv & Hp & Hb &
       [(tr' & _ & Hrest & ->)|(_ & Hnone & ->)])];
      cbn [headers table_lines].
    + eapply IH, Hrest.
    + rewrite !app_assoc, headers_app, table_lines_app.
      rewrite (Hshown _ _ _ Hv Hb), (IH _ _ Hrest). reflexivity.
    + rewrite !app_assoc, headers_app, table_lines_app.
      rewrite (Hshown _ _ _ Hv Hb). reflexivity.
Qed.

Lemma walk_table_labels fuel : forall table_addr va_start level tr,
  walk_table mem fuel table_addr va_start level target_va max_entries
    = Some tr ->
  (level <= 3)%nat ->
  headers tr = (level, table_addr) :: table_lines tr.
Proof.
  induction fuel as [|fuel IH]; intros table_addr va_start level tr H Hl;
    [discriminate|].
  destruct (walk_table_inv _ _ _ _ _ _ _ _ H Hl)
    as (fuel' & tr' & Hf & Hw & ->).
  injection Hf as <-.
  cbn [headers table_lines]. f_equal.
  revert Hw. apply walk_entries_labels.
  intros a v sub Hlt Hsub. apply (IH _ _ _ _ Hsub). lia.
Qed.

End Labels.

(** X17.  The label an entry line carries and the descent of the walk
    agree, although [decode_pte] and [walk_table] each test the entry on
    their own: the tables walked are, in order, the table of the call
    followed by one table for each entry line labelled as a table, at
    the level below that line and at the address on its label.  No table
    is walked unannounced, and no entry labelled as a block or a page is
    descended into. *)
Theorem tables_are_those_labelled (mem : physmem) (fuel : nat)
        (table_addr va_start : Z) (level : nat) (target_va : option Z)
        (max_entries : Z) (tr : list event) :
  walk_table mem fuel table_addr va_start level target_va max_entries
    = Some tr ->
  (level <= 3)%nat ->
  headers tr = (level, table_addr) :: table_lines tr /\
  tables tr = S (List.length (table_lines tr)).
Proof.
  intros H Hl.
  pose proof (walk_table_labels _ _ _ _ _ _ _ _ H Hl) as Hh.
  split; [exact Hh|].
  change (S (List.length (table_lines tr)))
    with (List.length ((level, table_addr) :: table_lines tr)).
  rewrite <- Hh.
  clear. unfold tables. induction tr as [|ev tr IH]; [reflexivity|].
  destruct ev as [name|addr size|[]]; cbn [headers filter is_header];
    try exact IH.
  cbn [List.length]. f_equal. exact IH.
Qed.

(** The path to the block of [0x123456789]: the root at 0x1000, then
    the table at 0x2000 announced by entry 0. *)
Lemma tables_are_those_labelled_witness :
  (exists tr,
     walk_table (Examples.one_path_zeroes 0x40000601) 4 0x1000 0 0
                (Some 0x123456789) 512 = Some tr /\
     headers tr = (0%nat, 0x1000) :: table_lines tr /\
     table_lines tr = [(1%nat, 0x2000)]) /\
  (0 <= 3)%nat.
Proof.
  split; [|apply Nat.le_0_l].
  destruct (walk_table (Examples.one_path_zeroes 0x40000601) 4
                       0x1000 0 0 (Some 0x123456789) 512) as [tr|] eqn:E;
    [|vm_compute in E; discriminate].
  exists tr. split; [reflexivity|].
  split.
  - exact (proj1 (tables_are_those_labelled _ _ _ _ _ _ _ _ E
                    (Nat.le_0_l 3))).
  - vm_compute in E. apply Some_eq in E. subst tr.
    vm_compute. reflexivity.
Defined.

(** *** What the output depends on *)

Section Frame.
Variables mem mem' : physmem.
Variable target_va : option Z.
Variable max_entries : Z.

Lemma visit_first_read recurse table_addr va_start level i n seg st :
  visit mem recurse table_addr va_start level target_va max_entries i n
    = Some (seg, st) ->
  In (ReadMemory (table_addr + i * 8) 8) seg.
Proof.
  destruct (visit_iteration mem recurse table_addr va_start level
              target_va max_entries i n)
    as [Hm|entry Hm Hv|entry Hm Hv Hp|entry Hm Hv Hp Hb
        |entry sub Hm Hv Hp Hb Hle Hnone|entry sub Hm Hv Hp Hb Hor];
    intros H; try discriminate;
    apply Some_eq in H; apply (f_equal fst) in H; cbn [fst] in H;
    subst seg; left; reflexivity.
Qed.

Lemma visit_frame recurse recurse' table_addr va_start level i n seg st :
  (forall a v sub,
      recurse a v = Some sub ->
      (forall x, In (ReadMemory x 8) sub -> mem x = mem' x) ->
      recurse' a v = Some sub) ->
  visit mem recurse table_addr va_start level target_va max_entries i n
    = Some (seg, st) ->
  (forall x, In (ReadMemory x 8) seg -> mem x = mem' x) ->
  visit mem' recurse' table_addr va_start level target_va max_entries i n
    = Some (seg, st).
Proof.
  intros Hrec Hv Hag.
  pose proof (Hag _ (visit_first_read _ _ _ _ _ _ _ _ Hv)) as Hm.
  revert Hv Hag. unfold visit, read_u64. rewrite <- Hm.
  destruct (mem (table_addr + i * 8)) as [entry|]; [|trivial].
  destruct (negb (truthy (Z.land entry 1))); [trivial|].
  destruct (not_on_target_path level target_va i); [trivial|].
  destruct ((level <? 3)%nat && truthy (Z.land (Z.shiftr entry 1) 1));
    [|trivial].
  destruct (recurse (Z.land entry 0x0000FFFFFFFFF000)
                    (Z.lor va_start (Z.shiftl i (shift level))))
    as [sub|] eqn:Hsub; [|discriminate].
  intros Hv Hag.
  rewrite (Hrec _ _ _ Hsub); [exact Hv|].
  intros x Hx. apply Hag.
  destruct ((max_entries <=? n + 1) && target_is_none target_va);
    apply Some_eq in Hv; apply (f_equal fst) in Hv; cbn [fst] in Hv;
    subst seg;
    repeat (apply in_or_app; first [left; exact Hx | right]);
    try exact Hx.
Qed.

Lemma walk_entries_frame recurse recurse' table_addr va_start level :
  (forall a v sub,
      recurse a v = Some sub ->
      (forall x, In (ReadMemory x 8) sub -> mem x = mem' x) ->
      recurse' a v = Some sub) ->
  forall indices n tr,
    walk_entries mem recurse table_addr va_start level target_va
                 max_entries indices n = Some tr ->
    (forall x, In (ReadMemory x 8) tr -> mem x = mem' x) ->
    walk_entries mem' recurse' table_addr va_start level target_va
                 max_entries indices n = Some tr.
Proof.
  intros Hrec. induction indices as [|i rest IH]; intros n tr;
    [trivial|].
  cbn [walk_entries].
  destruct (visit mem recurse table_addr va_start level target_va
                  max_entries i n) as [[seg st]|] eqn:Hvis;
    [|discriminate].
  destruct st as [n'|].
  - unfold followed_by.
    destruct (walk_entries mem recurse table_addr va_start level target_va
                           max_entries rest n') as [tr'|] eqn:Hr;
      [|discriminate].
    intros H Hag. apply Some_eq in H. subst tr.
    rewrite (visit_frame _ _ _ _ _ _ _ _ _ Hrec Hvis)
      by (intros x Hx; apply Hag, in_or_app; left; exact Hx).
    rewrite (IH _ _ Hr)
      by (intros x Hx; apply Hag, in_or_app; right; exact Hx).
    reflexivity.
  - intros H Hag. apply Some_eq in H. subst tr.
    rewrite (visit_frame _ _ _ _ _ _ _ _ _ Hrec Hvis) by exact Hag.
    reflexivity.
Qed.

End Frame.

(** X19.  The output of [walk_table] depends on the memory through the
    entries it reads only: a memory that agrees with the one walked on
    every address read gives the same output, reads included, whatever
    it holds elsewhere. *)
Theorem enumeration_depends_on_entries_read (mem mem' : physmem)
        (fuel : nat) (table_addr va_start : Z) (level : nat)
        (target_va : option Z) (max_entries : Z) (tr : list event) :
  walk_table mem fuel table_addr va_start level target_va max_entries
    = Some tr ->
  (forall x, In (ReadMemory x 8) tr -> mem x = mem' x) ->
  walk_table mem' fuel table_addr va_start level target_va max_entries
    = Some tr.
Proof.
  revert table_addr va_start level tr.
  induction fuel as [|fuel IH]; intros table_addr va_start level tr;
    [discriminate|].
  rewrite !walk_table_S.
  destruct (3 <? level)%nat; [trivial|].
  unfold followed_by.
  destruct (walk_entries mem
              (fun next_addr va =>
                 walk_table mem fuel next_addr va (S level)
                            target_va max_entries)
              table_addr va_start level target_va
              max_entries range512 0) as [tr'|] eqn:Hw;
    [|discriminate].
  intros H Hag. apply Some_eq in H. subst tr.
  rewrite (walk_entries_frame mem mem' target_va max_entries _
             (fun next_addr va =>
                walk_table mem' fuel next_addr va (S level)
                           target_va max_entries) _ _ _
             (fun a v sub => IH a v (S level) sub) _ _ _ Hw).
  - reflexivity.
  - intros x Hx. apply Hag. right. exact Hx.
Qed.

(** A level-3 table at 0x1000 with one page, in two memories that
    differ outside the table: at 0x3000 one holds a table descriptor,
    the other nothing. *)
Lemma enumeration_depends_on_entries_read_witness :
  exists tr,
    walk_table (Examples.one_entry 0x40000403) 1 0x1000 0 3 None 10
    = Some tr /\
    walk_table (fun a => if a =? 0x3000 then Some 3
                         else Examples.one_entry 0x40000403 a)
               1 0x1000 0 3 None 10
    = Some tr.
Proof.
  destruct (walk_table (Examples.one_entry 0x40000403) 1 0x1000 0 3 None 10)
    as [tr|] eqn:E; [|vm_compute in E; discriminate].
  exists tr. split; [reflexivity|].
  apply (enumeration_depends_on_entries_read _ _ _ _ _ _ _ _ _ E).
  intros x Hx.
  assert (Hall : forallb (fun ev => match ev with
                                   | ReadMemory a _ => negb (a =? 0x3000)
                                   | _ => true
                                   end) tr = true).
  { vm_compute in E. apply Some_eq in E. subst tr.
    vm_compute. reflexivity. }
  rewrite forallb_forall in Hall. specialize (Hall _ Hx).
  cbv beta iota in Hall.
  destruct (Z.eqb_spec x 0x3000); [discriminate|reflexivity].
Defined.

(** *** What a walk with a target prints *)

Lemma printed_app (a b : list event) :
  printed (a ++ b) = printed a ++ printed b.
Proof.
  induction a as [|ev a IH]; [reflexivity|].
  destruct ev; cbn [app printed]; try exact IH. f_equal. exact IH.
Qed.

#[local] Transparent range512.

Lemma flat_map_index_seq {A : Type} (f : Z -> list A) (idx : Z) (n : nat) :
  forall a : nat,
    (forall i, i <> idx -> f i = []) ->
    flat_map f (List.map Z.of_nat (seq a n))
    = if (Z.of_nat a <=? idx) && (idx <? Z.of_nat (a + n))
      then f idx else [].
Proof.
  induction n as [|n IH]; intros a Hf.
  - cbn [seq List.map flat_map]. rewrite Nat.add_0_r.
    destruct (Z.leb_spec (Z.of_nat a) idx), (Z.ltb_spec idx (Z.of_nat a));
      try reflexivity; lia.
  - cbn [seq List.map flat_map]. rewrite <- Nat.add_succ_comm, IH by exact Hf.
    destruct (Z.eqb_spec (Z.of_nat a) idx) as [He|He].
    + rewrite He.
      destruct (Z.leb_spec (Z.of_nat (S a)) idx); [lia|].
      destruct (Z.leb_spec idx idx); [|lia].
      destruct (Z.ltb_spec idx (Z.of_nat (S a + n))); [|lia].
      cbn [andb]. apply app_nil_r.
    + rewrite (Hf _ He). cbn [app].
      destruct (Z.leb_spec (Z.of_nat (S a)) idx),
               (Z.leb_spec (Z.of_nat a) idx); try reflexivity; lia.
Qed.

Lemma flat_map_index_range512 {A : Type} (f : Z -> list A) (idx : Z) :
  0 <= idx < 512 ->
  (forall i, i <> idx -> f i = []) ->
  flat_map f range512 = f idx.
Proof.
  intros Hi Hf. unfold range512.
  rewrite (flat_map_index_seq f idx) by exact Hf.
  destruct (Z.leb_spec (Z.of_nat 0) idx),
           (Z.ltb_spec idx (Z.of_nat (0 + 512))); try reflexivity; lia.
Qed.

#[local] Opaque range512.

Section TargetPrinted.
Variable mem : physmem.
Variable recurse : Z -> Z -> option (list event).
Variables (table_addr va_start : Z) (level : nat).
Variables (target max_entries : Z).

(** What the entry of index [i] contributes to the lines printed. *)
Local Abbreviation lines_of :=
  (fun i : Z =>
     if i =? idx_for_target target level then
       match visible mem (table_addr + i * 8) with
       | Some entry =>
           printed (shown va_start level i entry)
           ++ match below recurse va_start level i entry with
              | Some sub => printed sub
              | None => []
              end
       | None => []
       end
     else []).

Lemma walk_entries_printed_target indices : forall n tr,
  walk_entries mem recurse table_addr va_start level (Some target)
               max_entries indices n = Some tr ->
  printed tr = flat_map lines_of indices.
Proof.
  induction indices as [|i rest IH]; intros n tr H.
  - apply Some_eq in H. now subst tr.
  - apply walk_entries_cases in H. cbn [flat_map].
    destruct H as [[Hskip (tr' & Hrest & ->)]|
      (entry & sub & Hm & Hv & Hp & Hb &
       [(tr' & _ & Hrest & ->)|(_ & Hnone & _)])];
      [| |discriminate].
    + cbn [printed]. rewrite (IH _ _ Hrest).
      replace (lines_of i) with (@nil line); [reflexivity|].
      destruct Hskip as [Hskip|Hskip].
      * unfold visible. unfold present in Hskip.
        destruct (i =? idx_for_target target level); [|reflexivity].
        destruct (mem (table_addr + i * 8)) as [e|]; [|reflexivity].
        now rewrite Hskip.
      * unfold not_on_target_path in Hskip.
        apply negb_true_iff in Hskip.
        unfold idx_for_target. now rewrite Hskip.
    + cbn [printed]. rewrite !printed_app, (IH _ _ Hrest).
      rewrite app_assoc. f_equal.
      unfold not_on_target_path in Hp. apply negb_false_iff in Hp.
      unfold idx_for_target. rewrite Hp.
      unfold visible. rewrite Hm, (truthy_1 _ Hv), Hb. reflexivity.
Qed.

End TargetPrinted.

(** X20.  What a call of [walk_table] with a target prints is the path
    and nothing else: the header of its table; then, when the entry at
    the index of the target is present, the two lines of that entry
    followed by what the call for the table below prints, that call
    being made exactly when the entry is labelled as a table, for the
    address on the label; when the entry is absent, nothing more. *)
Theorem target_walk_prints_path (mem : physmem) (fuel : nat)
        (table_addr va_start : Z) (level : nat) (target max_entries : Z)
        (tr : list event) :
  walk_table mem (S fuel) table_addr va_start level (Some target)
             max_entries = Some tr ->
  (level <= 3)%nat ->
  let i := idx_for_target target level in
  printed tr =
  TableHeader level (nth level level_names "") table_addr
  :: match visible mem (table_addr + i * 8) with
     | None => []
     | Some entry =>
         EntryLine level i (entry_va va_start level i)
                   (decode_pte (Some entry) level)
         :: RawLine level entry
         :: match decode_pte (Some entry) level with
            | TABLE next_addr =>
                match walk_table mem fuel next_addr
                        (Z.lor va_start (Z.shiftl i (shift level)))
                        (S level) (Some target) max_entries with
                | Some sub => printed sub
                | None => []
                end
            | _ => []
            end
     end.
Proof.
  intros H Hl i.
  destruct (walk_table_inv _ _ _ _ _ _ _ _ H Hl)
    as (fuel' & tr' & Hf & Hw & ->).
  injection Hf as <-.
  cbn [printed]. f_equal.
  apply walk_entries_printed_target in Hw. rewrite Hw.
  rewrite (flat_map_index_range512 _ i);
    [|apply idx_for_target_range
     |intros j Hj; fold i; destruct (Z.eqb_spec j i); [contradiction|];
      reflexivity].
  fold i. rewrite Z.eqb_refl.
  unfold visible.
  destruct (mem (table_addr + i * 8)) as [entry|]; [|reflexivity].
  destruct (truthy (Z.land entry 1)) eqn:Hv; [|reflexivity].
  assert (Hv1 : Z.land entry 1 = 1).
  { destruct (land_1_cases entry) as [H0|H1]; [|exact H1].
    rewrite H0 in Hv. discriminate. }
  unfold shown. cbn [printed app]. do 2 f_equal.
  pose proof (decode_pte_cases entry level Hv1) as Hd.
  unfold below.
  destruct ((level <? 3)%nat && truthy (Z.land (Z.shiftr entry 1) 1)).
  - rewrite Hd. reflexivity.
  - destruct Hd as (k & a & b & ap & xn & sh & af & ->). reflexivity.
Qed.

(** The path to the block of [0x123456789]: two headers and the two
    lines of two entries. *)
Lemma target_walk_prints_path_witness :
  (exists tr,
     walk_table (Examples.one_path_zeroes 0x40000601) 4 0x1000 0 0
                (Some 0x123456789) 512 = Some tr /\
     List.length (printed tr) = 6%nat) /\
  (0 <= 3)%nat.
Proof.
  split; [|apply Nat.le_0_l].
  destruct (walk_table (Examples.one_path_zeroes 0x40000601) 4
                       0x1000 0 0 (Some 0x123456789) 512) as [tr|] eqn:E;
    [|vm_compute in E; discriminate].
  exists tr. split; [reflexivity|].
  rewrite (target_walk_prints_path _ _ _ _ _ _ _ _ E (Nat.le_0_l 3)).
  vm_compute. reflexivity.
Defined.

End Arm64PageTableWalkMore.

(** ** The cap of the enumeration *)



(** ** The two walkers on the same table *)

Module WalkersAgree.
Import Arm64PageTableWalk Arm64PageTableWalkTraces Arm64PageTableWalkFacts.
Import Arm64PageTableWalkMore WalkersOutput.

#[local] Opaque range512.

Lemma raw_lines_app (a b : list line) :
  raw_lines (a ++ b) = raw_lines a ++ raw_lines b.
Proof.
  induction a as [|l a IH]; [reflexivity|].
  destruct l; cbn [app raw_lines]; try exact IH. f_equal. exact IH.
Qed.

Lemma valid_entries_app (a b : list WalkPageTable.event) :
  valid_entries (a ++ b) = valid_entries a ++ valid_entries b.
Proof.
  induction a as [|ev a IH]; [reflexivity|].
  destruct ev as [name|pa|pa|[]]; cbn [app valid_entries]; try exact IH.
  destruct (truthy (Z.land entry 1)); [cbn [app]; f_equal|]; exact IH.
Qed.

(** The raw entries a call with a target shows: the entry at the index
    of the target when it is present, then those of the table below
    when the entry is followed. *)
Lemma walk_table_target_raws (mem : physmem) (target max_entries : Z)
      (fuel : nat) (table_addr va_start : Z) (level : nat)
      (tr : list event) :
  walk_table mem (S fuel) table_addr va_start level (Some target)
             max_entries = Some tr ->
  (level <= 3)%nat ->
  raw_lines (printed tr) =
  match visible mem (table_addr + idx_for_target target level * 8) with
  | None => []
  | Some entry =>
      entry
      :: if (level <? 3)%nat && truthy (Z.land (Z.shiftr entry 1) 1)
         then
           match walk_table mem fuel (Z.land entry 0x0000FFFFFFFFF000)
                   (Z.lor va_start
                      (Z.shiftl (idx_for_target target level) (shift level)))
                   (S level) (Some target) max_entries with
           | Some sub => raw_lines (printed sub)
           | None => []
           end
         else []
  end.
Proof.
  intros H Hl.
  destruct (walk_table_inv _ _ _ _ _ _ _ _ H Hl)
    as (fuel' & tr' & Hf & Hw & ->).
  injection Hf as <-.
  cbn [printed raw_lines].
  apply walk_entries_printed_target in Hw. rewrite Hw.
  rewrite (flat_map_index_range512 _ (idx_for_target target level));
    [|apply idx_for_target_range
     |intros j Hj;
      destruct (Z.eqb_spec j (idx_for_target target level));
      [contradiction|reflexivity]].
  rewrite Z.eqb_refl.
  destruct (visible mem (table_addr + idx_for_target target level * 8))
    as [entry|]; [|reflexivity].
  rewrite raw_lines_app. unfold shown. cbn [printed raw_lines app].
  f_equal. unfold below.
  destruct ((level <? 3)%nat && truthy (Z.land (Z.shiftr entry 1) 1));
    [|reflexivity].
  destruct (walk_table mem fuel _ _ _ _ _); reflexivity.
Qed.

(** The valid entries [do_walk]'s loop shows from one level on. *)
Lemma walk_levels_valid_entries (xp : WalkPageTable.monitor)
      (mem : physmem) (va k : Z) (name : string)
      (idx shift : Z) (bm : option Z)
      (rows : list WalkPageTable.level_row) (tbl : Z) :
  (forall pa,
     WalkPageTable.giant xp pa
     = match mem pa with
       | Some value => WalkPageTable.Parsed value
       | None => WalkPageTable.Unparsed
       end) ->
  valid_entries
    (fst (WalkPageTable.walk_levels xp va k
            ((name, idx, shift, bm) :: rows) tbl))
  = match visible mem (tbl + idx * 8) with
    | None => []
    | Some entry =>
        entry
        :: if k =? 3 then []
           else if negb (truthy (Z.land (Z.shiftr entry 1) 1)) && (0 <? k)
                then []
                else valid_entries
                       (fst (WalkPageTable.walk_levels xp va (k + 1) rows
                               (Z.land entry 0x0000FFFFFFFFF000)))
    end.
Proof.
  intros Hmon. cbn [WalkPageTable.walk_levels].
  pose proof (Hmon (tbl + idx * 8)) as Hg.
  destruct (WalkPageTableFacts.walk_level_iteration xp va k name idx shift
              tbl bm)
    as [Hm|entry Hm Hv|entry Hm Hv H3|entry Hm Hv Ht H3 H0
        |entry Hm Hv H3 Ht|Hm];
    rewrite Hm in Hg; unfold visible;
    destruct (mem (tbl + idx * 8)) as [e0|]; try discriminate Hg;
    try (injection Hg as <-).
  - reflexivity.
  - rewrite (truthy_0 _ Hv).
    unfold WalkPageTableTraces.fetched.
    cbn [app fst valid_entries]. now rewrite (truthy_0 _ Hv).
  - rewrite (truthy_1 _ Hv). subst k.
    unfold WalkPageTableTraces.fetched, WalkPageTable.print_permissions.
    cbn [app fst valid_entries Z.eqb Pos.eqb].
    now rewrite (truthy_1 _ Hv).
  - rewrite (truthy_1 _ Hv), Ht.
    destruct (Z.eqb_spec k 3); [contradiction|].
    destruct (Z.ltb_spec 0 k); [|lia].
    cbn [truthy Z.eqb negb andb].
    destruct bm;
      unfold WalkPageTableTraces.fetched, WalkPageTable.print_permissions;
      cbn [app fst valid_entries]; now rewrite (truthy_1 _ Hv).
  - rewrite (truthy_1 _ Hv).
    destruct (Z.eqb_spec k 3); [contradiction|].
    replace (negb (truthy (Z.land (Z.shiftr entry 1) 1)) && (0 <? k))
      with false.
    2:{ destruct Ht as [Ht|Ht].
        - rewrite Ht. reflexivity.
        - destruct (Z.ltb_spec 0 k); [lia|]. now rewrite andb_false_r. }
    destruct (WalkPageTable.walk_levels xp va (k + 1) rows
                (Z.land entry 0x0000FFFFFFFFF000)) as [tr' ex].
    cbn [fst]. rewrite valid_entries_app.
    unfold WalkPageTableTraces.fetched.
    cbn [app valid_entries]. now rewrite (truthy_1 _ Hv).
Qed.

Section Agreement.
Variable xp : WalkPageTable.monitor.
Variable mem : physmem.
Variables va max_entries : Z.
Hypothesis Hmon : forall pa,
  WalkPageTable.giant xp pa
  = match mem pa with
    | Some value => WalkPageTable.Parsed value
    | None => WalkPageTable.Unparsed
    end.

(** One level of both walkers, given the levels below. *)
Lemma agree_step (k : nat) (name : string) (shift' : Z) (bm : option Z)
      (rows : list WalkPageTable.level_row) (tbl : Z) :
  (k <= 3)%nat ->
  ((k < 3)%nat ->
   forall fuel tbl' vs, (4 - S k <= fuel)%nat ->
     exists sub,
       walk_table mem fuel tbl' vs (S k) (Some va) max_entries = Some sub /\
       raw_lines (printed sub)
       = valid_entries
           (fst (WalkPageTable.walk_levels xp va (Z.of_nat k + 1) rows
                   tbl'))) ->
  (k = 0%nat ->
   forall entry,
     mem (tbl + idx_for_target va k * 8) = Some entry ->
     Z.land entry 1 = 1 ->
     truthy (Z.land (Z.shiftr entry 1) 1) = true) ->
  forall fuel vs, (4 - k <= fuel)%nat ->
    exists tr,
      walk_table mem fuel tbl vs k (Some va) max_entries = Some tr /\
      raw_lines (printed tr)
      = valid_entries
          (fst (WalkPageTable.walk_levels xp va (Z.of_nat k)
                  ((name, idx_for_target va k, shift', bm) :: rows) tbl)).
Proof.
  intros Hk IH H0 fuel vs Hf.
  destruct fuel as [|fuel]; [lia|].
  destruct (walk_table_total mem (Some va) max_entries (S fuel) tbl vs k
              ltac:(lia)) as [tr Htr].
  exists tr. split; [exact Htr|].
  rewrite (walk_table_target_raws _ _ _ _ _ _ _ _ Htr Hk).
  rewrite (walk_levels_valid_entries xp mem) by exact Hmon.
  destruct (visible mem (tbl + idx_for_target va k * 8)) as [entry|] eqn:Hvis;
    [|reflexivity].
  f_equal.
  assert (Hent : mem (tbl + idx_for_target va k * 8) = Some entry /\
                 Z.land entry 1 = 1).
  { unfold visible in Hvis.
    destruct (mem (tbl + idx_for_target va k * 8)) as [e|]; [|discriminate].
    destruct (land_1_cases e) as [He|He]; rewrite He in Hvis;
      [discriminate|].
    cbn in Hvis. injection Hvis as ->. split; [reflexivity|exact He]. }
  destruct Hent as [Hm Hv].
  destruct (Nat.ltb_spec k 3) as [Hlt|Hge].
  - destruct (Z.eqb_spec (Z.of_nat k) 3); [lia|].
    cbn [andb].
    destruct (truthy (Z.land (Z.shiftr entry 1) 1)) eqn:Hb.
    + cbn [negb andb].
      destruct (IH Hlt fuel (Z.land entry 0x0000FFFFFFFFF000)
                  (Z.lor vs (Z.shiftl (idx_for_target va k) (shift k)))
                  ltac:(lia)) as (sub & Hsub & Hraws).
      rewrite Hsub. exact Hraws.
    + destruct k as [|k].
      * rewrite (H0 eq_refl entry Hm Hv) in Hb. discriminate.
      * destruct (Z.ltb_spec 0 (Z.of_nat (S k))); [reflexivity|lia].
  - assert (k = 3%nat) by lia. subst k. reflexivity.
Qed.

End Agreement.

(** X21.  On the same table the two walkers follow the same path: the
    monitor of [read_phys_u64] shows for every address the value
    [read_u64] reads there, and nothing that can be parsed where
    [read_u64] returns [None].  When
    the entry of the address in the level-0 table, if present, is a
    table descriptor, the raw entries the walk of [walk_table] with the
    address as target shows are, in order, the valid entries the loop
    of [do_walk] shows for that address: both read the entry of the
    same index at each level, both stop at an absent entry, at a block
    at level 1 or 2 and at level 3, and both follow a table to the
    address under the mask of bits [47:12]. *)
Theorem walkers_follow_same_path (xp : WalkPageTable.monitor)
        (mem : physmem)
        (va table_addr va_start max_entries : Z) (fuel : nat) :
  (forall pa,
     WalkPageTable.giant xp pa
     = match mem pa with
       | Some value => WalkPageTable.Parsed value
       | None => WalkPageTable.Unparsed
       end) ->
  (4 <= fuel)%nat ->
  (forall entry,
     mem (table_addr + WalkPageTable.l0_idx va * 8) = Some entry ->
     Z.land entry 1 = 1 -> Z.testbit entry 1 = true) ->
  exists tr,
    walk_table mem fuel table_addr va_start 0 (Some va) max_entries
      = Some tr /\
    raw_lines (printed tr)
    = valid_entries
        (fst (WalkPageTable.walk_levels xp va 0 (WalkPageTable.levels va)
                table_addr)).
Proof.
  intros Hmon Hf H0.
  change (WalkPageTable.levels va)
    with [("L0 (PGD)", idx_for_target va 0, 39, @None Z);
          ("L1 (PUD)", idx_for_target va 1, 30, Some 0x0000FFFFC0000000);
          ("L2 (PMD)", idx_for_target va 2, 21, Some 0x0000FFFFFFE00000);
          ("L3 (PTE)", idx_for_target va 3, 12, Some 0x0000FFFFFFFFF000)].
  apply (agree_step xp mem va max_entries Hmon 0); try lia.
  - intros _ fuel1 tbl1 vs1 Hf1.
    apply (agree_step xp mem va max_entries Hmon 1); try lia.
    intros _ fuel2 tbl2 vs2 Hf2.
    apply (agree_step xp mem va max_entries Hmon 2); try lia.
    intros _ fuel3 tbl3 vs3 Hf3.
    apply (agree_step xp mem va max_entries Hmon 3); try lia.
  - intros _ entry Hm Hv.
    rewrite truthy_bit by lia. now apply H0.
Qed.

(** The walk for [0x123456789]: the table entry [0x2003] and the block
    [0x40000601], shown by both. *)
Lemma walkers_follow_same_path_witness :
  (4 <= 4)%nat /\
  exists tr,
    walk_table (Examples.one_path_zeroes 0x40000601) 4 0x1000 0 0
               (Some 0x123456789) 512 = Some tr /\
    raw_lines (printed tr) = [0x2003; 0x40000601].
Proof.
  split; [apply le_n|].
  destruct (walkers_follow_same_path
              (MoreExamples.monitor_of (Examples.one_path_zeroes 0x40000601))
              (Examples.one_path_zeroes 0x40000601)
              0x123456789 0x1000 0 512 4 (fun pa => eq_refl) (le_n 4))
    as (tr & Htr & Hraws).
  - intros entry Hm _. vm_compute in Hm.
    injection Hm as <-. reflexivity.
  - exists tr. split; [exact Htr|].
    rewrite Hraws. reflexivity.
Defined.

End WalkersAgree.
